(** * CyberShake ground-motion durations: a model of
      [calculate_grm_durations_binary.py]

    The development follows the stages of the script: the binary record
    decoder, the Arias-intensity integrator, the 5%-95% duration extractor and
    the band-pass filter designer.

    Numbers.  The script computes with IEEE floating point.  The decoder
    divides in single precision, and that division is modelled as it is:
    the exact quotient rounded to the nearest single-precision number
    ([binary32_round]).  Everywhere else a finite float is a rational ([Q])
    and arithmetic is exact: no rounding, no overflow, no underflow.
    Equalities between computed numbers are therefore stated with [==]
    ([Qeq]).  The literal [9.81] is the rational 981/100 and [np.pi] is the
    rational that the double-precision constant denotes.  Non-finite values
    only appear where the script can produce them without raising (decoded
    samples, the diagnostic sampling rate).  Properties that turn on a sum
    of squares being zero are stated for samples in a range in which single
    precision neither loses a square nor overflows ([ordinary_sample]).

    Library routines the script calls (numpy, scipy) are modelled in the
    modules [np] and [scipy] from their documented behaviour. *)

From Stdlib Require Import Bool String.
From Stdlib Require Import QArith ZArith List Lia Lqa.
From Stdlib Require Import Qabs Qminmax Qpower.
From Stdlib Require Strings.Byte.
From Stdlib Require Import DecimalString.
Import ListNotations.

Open Scope Q_scope.

(** ** Exceptions *)

Inductive exn : Type :=
| ValueError (msg : string)
| IndexError (msg : string)
| StructError (msg : string).

(** A computation that either raises or returns. *)
Definition result (A : Type) : Type := (exn + A)%type.

Definition raise {A : Type} (e : exn) : result A := inl e.
Definition ret {A : Type} (a : A) : result A := inr a.

Definition bind {A B : Type} (m : result A) (k : A -> result B) : result B :=
  match m with
  | inl e => inl e
  | inr a => k a
  end.

Notation "x <- m ;; k" := (bind m (fun x => k))
  (at level 61, m at next level, right associativity).

(** ** Elementwise helpers *)

Fixpoint map2 {A B C : Type} (f : A -> B -> C) (l : list A) (l' : list B)
  : list C :=
  match l, l' with
  | a :: t, b :: t' => f a b :: map2 f t t'
  | _, _ => []
  end.

(** [a[-1]] and [a[0]] on a one-dimensional array. *)
Definition index_last (a : list Q) : result Q :=
  match a with
  | [] => raise (IndexError "index -1 is out of bounds for axis 0 with size 0")
  | x :: t => ret (last t x)
  end.

Definition index_first (a : list Q) : result Q :=
  match a with
  | [] => raise (IndexError "index 0 is out of bounds for axis 0 with size 0")
  | x :: _ => ret x
  end.

(** Python's builtin [min] and [max] on two arguments: the first argument
    wins ties. *)
Definition py_min (a b : Q) : Q := if Qlt_le_dec b a then b else a.
Definition py_max (a b : Q) : Q := if Qlt_le_dec a b then b else a.

(** ** Bytes and single-precision values *)

Definition byte : Type := Init.Byte.byte.

Definition byte_val (b : byte) : Z := Z.of_N (Strings.Byte.to_N b).

(** The unsigned integer a little-endian byte string denotes.  The script
    reads integers and floats in native byte order; the archives were
    written, and are read, on little-endian machines. *)
Fixpoint le_uint (bs : list byte) : Z :=
  match bs with
  | [] => 0%Z
  | b :: t => (byte_val b + 256 * le_uint t)%Z
  end.

(** A [float32]: a finite value as the rational it denotes.  The sign of
    a zero is not recorded; nothing in the script depends on it. *)
Inductive float32 : Type :=
| Finite (q : Q)
| Infinity (negative : bool)
| NaN.

(** IEEE 754 binary32: sign bit 31, biased exponent bits 30-23, fraction
    bits 22-0. *)
Definition float32_of_bits (w : Z) : float32 :=
  let negative := Z.testbit w 31 in
  let e := Z.land (Z.shiftr w 23) 255 in
  let m := Z.land w (2 ^ 23 - 1) in
  if (e =? 255)%Z then
    if (m =? 0)%Z then Infinity negative else NaN
  else
    let magnitude :=
      if (e =? 0)%Z then inject_Z m * 2 ^ (-149)
      else inject_Z (2 ^ 23 + m) * 2 ^ (e - 150) in
    Finite (if negative then - magnitude else magnitude).

(** The nearest integer, ties to the even one. *)
Definition round_half_even (q : Q) : Z :=
  let n := Qnum q in
  let d := Z.pos (Qden q) in
  let low := (n / d)%Z in
  let twice_rest := (2 * (n - low * d))%Z in
  if (twice_rest <? d)%Z then low
  else if (d <? twice_rest)%Z then (low + 1)%Z
  else if Z.even low then low else (low + 1)%Z.

(** For [q > 0], the [k] with [2 ^ k <= q < 2 ^ (k + 1)]. *)
Definition ilog2 (q : Q) : Z :=
  let k := (Z.log2 (Qnum q) - Z.log2 (Z.pos (Qden q)))%Z in
  if Qle_bool (2 ^ k) q then k else (k - 1)%Z.

(** The result of a single-precision operation whose exact result is [t]:
    [t] rounded to 24 significant bits, or to a multiple of [2 ^ (-149)]
    below the normal range, ties to the even significand; an infinity when
    the rounded magnitude reaches [2 ^ 128]. *)
Definition binary32_round (t : Q) : float32 :=
  if Qeq_bool t 0 then Finite 0
  else
    let e := Z.max (ilog2 (Qabs t) - 23) (-149) in
    let q := inject_Z (round_half_even (t / 2 ^ e)) * 2 ^ e in
    if Qle_bool (2 ^ 128) (Qabs q) then Infinity (negb (Qle_bool 0 t))
    else Finite q.

(** [v / c] on a [float32] array and a Python float [c] that is positive
    and a single-precision number itself: the division is carried out in
    single precision. *)
Definition float32_div (v : float32) (c : Q) : float32 :=
  match v with
  | Finite q => binary32_round (q / c)
  | Infinity s => Infinity s
  | NaN => NaN
  end.

(** Python's [str] on an integer. *)
Definition str (z : Z) : string := NilZero.string_of_int (Z.to_int z).

(** [b[lo:hi]] for [0 <= lo <= hi]. *)
Definition slice {A : Type} (lo hi : nat) (b : list A) : list A :=
  firstn (hi - lo) (skipn lo b).

(** [fp.read(n)] on the unread rest of a file opened with
    [open(filename, 'rb')]: the bytes read and the new rest.  The size [-1]
    reads to the end of the file; the buffered reader refuses every smaller
    size. *)
Definition read (n : Z) (fp : list byte)
  : result (list byte * list byte) :=
  if (n <? -1)%Z then
    raise (ValueError "read length must be non-negative or -1")
  else if (n =? -1)%Z then ret (fp, [])
  else ret (firstn (Z.to_nat n) fp, skipn (Z.to_nat n) fp).

Module struct.

(** [struct.unpack('i', buffer)[0]]: a signed 32-bit integer. *)
Definition unpack_i (buffer : list byte) : result Z :=
  if (length buffer =? 4)%nat then
    let u := le_uint buffer in
    ret (if (u <? 2 ^ 31)%Z then u else (u - 2 ^ 32)%Z)
  else raise (StructError "unpack requires a buffer of 4 bytes").

End struct.

(** ** numpy *)

Module np.

(** The value of the double-precision constant [np.pi],
    [0x400921FB54442D18]. *)
Definition pi : Q := 884279719003555 # 281474976710656.

(** [np.diff]: [out[i] = a[i+1] - a[i]]. *)
Fixpoint diff (a : list Q) : list Q :=
  match a with
  | x0 :: ((x1 :: _) as t) => (x1 - x0) :: diff t
  | _ => []
  end.

Fixpoint cumsum_from (acc : Q) (a : list Q) : list Q :=
  match a with
  | [] => []
  | x :: t => (acc + x) :: cumsum_from (acc + x) t
  end.

(** [np.cumsum]. *)
Definition cumsum (a : list Q) : list Q :=
  match a with
  | [] => []
  | x :: t => x :: cumsum_from x t
  end.

(** [np.max]: raises on an empty array. *)
Definition max (a : list Q) : result Q :=
  match a with
  | [] => raise (ValueError
            "zero-size array to reduction operation maximum which has no identity")
  | x :: t => ret (fold_left (fun m y => if Qlt_le_dec m y then y else m) t x)
  end.

Definition sum (a : list Q) : Q := fold_left Qplus a 0.

(** [np.mean]: the mean of an empty array is NaN (a warning, no
    exception), modelled as [None]. *)
Definition mean (a : list Q) : option Q :=
  match a with
  | [] => None
  | _ => Some (sum a / inject_Z (Z.of_nat (length a)))
  end.

(** [np.arange(n)] for an integer [n]: empty when [n <= 0]. *)
Definition arange (n : Z) : list Q :=
  map (fun i => inject_Z (Z.of_nat i)) (seq 0 (Z.to_nat n)).

(** [np.where(cond)[0]], that is [np.nonzero(cond)[0]]: the indices at
    which [cond] holds, ascending. *)
Fixpoint nonzero_from (i : nat) (cond : list bool) : list nat :=
  match cond with
  | [] => []
  | c :: t => if c then i :: nonzero_from (S i) t else nonzero_from (S i) t
  end.

Definition nonzero (cond : list bool) : list nat := nonzero_from 0 cond.

(** [a >= v], elementwise. *)
Definition ge (a : list Q) (v : Q) : list bool :=
  map (fun x => Qle_bool v x) a.

(** C-level array read [arr[i]]. *)
Definition get (arr : list Q) (i : Z) : Q := nth (Z.to_nat i) arr 0.

(** *** [np.interp]

    The interval search of numpy's [compiled_base.c]: outside the sample
    range it answers [len] or [-1]; short arrays are scanned linearly;
    otherwise the neighbourhood of the guess is tried and the rest is
    found by bisection. *)

Definition LIKELY_IN_CACHE_SIZE : Z := 8.

(** [for (i = 1; i < len && key >= arr[i]; ++i);] started at [i]. *)
Fixpoint linear_search (key : Q) (arr : list Q) (len : Z) (fuel : nat)
         (i : Z) : Z :=
  match fuel with
  | O => i
  | S fuel' =>
    if (i <? len)%Z then
      if Qlt_le_dec key (get arr i) then i
      else linear_search key arr len fuel' (i + 1)%Z
    else i
  end.

(** [while (imin < imax) { ... }], answering the final [imin]. *)
Fixpoint bisect (key : Q) (arr : list Q) (fuel : nat) (imin imax : Z) : Z :=
  match fuel with
  | O => imin
  | S fuel' =>
    if (imin <? imax)%Z then
      let imid := (imin + Z.shiftr (imax - imin) 1)%Z in
      if Qlt_le_dec key (get arr imid) then bisect key arr fuel' imin imid
      else bisect key arr fuel' (imid + 1)%Z imax
    else imin
  end.

Definition binary_search_with_guess (key : Q) (arr : list Q) (guess : Z)
  : Z :=
  let len := Z.of_nat (length arr) in
  if Qlt_le_dec (get arr (len - 1)) key then len
  else if Qlt_le_dec key (get arr 0) then (-1)%Z
  else if (len <=? 4)%Z then
    (linear_search key arr len (length arr) 1 - 1)%Z
  else
    let guess := if (guess >? len - 3)%Z then (len - 3)%Z else guess in
    let guess := if (guess <? 1)%Z then 1%Z else guess in
    let run imin imax := (bisect key arr (S (length arr)) imin imax - 1)%Z in
    if Qlt_le_dec key (get arr guess) then
      if Qlt_le_dec key (get arr (guess - 1)) then
        let imax := (guess - 1)%Z in
        if (guess >? LIKELY_IN_CACHE_SIZE)%Z then
          if Qlt_le_dec key (get arr (guess - LIKELY_IN_CACHE_SIZE))
          then run 0%Z imax
          else run (guess - LIKELY_IN_CACHE_SIZE)%Z imax
        else run 0%Z imax
      else (guess - 1)%Z
    else
      if Qlt_le_dec key (get arr (guess + 1)) then guess
      else if Qlt_le_dec key (get arr (guess + 2)) then (guess + 1)%Z
      else
        let imin := (guess + 2)%Z in
        if (guess <? len - LIKELY_IN_CACHE_SIZE - 1)%Z then
          if Qlt_le_dec key (get arr (guess + LIKELY_IN_CACHE_SIZE))
          then run imin (guess + LIKELY_IN_CACHE_SIZE)%Z
          else run imin len
        else run imin len.

(** [np.interp(x, xp, fp)] for a scalar [x], with the default [left] and
    [right] values [fp[0]] and [fp[-1]]. *)
Definition interp (x : Q) (xp fp : list Q) : result Q :=
  let lenxp := Z.of_nat (length xp) in
  if (lenxp =? 0)%Z then
    raise (ValueError "array of sample points is empty")
  else if negb (length fp =? length xp)%nat then
    raise (ValueError "fp and xp are not of the same length.")
  else
    let lval := get fp 0 in
    let rval := get fp (lenxp - 1) in
    if (lenxp =? 1)%Z then
      ret (if Qlt_le_dec x (get xp 0) then lval
           else if Qlt_le_dec (get xp 0) x then rval
           else get fp 0)
    else
      let j := binary_search_with_guess x xp 0 in
      if (j =? -1)%Z then ret lval
      else if (j =? lenxp)%Z then ret rval
      else if (j =? lenxp - 1)%Z then ret (get fp j)
      else if Qeq_bool (get xp j) x then ret (get fp j)
      else
        let slope :=
          (get fp (j + 1) - get fp j) / (get xp (j + 1) - get xp j) in
        ret (slope * (x - get xp j) + get fp j).

(** *** Buffers and shapes *)

Fixpoint float32_items (buffer : list byte) : list float32 :=
  match buffer with
  | b0 :: b1 :: b2 :: b3 :: t =>
    float32_of_bits (le_uint [b0; b1; b2; b3]) :: float32_items t
  | _ => []
  end.

(** [np.frombuffer(buffer, dtype=np.float32)]. *)
Definition frombuffer (buffer : list byte) : result (list float32) :=
  if (Z.of_nat (length buffer) mod 4 =? 0)%Z then ret (float32_items buffer)
  else raise (ValueError "buffer size must be a multiple of element size").

Fixpoint split_rows {A : Type} (rows cols : nat) (a : list A)
  : list (list A) :=
  match rows with
  | O => []
  | S r => firstn cols a :: split_rows r cols (skipn cols a)
  end.

(** [a.reshape(rows, cols)] on a one-dimensional array, [rows] a
    non-negative constant.  A column count of [-1] is inferred from the
    size; any other negative count is refused. *)
Definition reshape {A : Type} (a : list A) (rows : nat) (cols : Z)
  : result (list (list A)) :=
  let size := Z.of_nat (length a) in
  let r := Z.of_nat rows in
  if (cols <? -1)%Z then
    raise (ValueError "negative dimensions not allowed")
  else if (cols =? -1)%Z then
    if (r =? 0)%Z || negb (size mod r =? 0)%Z then
      raise (ValueError "cannot reshape array into shape")
    else ret (split_rows rows (Z.to_nat (size / r)) a)
  else if negb (size =? r * cols)%Z then
    raise (ValueError "cannot reshape array into shape")
  else ret (split_rows rows (Z.to_nat cols) a).

(** [data[i, :]]. *)
Definition row {A : Type} (data : list (list A)) (i : nat)
  : result (list A) :=
  match nth_error data i with
  | Some r => ret r
  | None => raise (IndexError "index is out of bounds for axis 0")
  end.

End np.

(** ** scipy.integrate *)

Module scipy.

(** [cumulative_trapezoid(y, x, initial=0)] for one-dimensional [y], [x]:
    [d = diff(x)], [res = cumsum(d * (y[1:] + y[:-1]) / 2.0)], with the
    initial value prepended. *)
Definition cumulative_trapezoid (y x : list Q) : result (list Q) :=
  match y with
  | [] => raise (ValueError "At least one point is required along `axis`.")
  | _ =>
    let d := np.diff x in
    if negb (length d =? length y - 1)%nat then
      raise (ValueError
               "If given, length of x along axis must be the same as y.")
    else
      let res :=
        np.cumsum
          (map (fun v => v / 2)
               (map2 Qmult d (map2 Qplus (tl y) (removelast y)))) in
      ret (0 :: res)
  end.

(** *** [scipy.signal.butter]

    [butter(N, [low, high], btype='band', fs=fs, output='sos')] goes
    through [iirfilter], which first validates the band edges and then
    computes the sections.  The validation is modelled as written there;
    the sections themselves (poles of the analog prototype, pre-warping,
    bilinear transform) are irrational in the band edges and are left to
    the parameter [sections], given the order and the normalised edges. *)
Section Butter.

Variable sos : Type.
Variable sections : nat -> Q -> Q -> sos.

Definition butter (N : nat) (Wn : Q * Q) (fs : Q) : result sos :=
  let '(lo, hi) := Wn in
  if Qeq_bool fs 0 then
    (* 2*Wn/fs is +-inf or nan: an entry is <= 0 only when negative,
       and no comparison between inf and nan entries holds *)
    if Qlt_le_dec lo 0 then
      raise (ValueError "filter critical frequencies must be greater than 0")
    else if Qlt_le_dec hi 0 then
      raise (ValueError "filter critical frequencies must be greater than 0")
    else raise (ValueError "Wn[0] must be less than Wn[1]")
  else
    let w0 := 2 * lo / fs in
    let w1 := 2 * hi / fs in
    if Qle_bool w0 0 || Qle_bool w1 0 then
      raise (ValueError "filter critical frequencies must be greater than 0")
    else if Qle_bool w1 w0 then
      raise (ValueError "Wn[0] must be less than Wn[1]")
    else if Qle_bool 1 w0 || Qle_bool 1 w1 then
      raise (ValueError
               "Digital filter critical frequencies must be 0 < Wn < fs/2")
    else ret (sections N w0 w1).

End Butter.

End scipy.

(** ** Energy integrator *)

Record arias_details : Type := {
  max_acceleration_g : Q;
  max_acceleration_ms2 : Q;
  total_arias_intensity : Q;
  scaling_factor : Q;
  duration : Q;
  num_points : nat;
  (** [None] stands for a non-finite value (NaN or infinity). *)
  sampling_rate : option Q
}.

(** [1.0 / m] on numpy scalars: never raises, non-finite when [m] is NaN
    or zero. *)
Definition reciprocal (m : option Q) : option Q :=
  match m with
  | None => None
  | Some v => if Qeq_bool v 0 then None else Some (1 / v)
  end.

Definition calculate_arias_intensity_detailed (time accel_g : list Q)
  : result (list Q * arias_details) :=
  let g : Q := 9.81 in
  let accel_ms2 := map (fun a => a * g) accel_g in
  let accel_squared := map (fun a => a ^ 2) accel_ms2 in
  cumulative_integral <- scipy.cumulative_trapezoid accel_squared time ;;
  let arias_intensity :=
    map (fun c => (np.pi / (2 * g)) * c) cumulative_integral in
  max_g <- np.max (map Qabs accel_g) ;;
  max_ms2 <- np.max (map Qabs accel_ms2) ;;
  total <- index_last arias_intensity ;;
  t_last <- index_last time ;;
  t_first <- index_first time ;;
  ret (arias_intensity,
       {| max_acceleration_g := max_g;
          max_acceleration_ms2 := max_ms2;
          total_arias_intensity := total;
          scaling_factor := np.pi / (2 * g);
          duration := t_last - t_first;
          num_points := length time;
          sampling_rate := reciprocal (np.mean (np.diff time)) |}).

(** ** Duration extractor *)

Record duration_details : Type := {
  energy_at_t5 : Q;
  energy_at_t95 : Q;
  percent_before_t5 : Q;
  percent_after_t95 : Q;
  percent_in_duration : Q
}.

(** The result is [(duration_5_95, t5, t95, details)]; the empty dictionary
    is [None]. *)
Definition find_5_95_duration_detailed (time arias_intensity : list Q)
  : result (Q * Q * Q * option duration_details) :=
  total_arias <- index_last arias_intensity ;;
  if Qeq_bool total_arias 0 then ret (0, 0, 0, None)
  else
    let normalized_arias := map (fun a => a / total_arias) arias_intensity in
    let idx_5 := np.nonzero (np.ge normalized_arias 0.05) in
    let idx_95 := np.nonzero (np.ge normalized_arias 0.95) in
    if (length idx_5 =? 0)%nat || (length idx_95 =? 0)%nat then
      ret (0, 0, 0, None)
    else
      t5 <- np.interp 0.05 normalized_arias time ;;
      t95 <- np.interp 0.95 normalized_arias time ;;
      let duration_5_95 := t95 - t5 in
      ret (duration_5_95, t5, t95,
           Some {| energy_at_t5 := 0.05 * total_arias;
                   energy_at_t95 := 0.95 * total_arias;
                   percent_before_t5 := 5;
                   percent_after_t95 := 5;
                   percent_in_duration := 90 |}).

(** ** Band-pass filter designer *)

Record filter_info : Type := {
  type : string;
  order : nat;
  center_freq_hz : Q;
  low_freq_hz : Q;
  high_freq_hz : Q;
  bandwidth_hz : Q;
  relative_bandwidth : Q
}.

Section FilterDesign.

Variable sos : Type.
Variable sections : nat -> Q -> Q -> sos.

Definition design_bandpass_filter_detailed
           (f_center fs bandwidth_factor : Q) : result (sos * filter_info) :=
  let f_low := f_center * (1 - bandwidth_factor) in
  let f_high := f_center * (1 + bandwidth_factor) in
  let nyquist := fs / 2 in
  let f_high := py_min f_high (nyquist * 0.95) in
  let f_low := py_max f_low 0.01 in
  let order := 4%nat in
  sos <- scipy.butter sos sections order (f_low, f_high) fs ;;
  ret (sos,
       {| type := "Butterworth Bandpass";
          order := order;
          center_freq_hz := f_center;
          low_freq_hz := f_low;
          high_freq_hz := f_high;
          bandwidth_hz := f_high - f_low;
          relative_bandwidth := bandwidth_factor * 2 |}).

End FilterDesign.

(** The default of the keyword argument [bandwidth_factor]. *)
Definition default_bandwidth_factor : Q := 0.2.

(** ** Record decoder *)

(** The body of the [try] block, on the bytes of the opened file. *)
Definition load_binary_grm_body (file : list byte)
  : result (list Q * list float32) :=
  r <- read 56 file ;;
  let '(header, fp) := r in
  if (length header <? 56)%nat then raise (ValueError "Invalid header size")
  else
    nt <- struct.unpack_i (slice 40 44 header) ;;
    let num_components := 2%nat in
    let sizeof_float := 4%Z in
    let data_size := (Z.of_nat num_components * sizeof_float * nt)%Z in
    r <- read data_size fp ;;
    let '(data_bytes, fp) := r in
    if (Z.of_nat (length data_bytes) <? data_size)%Z then
      raise (ValueError
               ("Insufficient data: expected " ++ str data_size
                ++ " bytes, got " ++ str (Z.of_nat (length data_bytes))))
    else
      data <- np.frombuffer data_bytes ;;
      data <- np.reshape data num_components nt ;;
      accel_cms2 <- np.row data 0 ;;
      let dt := 0.01 in
      let time := map (fun i => i * dt) (np.arange nt) in
      let accel_g := map (fun v => float32_div v 981) accel_cms2 in
      ret (time, accel_g).

(** What the caller observes: the returned pair and the exception reported
    on the console.  Every exception of the body is caught; the function
    then prints it and returns [(None, None)]. *)
Record load_outcome : Type := {
  returned : option (list Q) * option (list float32);
  reported : option exn
}.

Definition load_binary_grm_file (file : list byte) : load_outcome :=
  match load_binary_grm_body file with
  | inr (time, accel_g) =>
    {| returned := (Some time, Some accel_g); reported := None |}
  | inl e =>
    {| returned := (None, None); reported := Some e |}
  end.

(** ** Predicates on records and curves *)

Definition Qlt_bool (a b : Q) : bool := negb (Qle_bool b a).

(** [R] holds between every two neighbours of the list. *)
Fixpoint adjacent (R : Q -> Q -> bool) (l : list Q) : bool :=
  match l with
  | a :: ((b :: _) as t) => R a b && adjacent R t
  | _ => true
  end.

Definition strictly_increasing (l : list Q) : Prop :=
  adjacent Qlt_bool l = true.

Definition non_decreasing (l : list Q) : Prop :=
  adjacent Qle_bool l = true.

(** ** The reference definition of Arias intensity

    Written after the specification, not after the code: the integrand is
    the squared acceleration in m/s^2, each step of the trapezoidal rule adds
    [0.5 * (f[i] + f[i+1]) * (time[i+1] - time[i])] to a curve that starts
    at 0, and the curve is scaled by [pi / (2 * 9.81)]. *)

Definition reference_integrand (acceleration_g : list Q) (i : nat) : Q :=
  (nth i acceleration_g 0 * 9.81) ^ 2.

Fixpoint reference_trapezoid (f : nat -> Q) (time : list Q) (i : nat) : Q :=
  match i with
  | O => 0
  | S k =>
    reference_trapezoid f time k
    + 0.5 * (f k + f (S k)) * (nth (S k) time 0 - nth k time 0)
  end.

Definition reference_arias (time acceleration_g : list Q) (i : nat) : Q :=
  np.pi / (2 * 9.81)
  * reference_trapezoid (reference_integrand acceleration_g) time i.

(** The terms that [cumulative_trapezoid] sums. *)
Definition trapezoid_terms (y x : list Q) : list Q :=
  map (fun v => v / 2)
      (map2 Qmult (np.diff x) (map2 Qplus (tl y) (removelast y))).

(** ** Exceptions of the orchestration

    The functions that compose the stages can also raise Python's own
    [KeyError] and [ZeroDivisionError]. *)

Inductive py_exn : Type :=
| Raised (e : exn)
| KeyError (key : string)
| ZeroDivisionError (msg : string).

Definition outcome (A : Type) : Type := (py_exn + A)%type.

(** A call of one of the stages above. *)
Definition stage {A : Type} (m : result A) : outcome A :=
  match m with
  | inl e => inl (Raised e)
  | inr a => inr a
  end.

Definition obind {A B : Type} (m : outcome A) (k : A -> outcome B)
  : outcome B :=
  match m with
  | inl e => inl e
  | inr a => k a
  end.

Notation "x <~ m ;; k" := (obind m (fun x => k))
  (at level 61, m at next level, right associativity).

Notation "' p <~ m ;; k" := (obind m (fun x => let 'p := x in k))
  (at level 61, p pattern, m at next level, right associativity).

(** ** Period-dependent duration

    [signal.sosfiltfilt] is a parameter, like the filter sections it is
    applied to: it returns the filtered record or raises.

    The sampling frequency [1.0 / dt] is a numpy scalar and never raises:
    it is NaN when [np.diff(time)] is empty and infinite when the mean
    step is zero.  In both cases [butter] then refuses the band edges
    ([Wn / (fs/2)] is all NaN, or has an entry that is not above 0); the
    two branches below record which check fires.  [1.0 / period] is a
    division of Python floats and raises on zero. *)

Section PeriodDependent.

Variable sos : Type.
Variable sections : nat -> Q -> Q -> sos.
Variable sosfiltfilt : sos -> list Q -> result (list Q).

Definition calculate_period_dependent_duration
           (time accel_g : list Q) (period : Q)
  : outcome (Q * Q * Q * Q * filter_info) :=
  let dt := np.mean (np.diff time) in
  if Qeq_bool period 0 then
    inl (ZeroDivisionError "float division by zero")
  else
    let f_center := 1 / period in
    match dt with
    | None =>
      inl (Raised (ValueError "Wn[0] must be less than Wn[1]"))
    | Some dt =>
      if Qeq_bool dt 0 then
        inl (Raised (ValueError
                       "filter critical frequencies must be greater than 0"))
      else
        let fs := 1 / dt in
        '(sos, filter_info) <~
          stage (design_bandpass_filter_detailed
                   sos sections f_center fs default_bandwidth_factor) ;;
        filtered_accel <~ stage (sosfiltfilt sos accel_g) ;;
        '(filtered_arias, _) <~
          stage (calculate_arias_intensity_detailed time filtered_accel) ;;
        '(duration_5_95, t5, t95, _) <~
          stage (find_5_95_duration_detailed time filtered_arias) ;;
        filtered_total <~ stage (index_last filtered_arias) ;;
        inr (duration_5_95, t5, t95, filtered_total, filter_info)
    end.

(** ** Per-file processing *)

(** A value of the result dictionary. *)
Inductive cell : Type :=
| Text (s : string)
| Number (q : Q).

(** [d[key] = v] on a dictionary kept in insertion order. *)
Fixpoint dict_set (key : string) (v : cell) (d : list (string * cell))
  : list (string * cell) :=
  match d with
  | [] => [(key, v)]
  | (k, w) :: t =>
    if String.eqb k key then (k, v) :: t else (k, w) :: dict_set key v t
  end.

(** [f'{x:.1f}'] on the exact value of [x]. *)
Definition format_1f (x : Q) : string :=
  let tenths := Z.abs (round_half_even (x * 10)) in
  ((if Qlt_le_dec x 0 then "-" else "")
   ++ str (tenths / 10) ++ "." ++ str (tenths mod 10))%string.

Definition periods : list Q := [0.1; 0.2; 0.5; 1.0; 2.0; 3.0].

(** The loop over the periods, started with the dictionary built so far. *)
Fixpoint period_loop (time accel_g : list Q) (todo : list Q)
         (results : list (string * cell)) : outcome (list (string * cell)) :=
  match todo with
  | [] => inr results
  | T :: rest =>
    '(dur, t5_f, t95_f, arias_f, filter_info) <~
      calculate_period_dependent_duration time accel_g T ;;
    let results :=
      dict_set ("duration_5_95_T" ++ format_1f T ++ "s") (Number dur)
               results in
    let results :=
      dict_set ("t5_T" ++ format_1f T ++ "s") (Number t5_f) results in
    let results :=
      dict_set ("t95_T" ++ format_1f T ++ "s") (Number t95_f) results in
    let results :=
      dict_set ("arias_filtered_T" ++ format_1f T) (Number arias_f)
               results in
    period_loop time accel_g rest results
  end.

(** [process_grm_file] after the record is loaded.  Printing is left out,
    but not the exceptions that evaluating a printed expression raises:
    [time[-1]], [np.max(np.abs(accel_g))] and
    [duration_details['percent_in_duration']]. *)
Definition process_record (basename : string) (time accel_g : list Q)
  : outcome (list (string * cell)) :=
  _ <~ stage (index_last time) ;;
  _ <~ stage (np.max (map Qabs accel_g)) ;;
  '(arias_intensity, arias_details) <~
    stage (calculate_arias_intensity_detailed time accel_g) ;;
  '(duration_5_95, t5, t95, duration_details) <~
    stage (find_5_95_duration_detailed time arias_intensity) ;;
  _ <~ match duration_details with
       | None => inl (KeyError "percent_in_duration")
       | Some d => inr (percent_in_duration d)
       end ;;
  let results :=
    [ ("filename", Text basename);
      ("peak_accel_g", Number (max_acceleration_g arias_details));
      ("total_duration_s", Number (duration arias_details));
      ("arias_total_ms", Number (total_arias_intensity arias_details));
      ("duration_5_95_unfiltered_s", Number duration_5_95);
      ("t5_unfiltered_s", Number t5);
      ("t95_unfiltered_s", Number t95) ]%string in
  period_loop time accel_g periods results.

(** The finite samples of a decoded record, when all are finite. *)
Fixpoint finite_samples (a : list float32) : option (list Q) :=
  match a with
  | [] => Some []
  | Finite q :: t => option_map (cons q) (finite_samples t)
  | _ :: _ => None
  end.

(** [process_grm_file] on the bytes of the file and its base name.  The
    stages above compute with finite numbers only, so the answer is [None]
    for a decoded record that holds an infinity or a NaN: such a record is
    outside this model.  Otherwise the answer is what the function raises
    or returns, [None] for the Python value [None]. *)
Definition process_grm_file (basename : string) (file : list byte)
  : option (outcome (option (list (string * cell)))) :=
  match returned (load_binary_grm_file file) with
  | (Some time, Some accel) =>
    match finite_samples accel with
    | Some accel_g =>
      Some (results <~ process_record basename time accel_g ;;
            inr (Some results))
    | None => None
    end
  | _ => Some (inr None)
  end.

End PeriodDependent.

(** ** Auxiliary definitions for the proofs *)

Definition accel_squared (accel_g : list Q) : list Q :=
  map (fun a => a ^ 2) (map (fun a => a * 9.81) accel_g).

(** What a position [r] of the interval search (one past the answer) must
    satisfy. *)
Definition brackets (key : Q) (arr : list Q) (r : Z) : Prop :=
  (1 <= r <= Z.of_nat (length arr))%Z /\ np.get arr (r - 1) <= key /\
  (r = Z.of_nat (length arr) \/ key < np.get arr r).

(** The three answers of the interval search.  No order on [arr] is
    assumed. *)
Inductive search_answer (key : Q) (arr : list Q) (j : Z) : Prop :=
| above : j = Z.of_nat (length arr) ->
          np.get arr (Z.of_nat (length arr) - 1) < key ->
          search_answer key arr j
| below : j = (-1)%Z -> key < np.get arr 0 ->
          key <= np.get arr (Z.of_nat (length arr) - 1) ->
          search_answer key arr j
| inside : (0 <= j < Z.of_nat (length arr))%Z -> np.get arr j <= key ->
           (j = (Z.of_nat (length arr) - 1)%Z \/ key < np.get arr (j + 1)) ->
           key <= np.get arr (Z.of_nat (length arr) - 1) ->
           search_answer key arr j.

(** The value of the interpolant through [(xp[j], fp[j])] and
    [(xp[j+1], fp[j+1])] at [x], as [np.interp] computes it. *)
Definition segment_value (xp fp : list Q) (j : nat) (x : Q) : Q :=
  (nth (S j) fp 0 - nth j fp 0) / (nth (S j) xp 0 - nth j xp 0)
  * (x - nth j xp 0) + nth j fp 0.

(** The three shapes of an answer of [np.interp]. *)
Inductive interp_value (x : Q) (xp fp : list Q) (v : Q) : Prop :=
| left_value :
    x < nth 0 xp 0 -> x <= nth (length xp - 1) xp 0 ->
    v = nth 0 fp 0 -> interp_value x xp fp v
| right_value :
    nth (length xp - 1) xp 0 < x ->
    v = nth (length xp - 1) fp 0 -> interp_value x xp fp v
| last_value :
    nth (length xp - 1) xp 0 <= x -> x <= nth (length xp - 1) xp 0 ->
    v = nth (length xp - 1) fp 0 -> interp_value x xp fp v
| segment (j : nat) :
    (S j < length xp)%nat ->
    nth j xp 0 <= x -> x < nth (S j) xp 0 ->
    x <= nth (length xp - 1) xp 0 ->
    v == segment_value xp fp j x -> interp_value x xp fp v.

(** [a[-1]], with 0 for the empty array. *)
Definition last_sample (a : list Q) : Q := nth (length a - 1) a 0.

(** The normalized curve of the extractor. *)
Definition normalized (arias_intensity : list Q) : list Q :=
  map (fun a => a / last_sample arias_intensity) arias_intensity.

(** Written after the specification: [t] is the time at which the
    piecewise-linear curve through the points [(time[i], curve[i])] crosses
    [level] for the first time.  Samples [j] and [j+1] bracket the
    crossing: every sample up to [j] is at or below the level, every later
    one is above it, and [t] divides the step from [time[j]] to
    [time[j+1]] in the proportion in which [level] divides the step from
    [curve[j]] to [curve[j+1]]. *)
Definition crossing_time (time curve : list Q) (level t : Q) : Prop :=
  exists j,
    (S j < length curve)%nat /\
    (forall i, (i <= j)%nat -> nth i curve 0 <= level) /\
    (forall i, (j < i < length curve)%nat -> level < nth i curve 0) /\
    t == nth j time 0
         + (level - nth j curve 0) / (nth (S j) curve 0 - nth j curve 0)
           * (nth (S j) time 0 - nth j time 0).

(** A 56-byte header whose bytes 40-44 hold the given four bytes. *)
Definition example_header (b0 b1 b2 b3 : byte) : list byte :=
  repeat Byte.x00 40 ++ [b0; b1; b2; b3] ++ repeat Byte.x00 12.

(** ** Single-precision numbers, after IEEE 754

    Written after the standard, not after the decoder.  A finite number
    is [(-1) ^ negative * significand * 2 ^ exponent] with a significand
    below [2 ^ 24] and an exponent from [-149] to [104]; below the normal
    range the exponent is [-149]. *)

Inductive binary32 : Type :=
| Number32 (negative : bool) (significand exponent : Z)
| Infinity32 (negative : bool)
| NaN32.

Definition well_formed (v : binary32) : Prop :=
  match v with
  | Number32 _ m e =>
    (0 <= m < 2 ^ 24)%Z /\ (-149 <= e <= 104)%Z /\
    (e = (-149)%Z \/ 2 ^ 23 <= m)%Z
  | _ => True
  end.

Definition binary32_number (negative : bool) (m e : Z) : Q :=
  let magnitude := inject_Z m * 2 ^ e in
  if negative then - magnitude else magnitude.

(** The interchange format: the sign in bit 31, the exponent plus 127 in
    bits 30-23 (the significand being read as [1.f]), the fraction [f] in
    bits 22-0; exponent field 0 below the normal range, 255 for infinities
    and NaNs. *)
Definition binary32_bits (v : binary32) : Z :=
  let sign (negative : bool) := if negative then (2 ^ 31)%Z else 0%Z in
  match v with
  | Number32 s m e =>
    if (m <? 2 ^ 23)%Z then (sign s + m)%Z
    else (sign s + (e + 23 + 127) * 2 ^ 23 + (m - 2 ^ 23))%Z
  | Infinity32 s => (sign s + 255 * 2 ^ 23)%Z
  | NaN32 => (255 * 2 ^ 23 + 2 ^ 22)%Z
  end.

(** The numbers single precision represents. *)
Definition binary32_value (z : Q) : Prop :=
  exists m e : Z,
    (Z.abs m < 2 ^ 24)%Z /\ (-149 <= e <= 104)%Z /\ z == inject_Z m * 2 ^ e.

(** [y] is the single-precision number nearest to [t]: every other one is
    farther from [t]. *)
Definition nearest_binary32 (t y : Q) : Prop :=
  binary32_value y /\
  forall z, binary32_value z -> ~ z == y -> Qabs (y - t) < Qabs (z - t).

(** [y] is [v / 981.0] in single precision: the number nearest to the
    exact quotient; an infinity and a NaN stay what they are. *)
Definition divided_by_981 (v : binary32) (y : float32) : Prop :=
  match v with
  | Number32 s m e =>
    exists q, y = Finite q /\ nearest_binary32 (binary32_number s m e / 981) q
  | Infinity32 s => y = Infinity s
  | NaN32 => y = NaN
  end.

(** ** A synthetic record

    Written after the specification's round-trip property, not after the
    code: a 56-byte header whose bytes 40-44 encode the sample count,
    followed by component 0 and then component 1 as four-byte floats. *)

Definition byte_of_Z (z : Z) : byte :=
  match Strings.Byte.of_N (Z.to_N (z mod 256)) with
  | Some b => b
  | None => Byte.x00
  end.

(** The [n] low bytes of [z], least significant first. *)
Fixpoint le_bytes (n : nat) (z : Z) : list byte :=
  match n with
  | O => []
  | S k => byte_of_Z z :: le_bytes k (z / 256)
  end.

(** [struct.pack('i', nt)]. *)
Definition pack_i (nt : Z) : list byte := le_bytes 4 (nt mod 2 ^ 32).

(** [struct.pack('f', v)] for a single-precision [v]. *)
Definition pack_f (v : binary32) : list byte := le_bytes 4 (binary32_bits v).

Definition encode_record (before after : list byte) (nt : Z)
           (component0 component1 : list binary32) : list byte :=
  before ++ pack_i nt ++ after
  ++ flat_map pack_f component0 ++ flat_map pack_f component1.

(** What the decoder reads back from the bytes of a single-precision
    value. *)
Definition float32_of_binary32 (v : binary32) : float32 :=
  match v with
  | Number32 s m e => Finite (binary32_number s m e)
  | Infinity32 s => Infinity s
  | NaN32 => NaN
  end.

(** The time base the decoder synthesizes for [nt] samples. *)
Definition sampled_times (nt : nat) : list Q :=
  map (fun i => inject_Z (Z.of_nat i) * 0.01) (seq 0 nt).

(** [d.get(key)] on a dictionary kept in insertion order. *)
Fixpoint dict_get (key : string) (d : list (string * cell)) : option cell :=
  match d with
  | [] => None
  | (k, v) :: t => if String.eqb k key then Some v else dict_get key t
  end.

(** The four entries of one period, under the label that [f'{T:.1f}']
    gives the period. *)
Definition period_cells (label : string)
           (r : Q * Q * Q * Q * filter_info) : list (string * cell) :=
  let '(dur, t5_f, t95_f, arias_f, _) := r in
  [ ("duration_5_95_T" ++ label ++ "s", Number dur);
    ("t5_T" ++ label ++ "s", Number t5_f);
    ("t95_T" ++ label ++ "s", Number t95_f);
    ("arias_filtered_T" ++ label, Number arias_f) ]%string.

(** The columns of a result row, in order. *)
Definition result_columns : list string :=
  [ "filename"; "peak_accel_g"; "total_duration_s"; "arias_total_ms";
    "duration_5_95_unfiltered_s"; "t5_unfiltered_s"; "t95_unfiltered_s";
    "duration_5_95_T0.1s"; "t5_T0.1s"; "t95_T0.1s"; "arias_filtered_T0.1";
    "duration_5_95_T0.2s"; "t5_T0.2s"; "t95_T0.2s"; "arias_filtered_T0.2";
    "duration_5_95_T0.5s"; "t5_T0.5s"; "t95_T0.5s"; "arias_filtered_T0.5";
    "duration_5_95_T1.0s"; "t5_T1.0s"; "t95_T1.0s"; "arias_filtered_T1.0";
    "duration_5_95_T2.0s"; "t5_T2.0s"; "t95_T2.0s"; "arias_filtered_T2.0";
    "duration_5_95_T3.0s"; "t5_T3.0s"; "t95_T3.0s"; "arias_filtered_T3.0"
  ]%string.

(** ** Samples in the working range of single precision

    The integrator squares the samples, in m/s^2, in the precision of the
    array it is given, which is single precision for a decoded record.  A
    sample in g that is zero, or of a magnitude from [1e-15] to [1e15], has
    a square that single precision holds as a normal number: it does not
    vanish and it does not overflow.  Properties that turn on a sum of
    squares being zero are stated for such samples. *)
Definition ordinary_sample (a : Q) : Prop :=
  a == 0 \/
  (1 # 1000000000000000 <= Qabs a /\ Qabs a <= 1000000000000000).

(** [accel_g * g] on a sample of a single-precision array and the Python
    float [g = 9.81]: [g] is converted to single precision and the product
    is rounded to single precision. *)
Definition accel_ms2_float32 (a : Q) : float32 :=
  match binary32_round 9.81 with
  | Finite g => binary32_round (a * g)
  | Infinity s => Infinity s
  | NaN => NaN
  end.

(** [accel_ms2 ** 2] in single precision. *)
Definition accel_squared_float32 (a : Q) : float32 :=
  match accel_ms2_float32 a with
  | Finite x => binary32_round (x ^ 2)
  | Infinity _ => Infinity false
  | NaN => NaN
  end.

(** * Properties *)

Ltac lower_bound := left; split; [lia | assumption].

(** ** Lists *)

Lemma Qlt_bool_iff (a b : Q) : Qlt_bool a b = true <-> a < b.
Proof.
  unfold Qlt_bool. rewrite negb_true_iff.
  split; intro H.
  - apply Qnot_le_lt. intro Hle. apply Qle_bool_iff in Hle. congruence.
  - apply not_true_is_false. intro Hle. apply Qle_bool_iff in Hle.
    apply (Qlt_not_le _ _ H Hle).
Qed.

Lemma adjacent_nth (R : Q -> Q -> bool) (l : list Q) :
  adjacent R l = true ->
  forall i, (S i < length l)%nat -> R (nth i l 0) (nth (S i) l 0) = true.
Proof.
  induction l as [|a [|b t] IH]; simpl; intros H i Hi; try lia.
  apply andb_prop in H. destruct H as [Hab Ht].
  destruct i as [|i]; [exact Hab|].
  apply (IH Ht i). simpl. lia.
Qed.

Lemma non_decreasing_nth (l : list Q) :
  non_decreasing l ->
  forall i j, (i <= j < length l)%nat -> nth i l 0 <= nth j l 0.
Proof.
  intros H i j [Hij Hj].
  induction Hij as [|j Hij IH].
  - apply Qle_refl.
  - apply Qle_trans with (nth j l 0).
    + apply IH. lia.
    + apply Qle_bool_iff. apply (adjacent_nth _ _ H). exact Hj.
Qed.

Lemma strictly_increasing_nth (l : list Q) :
  strictly_increasing l ->
  forall i, (S i < length l)%nat -> nth i l 0 < nth (S i) l 0.
Proof.
  intros H i Hi. apply Qlt_bool_iff. apply (adjacent_nth _ _ H). exact Hi.
Qed.

Lemma length_diff (a : list Q) : length (np.diff a) = (length a - 1)%nat.
Proof.
  induction a as [|x0 [|x1 t] IH]; simpl in *; try reflexivity.
  rewrite IH. lia.
Qed.

Lemma nth_diff (a : list Q) (i : nat) :
  (S i < length a)%nat ->
  nth i (np.diff a) 0 = nth (S i) a 0 - nth i a 0.
Proof.
  revert i. induction a as [|x0 [|x1 t] IH]; simpl; intros i Hi; try lia.
  destruct i as [|i]; [reflexivity|].
  apply IH. simpl. lia.
Qed.

Lemma length_map2 {A B C : Type} (f : A -> B -> C) (l : list A) (l' : list B) :
  length (map2 f l l') = Nat.min (length l) (length l').
Proof.
  revert l'. induction l as [|a t IH]; intros [|b t']; simpl; auto.
Qed.

Lemma nth_map2 {A B C : Type} (f : A -> B -> C) (l : list A) (l' : list B)
      (i : nat) (da : A) (db : B) (dc : C) :
  (i < length l)%nat -> (i < length l')%nat ->
  nth i (map2 f l l') dc = f (nth i l da) (nth i l' db).
Proof.
  revert l' i. induction l as [|a t IH]; intros [|b t'] i; simpl; try lia.
  destruct i as [|i]; intros Hl Hl'; [reflexivity|].
  apply IH; lia.
Qed.

Lemma nth_tl {A : Type} (l : list A) (i : nat) (d : A) :
  nth i (tl l) d = nth (S i) l d.
Proof. destruct l; [destruct i|]; reflexivity. Qed.

Lemma length_removelast {A : Type} (l : list A) :
  length (removelast l) = (length l - 1)%nat.
Proof.
  induction l as [|a [|b t] IH]; simpl in *; try reflexivity.
  rewrite IH. lia.
Qed.

Lemma nth_removelast {A : Type} (l : list A) (i : nat) (d : A) :
  (S i < length l)%nat -> nth i (removelast l) d = nth i l d.
Proof.
  revert i. induction l as [|a [|b t] IH]; simpl; intros i Hi; try lia.
  destruct i as [|i]; [reflexivity|].
  apply IH. simpl. lia.
Qed.

Lemma length_cumsum_from (a : list Q) (acc : Q) :
  length (np.cumsum_from acc a) = length a.
Proof.
  revert acc. induction a as [|x t IH]; intro acc; simpl; [|rewrite IH];
    reflexivity.
Qed.

Lemma length_cumsum (a : list Q) : length (np.cumsum a) = length a.
Proof. destruct a; simpl; [|rewrite length_cumsum_from]; reflexivity. Qed.

Lemma nth_cumsum_from (a : list Q) (acc : Q) (i : nat) :
  (S i < length a)%nat ->
  nth (S i) (np.cumsum_from acc a) 0
  = nth i (np.cumsum_from acc a) 0 + nth (S i) a 0.
Proof.
  revert acc i. induction a as [|x [|y t] IH]; simpl; intros acc i Hi; try lia.
  destruct i as [|i]; [reflexivity|].
  apply (IH (acc + x) i). simpl. lia.
Qed.

Lemma nth_cumsum (a : list Q) (i : nat) :
  (S i < length a)%nat ->
  nth (S i) (np.cumsum a) 0 = nth i (np.cumsum a) 0 + nth (S i) a 0.
Proof.
  destruct a as [|x [|y t]]; simpl; intro Hi; try lia.
  destruct i as [|i]; [reflexivity|].
  apply (nth_cumsum_from (y :: t) x i). simpl. lia.
Qed.

Lemma nth_cumsum_0 (a : list Q) : nth 0 (np.cumsum a) 0 = nth 0 a 0.
Proof. destruct a; reflexivity. Qed.

Lemma nth_map_lt {A B : Type} (f : A -> B) (l : list A) (i : nat)
      (d : B) (d' : A) :
  (i < length l)%nat -> nth i (map f l) d = f (nth i l d').
Proof.
  intro Hi. rewrite (nth_indep _ d (f d')) by (rewrite length_map; exact Hi).
  apply map_nth.
Qed.

(** ** Energy integrator *)

Lemma length_trapezoid_terms (y x : list Q) :
  length x = length y -> length (trapezoid_terms y x) = (length y - 1)%nat.
Proof.
  intro Hlen. unfold trapezoid_terms.
  rewrite length_map, !length_map2, length_diff, length_removelast.
  destruct y; simpl in *; lia.
Qed.

Lemma nth_trapezoid_terms (y x : list Q) (i : nat) :
  length x = length y -> (S i < length y)%nat ->
  nth i (trapezoid_terms y x) 0
  = (nth (S i) x 0 - nth i x 0) * (nth (S i) y 0 + nth i y 0) / 2.
Proof.
  intros Hlen Hi. unfold trapezoid_terms.
  assert (Htl : length (tl y) = (length y - 1)%nat) by (destruct y; simpl; lia).
  rewrite (nth_map_lt _ _ _ _ 0).
  2:{ rewrite !length_map2, length_diff, length_removelast, Htl. lia. }
  rewrite (nth_map2 _ _ _ _ 0 0).
  2:{ rewrite length_diff. lia. }
  2:{ rewrite length_map2, length_removelast, Htl. lia. }
  rewrite (nth_map2 _ _ _ _ 0 0).
  2:{ lia. }
  2:{ rewrite length_removelast. lia. }
  rewrite nth_diff by lia.
  rewrite nth_tl, nth_removelast by lia.
  reflexivity.
Qed.

Lemma cumulative_trapezoid_steps (y x : list Q) :
  length x = length y -> (0 < length y)%nat ->
  exists c,
    scipy.cumulative_trapezoid y x = inr c /\
    length c = length y /\
    nth 0 c 0 = 0 /\
    forall i, (S i < length y)%nat ->
      nth (S i) c 0
      == nth i c 0
         + (nth (S i) x 0 - nth i x 0) * (nth (S i) y 0 + nth i y 0) / 2.
Proof.
  intros Hlen Hpos.
  exists (0 :: np.cumsum (trapezoid_terms y x)).
  split; [|split; [|split]].
  - unfold scipy.cumulative_trapezoid.
    destruct y as [|y0 t]; [simpl in Hpos; lia|].
    rewrite length_diff, Hlen, Nat.eqb_refl. reflexivity.
  - simpl. rewrite length_cumsum, length_trapezoid_terms by exact Hlen. lia.
  - reflexivity.
  - intros i Hi.
    rewrite <- (nth_trapezoid_terms y x i Hlen Hi).
    destruct i as [|i].
    + simpl nth at 1 2. rewrite nth_cumsum_0. ring.
    + change (nth (S (S i)) (0 :: np.cumsum (trapezoid_terms y x)) 0)
        with (nth (S i) (np.cumsum (trapezoid_terms y x)) 0).
      change (nth (S i) (0 :: np.cumsum (trapezoid_terms y x)) 0)
        with (nth i (np.cumsum (trapezoid_terms y x)) 0).
      rewrite nth_cumsum.
      * reflexivity.
      * rewrite length_trapezoid_terms by exact Hlen. lia.
Qed.

Lemma nth_accel_squared (accel_g : list Q) (i : nat) :
  nth i (accel_squared accel_g) 0 == (nth i accel_g 0 * 9.81) ^ 2.
Proof.
  unfold accel_squared.
  destruct (Nat.lt_ge_cases i (length accel_g)) as [Hi|Hi].
  - rewrite (nth_map_lt _ _ _ _ 0) by (rewrite length_map; exact Hi).
    rewrite (nth_map_lt _ _ _ _ 0) by exact Hi.
    reflexivity.
  - rewrite !nth_overflow by (rewrite ?length_map; exact Hi).
    reflexivity.
Qed.

Lemma accel_squared_nonneg (accel_g : list Q) (i : nat) :
  0 <= nth i (accel_squared accel_g) 0.
Proof.
  rewrite nth_accel_squared. simpl. nra.
Qed.

(** On arrays of equal positive length the integrator returns, and its
    curve is the scaled cumulative integral. *)
Lemma calculate_arias_intensity_returns (time accel_g : list Q) :
  length time = length accel_g -> (0 < length time)%nat ->
  exists c details,
    scipy.cumulative_trapezoid (accel_squared accel_g) time = inr c /\
    calculate_arias_intensity_detailed time accel_g
    = inr (map (fun v => np.pi / (2 * 9.81) * v) c, details).
Proof.
  intros Hlen Hpos.
  assert (Hlen' : length time = length (accel_squared accel_g))
    by (unfold accel_squared; rewrite !length_map; exact Hlen).
  destruct (cumulative_trapezoid_steps (accel_squared accel_g) time)
    as (c & Hc & Hclen & _); [exact Hlen' | lia |].
  exists c.
  unfold calculate_arias_intensity_detailed.
  fold (accel_squared accel_g). rewrite Hc.
  destruct accel_g as [|a0 accel_t]; [simpl in *; lia|].
  destruct time as [|t0 time_t]; [simpl in *; lia|].
  destruct c as [|c0 c_t]; [simpl in *; lia|].
  simpl. eexists. split; reflexivity.
Qed.

Lemma nth_scaled (k : Q) (c : list Q) (i : nat) :
  nth i (map (fun v => k * v) c) 0 == k * nth i c 0.
Proof.
  destruct (Nat.lt_ge_cases i (length c)) as [Hi|Hi].
  - rewrite (nth_map_lt _ _ _ _ 0) by exact Hi. reflexivity.
  - rewrite !nth_overflow by (rewrite ?length_map; exact Hi). ring.
Qed.

(** The curve of the integrator, sample by sample. *)
Lemma calculate_arias_intensity_steps (time accel_g : list Q) :
  length time = length accel_g -> (0 < length time)%nat ->
  exists c details,
    calculate_arias_intensity_detailed time accel_g
    = inr (map (fun v => np.pi / (2 * 9.81) * v) c, details) /\
    length c = length time /\
    nth 0 c 0 = 0 /\
    forall i, (S i < length time)%nat ->
      nth (S i) c 0
      == nth i c 0
         + (nth (S i) time 0 - nth i time 0)
           * ((nth (S i) accel_g 0 * 9.81) ^ 2 + (nth i accel_g 0 * 9.81) ^ 2)
           / 2.
Proof.
  intros Hlen Hpos.
  assert (Hlen' : length time = length (accel_squared accel_g))
    by (unfold accel_squared; rewrite !length_map; exact Hlen).
  destruct (calculate_arias_intensity_returns time accel_g Hlen Hpos)
    as (c & details & Hc & Hcalc).
  destruct (cumulative_trapezoid_steps (accel_squared accel_g) time)
    as (c' & Hc' & Hclen & Hc0 & Hstep); [exact Hlen' | lia |].
  rewrite Hc in Hc'. injection Hc' as <-.
  exists c, details. repeat split; try assumption.
  - lia.
  - intros i Hi. rewrite Hstep by lia.
    rewrite !nth_accel_squared. reflexivity.
Qed.

(** C1.  On a time array and an acceleration array (in g) of equal positive
    length the energy integrator returns a curve of the same length, and each
    of its samples equals the reference Arias intensity: acceleration
    converted to m/s^2 by the factor 9.81 and squared, integrated
    cumulatively by the trapezoidal rule from 0 at [time[0]], and scaled by
    [pi / (2 * 9.81)]. *)
Theorem arias_intensity_matches_reference (time accel_g : list Q) :
  length time = length accel_g -> (0 < length time)%nat ->
  exists arias details,
    calculate_arias_intensity_detailed time accel_g = inr (arias, details) /\
    length arias = length time /\
    forall i, (i < length time)%nat ->
      nth i arias 0 == reference_arias time accel_g i.
Proof.
  intros Hlen Hpos.
  destruct (calculate_arias_intensity_steps time accel_g Hlen Hpos)
    as (c & details & Hcalc & Hclen & Hc0 & Hstep).
  exists (map (fun v => np.pi / (2 * 9.81) * v) c), details.
  split; [exact Hcalc|]. split; [rewrite length_map; exact Hclen|].
  intros i Hi. rewrite nth_scaled. unfold reference_arias.
  apply Qmult_comp; [reflexivity|].
  induction i as [|i IH].
  - rewrite Hc0. reflexivity.
  - rewrite Hstep by exact Hi. rewrite IH by lia.
    simpl reference_trapezoid. unfold reference_integrand. field.
Qed.

(** The theorem at a three-sample record. *)
Lemma arias_intensity_matches_reference_witness :
  exists arias details,
    calculate_arias_intensity_detailed [0; 0.01; 0.02] [0; 1; 0.5]
    = inr (arias, details) /\
    length arias = 3%nat /\
    forall i, (i < 3)%nat ->
      nth i arias 0 == reference_arias [0; 0.01; 0.02] [0; 1; 0.5] i.
Proof.
  apply (arias_intensity_matches_reference [0; 0.01; 0.02] [0; 1; 0.5]).
  - reflexivity.
  - simpl. lia.
Defined.

(** C2.  For a valid record (equal positive lengths, strictly increasing
    time, any acceleration) the cumulative energy curve of the integrator
    starts at 0 and never decreases. *)
Theorem cumulative_energy_monotone (time accel_g : list Q) :
  length time = length accel_g -> (0 < length time)%nat ->
  strictly_increasing time ->
  exists arias details,
    calculate_arias_intensity_detailed time accel_g = inr (arias, details) /\
    length arias = length time /\
    nth 0 arias 0 == 0 /\
    forall i j, (i <= j < length arias)%nat -> nth i arias 0 <= nth j arias 0.
Proof.
  intros Hlen Hpos Hinc.
  destruct (calculate_arias_intensity_steps time accel_g Hlen Hpos)
    as (c & details & Hcalc & Hclen & Hc0 & Hstep).
  exists (map (fun v => np.pi / (2 * 9.81) * v) c), details.
  split; [exact Hcalc|]. split; [rewrite length_map; exact Hclen|].
  split.
  - rewrite nth_scaled, Hc0. ring.
  - rewrite length_map, Hclen. intros i j [Hij Hj].
    rewrite !nth_scaled.
    apply Qmult_le_l; [reflexivity|].
    induction Hij as [|j Hij IH]; [apply Qle_refl|].
    apply Qle_trans with (nth j c 0); [apply IH; lia|].
    rewrite Hstep by exact Hj.
    pose proof (strictly_increasing_nth time Hinc j Hj) as Hdt.
    set (t1 := nth (S j) time 0) in *. set (t0 := nth j time 0) in *.
    set (a1 := nth (S j) accel_g 0 * 9.81). set (a0 := nth j accel_g 0 * 9.81).
    assert (H1 : 0 <= a1 ^ 2) by (simpl; nra).
    assert (H0 : 0 <= a0 ^ 2) by (simpl; nra).
    assert (Hprod : 0 <= (t1 - t0) * (a1 ^ 2 + a0 ^ 2)).
    { apply Qmult_le_0_compat; lra. }
    assert (Hhalf : (t1 - t0) * (a1 ^ 2 + a0 ^ 2) / 2
                    == (t1 - t0) * (a1 ^ 2 + a0 ^ 2) * (1 # 2)) by field.
    rewrite Hhalf. lra.
Qed.

(** The theorem at a three-sample record. *)
Lemma cumulative_energy_monotone_witness :
  exists arias details,
    calculate_arias_intensity_detailed [0; 0.01; 0.02] [0.3; -1; 0.5]
    = inr (arias, details) /\
    length arias = 3%nat /\
    nth 0 arias 0 == 0 /\
    forall i j, (i <= j < length arias)%nat -> nth i arias 0 <= nth j arias 0.
Proof.
  apply (cumulative_energy_monotone [0; 0.01; 0.02] [0.3; -1; 0.5]).
  - reflexivity.
  - simpl. lia.
  - reflexivity.
Defined.

(** ** Interval search and interpolation *)

Section IntervalSearch.

Variable key : Q.
Variable arr : list Q.

Let len : Z := Z.of_nat (length arr).

Lemma shiftr_1_half (d : Z) : (0 < d)%Z -> (0 <= Z.shiftr d 1 < d)%Z.
Proof.
  intro Hd. rewrite Z.shiftr_div_pow2 by lia.
  change (2 ^ 1)%Z with 2%Z.
  split; [apply Z.div_pos; lia | apply Z.div_lt; lia].
Qed.

Lemma bisect_brackets (fuel : nat) (imin imax : Z) :
  (0 <= imin <= imax)%Z -> (imax <= len)%Z ->
  (imax - imin < Z.of_nat fuel)%Z ->
  ((imin < imax)%Z /\ np.get arr imin <= key) \/
  ((1 <= imin)%Z /\ np.get arr (imin - 1) <= key) ->
  imax = len \/ key < np.get arr imax ->
  brackets key arr (np.bisect key arr fuel imin imax).
Proof.
  revert imin imax.
  induction fuel as [|fuel IH]; intros imin imax Hrange Hmax Hfuel Hlow Hup.
  - lia.
  - simpl. destruct (Z.ltb_spec imin imax) as [Hlt|Hge].
    + pose proof (shiftr_1_half (imax - imin) ltac:(lia)) as Hhalf.
      set (imid := (imin + Z.shiftr (imax - imin) 1)%Z) in *.
      destruct (Qlt_le_dec key (np.get arr imid)) as [Hk|Hk].
      * apply IH; try lia.
        -- destruct Hlow as [[_ Ha]|Hb]; [left|right; exact Hb].
           split; [|exact Ha].
           assert (imid <> imin) as Hne.
           { intro Heq. rewrite Heq in Hk. lra. }
           subst imid. lia.
        -- right. exact Hk.
      * apply IH; try lia.
        -- right. split; [subst imid; lia|].
           replace (imid + 1 - 1)%Z with imid by lia. exact Hk.
        -- exact Hup.
    + assert (imin = imax) by lia. subst imax.
      destruct Hlow as [[Hlt _]|[H1 Hb]]; [lia|].
      unfold brackets. split; [lia|]. split; [exact Hb|exact Hup].
Qed.

Lemma linear_search_brackets (fuel : nat) (i : Z) :
  (1 <= i <= len)%Z -> (len - i < Z.of_nat fuel)%Z ->
  np.get arr (i - 1) <= key ->
  brackets key arr (np.linear_search key arr len fuel i).
Proof.
  revert i. induction fuel as [|fuel IH]; intros i Hi Hfuel Hlow.
  - lia.
  - simpl. destruct (Z.ltb_spec i len) as [Hlt|Hge].
    + destruct (Qlt_le_dec key (np.get arr i)) as [Hk|Hk].
      * unfold brackets. split; [lia|]. split; [exact Hlow|right; exact Hk].
      * apply IH; try lia.
        replace (i + 1 - 1)%Z with i by lia. exact Hk.
    + assert (i = len) by lia. subst i.
      unfold brackets. split; [lia|]. split; [exact Hlow|left; reflexivity].
Qed.

Lemma brackets_inside (r : Z) :
  key <= np.get arr (len - 1) -> brackets key arr r ->
  search_answer key arr (r - 1).
Proof.
  intros Hlast (Hr & Hlow & Hup). apply inside; try lia; try assumption.
  destruct Hup as [->|Hup]; [left; reflexivity|right].
  replace (r - 1 + 1)%Z with r by lia. exact Hup.
Qed.

Lemma binary_search_with_guess_answer (guess : Z) :
  (1 <= len)%Z ->
  search_answer key arr (np.binary_search_with_guess key arr guess).
Proof.
  intro Hlen. unfold np.binary_search_with_guess. fold len.
  destruct (Qlt_le_dec (np.get arr (len - 1)) key) as [Hlast|Hlast];
    [apply above; [reflexivity|exact Hlast]|].
  destruct (Qlt_le_dec key (np.get arr 0)) as [Hfirst|Hfirst];
    [apply below; [reflexivity|assumption|assumption]|].
  destruct (Z.leb_spec len 4) as [Hshort|Hlong].
  { apply (brackets_inside _ Hlast).
    apply linear_search_brackets; try (unfold len; lia).
    exact Hfirst. }
  set (g1 := if (guess >? len - 3)%Z then (len - 3)%Z else guess).
  set (g := if (g1 <? 1)%Z then 1%Z else g1).
  assert (Hg : (1 <= g <= len - 3)%Z).
  { subst g g1. destruct (Z.gtb_spec guess (len - 3));
      destruct (Z.ltb_spec guess 1); destruct (Z.ltb_spec (len - 3) 1);
      lia. }
  clearbody g. clear g1. unfold np.LIKELY_IN_CACHE_SIZE.
  assert (Hfuel : forall imin imax, (0 <= imin <= imax)%Z ->
             (imax <= len)%Z ->
             (imax - imin < Z.of_nat (S (length arr)))%Z)
    by (intros; unfold len in *; lia).
  destruct (Qlt_le_dec key (np.get arr g)) as [Hg0|Hg0].
  - destruct (Qlt_le_dec key (np.get arr (g - 1))) as [Hgm|Hgm].
    + assert (g - 1 <> 0)%Z as Hne.
      { intro Heq. rewrite Heq in Hgm. lra. }
      destruct (Z.gtb_spec g 8) as [Hfar|Hnear].
      * destruct (Qlt_le_dec key (np.get arr (g - 8))) as [Hc|Hc];
          apply (brackets_inside _ Hlast); apply bisect_brackets;
            try apply Hfuel; try lia; auto; lower_bound.
      * apply (brackets_inside _ Hlast); apply bisect_brackets;
          try apply Hfuel; try lia; auto; lower_bound.
    + apply inside; try lia; try assumption.
      right. replace (g - 1 + 1)%Z with g by lia. exact Hg0.
  - destruct (Qlt_le_dec key (np.get arr (g + 1))) as [Hg1|Hg1];
      [apply inside; try lia; auto|].
    destruct (Qlt_le_dec key (np.get arr (g + 2))) as [Hg2|Hg2].
    { apply inside; try lia; auto.
      right. replace (g + 1 + 1)%Z with (g + 2)%Z by lia. exact Hg2. }
    destruct (Z.ltb_spec g (len - 8 - 1)) as [Hfar|Hnear].
    + destruct (Qlt_le_dec key (np.get arr (g + 8))) as [Hc|Hc];
        apply (brackets_inside _ Hlast); apply bisect_brackets;
          try apply Hfuel; try lia; auto; lower_bound.
    + apply (brackets_inside _ Hlast); apply bisect_brackets;
        try apply Hfuel; try lia; auto; lower_bound.
Qed.

End IntervalSearch.

Lemma get_of_nat (arr : list Q) (j : nat) :
  np.get arr (Z.of_nat j) = nth j arr 0.
Proof. unfold np.get. rewrite Nat2Z.id. reflexivity. Qed.

Lemma get_nat (arr : list Q) (j : Z) :
  (0 <= j)%Z -> np.get arr j = nth (Z.to_nat j) arr 0.
Proof. reflexivity. Qed.

Lemma interp_shape (x : Q) (xp fp : list Q) :
  length fp = length xp -> (0 < length xp)%nat ->
  exists v, np.interp x xp fp = inr v /\ interp_value x xp fp v.
Proof.
  intros Hlen Hpos. unfold np.interp.
  destruct (Z.eqb_spec (Z.of_nat (length xp)) 0) as [H0|_]; [lia|].
  rewrite Hlen, Nat.eqb_refl. simpl negb. cbv iota.
  assert (Hlast : forall a : list Q,
             np.get a (Z.of_nat (length xp) - 1) = nth (length xp - 1) a 0).
  { intro a. unfold np.get. f_equal. lia. }
  destruct (Z.eqb_spec (Z.of_nat (length xp)) 1) as [H1|Hmany].
  - assert (Hone : (length xp - 1 = 0)%nat) by lia.
    change (np.get xp 0) with (nth 0 xp 0). change (np.get fp 0) with (nth 0 fp 0).
    rewrite Hlast, Hone.
    destruct (Qlt_le_dec x (nth 0 xp 0)) as [Hl|Hl].
    + eexists. split; [reflexivity|].
      apply left_value; rewrite ?Hone; auto. lra.
    + destruct (Qlt_le_dec (nth 0 xp 0) x) as [Hr|Hr]; eexists;
        (split; [reflexivity|]).
      * apply right_value; rewrite ?Hone; auto.
      * apply last_value; rewrite ?Hone; auto.
  - pose proof (binary_search_with_guess_answer x xp 0 ltac:(lia)) as Hans.
    set (j := np.binary_search_with_guess x xp 0) in *.
    destruct Hans as [Hj Habove | Hj Hbelow Hle | Hj Hlow Hup Hle].
    + destruct (Z.eqb_spec j (-1)) as [Hm|_]; [lia|].
      destruct (Z.eqb_spec j (Z.of_nat (length xp))) as [_|Hn]; [|lia].
      eexists. split; [reflexivity|].
      apply right_value; [rewrite <- Hlast; exact Habove|apply Hlast].
    + destruct (Z.eqb_spec j (-1)) as [_|Hm]; [|lia].
      eexists. split; [reflexivity|].
      apply left_value; [exact Hbelow|rewrite <- Hlast; exact Hle|reflexivity].
    + destruct (Z.eqb_spec j (-1)) as [Hm|_]; [lia|].
      destruct (Z.eqb_spec j (Z.of_nat (length xp))) as [Hn|_]; [lia|].
      destruct (Z.eqb_spec j (Z.of_nat (length xp) - 1)) as [Hl|Hl].
      * eexists. split; [reflexivity|].
        apply last_value.
        -- rewrite <- Hlast, <- Hl. exact Hlow.
        -- rewrite <- Hlast. exact Hle.
        -- rewrite Hl. apply Hlast.
      * destruct Hup as [Hup|Hup]; [lia|].
        assert (Hnext : forall a : list Q,
                   np.get a (j + 1) = nth (S (Z.to_nat j)) a 0).
        { intro a. unfold np.get. f_equal. lia. }
        rewrite !Hnext in *. rewrite Hlast in Hle.
        unfold np.get. unfold np.get in Hlow.
        destruct (Qeq_bool (nth (Z.to_nat j) xp 0) x) eqn:Heq;
          eexists; (split; [reflexivity|]);
            apply (segment _ _ _ _ (Z.to_nat j)); try lia; try assumption.
        -- apply Qeq_bool_iff in Heq. unfold segment_value.
           rewrite Heq. field. lra.
        -- reflexivity.
Qed.

Section Interpolant.

Variables xp fp : list Q.
Hypothesis same_length : length fp = length xp.
Hypothesis xp_sorted : non_decreasing xp.
Hypothesis fp_sorted : non_decreasing fp.

Lemma slope_facts (j : nat) :
  (S j < length xp)%nat -> nth j xp 0 < nth (S j) xp 0 ->
  let s := (nth (S j) fp 0 - nth j fp 0) / (nth (S j) xp 0 - nth j xp 0) in
  0 <= s /\ s * (nth (S j) xp 0 - nth j xp 0) == nth (S j) fp 0 - nth j fp 0.
Proof.
  intros Hj Hx s.
  assert (Hf : nth j fp 0 <= nth (S j) fp 0)
    by (apply non_decreasing_nth; [exact fp_sorted|lia]).
  split.
  - apply Qle_shift_div_l; lra.
  - subst s. field. lra.
Qed.

Lemma segment_value_bounds (j : nat) (x : Q) :
  (S j < length xp)%nat -> nth j xp 0 <= x -> x < nth (S j) xp 0 ->
  nth j fp 0 <= segment_value xp fp j x <= nth (S j) fp 0.
Proof.
  intros Hj Hlo Hhi.
  destruct (slope_facts j Hj ltac:(lra)) as [Hs Hsd].
  unfold segment_value.
  set (s := (nth (S j) fp 0 - nth j fp 0) / (nth (S j) xp 0 - nth j xp 0))
    in *.
  split; nra.
Qed.

Lemma segment_value_mono (j : nat) (x x' : Q) :
  (S j < length xp)%nat -> nth j xp 0 < nth (S j) xp 0 -> x <= x' ->
  segment_value xp fp j x <= segment_value xp fp j x'.
Proof.
  intros Hj Hx Hxx.
  destruct (slope_facts j Hj Hx) as [Hs _].
  unfold segment_value.
  set (s := (nth (S j) fp 0 - nth j fp 0) / (nth (S j) xp 0 - nth j xp 0))
    in *.
  nra.
Qed.

(** An interpolated value lies between the first and the last ordinate. *)
Lemma interp_value_bounds (x v : Q) :
  (0 < length xp)%nat -> interp_value x xp fp v ->
  nth 0 fp 0 <= v <= nth (length xp - 1) fp 0.
Proof.
  intros Hpos Hv.
  assert (Hends : nth 0 fp 0 <= nth (length xp - 1) fp 0)
    by (apply non_decreasing_nth; [exact fp_sorted|lia]).
  destruct Hv as [_ _ -> | _ -> | _ _ -> | j Hj Hlo Hhi _ Hv];
    try (split; [exact Hends || apply Qle_refl | exact Hends || apply Qle_refl]).
  rewrite Hv.
  pose proof (segment_value_bounds j x Hj Hlo Hhi) as [H1 H2].
  assert (nth 0 fp 0 <= nth j fp 0)
    by (apply non_decreasing_nth; [exact fp_sorted|lia]).
  assert (nth (S j) fp 0 <= nth (length xp - 1) fp 0)
    by (apply non_decreasing_nth; [exact fp_sorted|lia]).
  split; lra.
Qed.

(** Between sorted abscissas and sorted ordinates [np.interp] is monotone
    in the point of evaluation. *)
Lemma interp_value_mono (x x' v v' : Q) :
  (0 < length xp)%nat -> x <= x' ->
  interp_value x xp fp v -> interp_value x' xp fp v' -> v <= v'.
Proof.
  intros Hpos Hxx Hv Hv'.
  pose proof (interp_value_bounds x v Hpos Hv) as [Hv0 Hv1].
  pose proof (interp_value_bounds x' v' Hpos Hv') as [Hv0' Hv1'].
  assert (Hxp : forall i j, (i <= j < length xp)%nat ->
                            nth i xp 0 <= nth j xp 0)
    by (apply non_decreasing_nth; exact xp_sorted).
  assert (Hfp : forall i j, (i <= j < length fp)%nat ->
                            nth i fp 0 <= nth j fp 0)
    by (apply non_decreasing_nth; exact fp_sorted).
  pose proof (Hxp 0%nat (length xp - 1)%nat ltac:(lia)) as Hspan.
  destruct Hv' as [Hl' _ -> | Hr' -> | Hl' Hr' -> | j' Hj' Hlo' Hhi' Hle' Hv'].
  - (* x' left of the samples: so is x *)
    destruct Hv as [_ _ -> | Hr _ | Hl _ _ | j Hj Hlo _ _ _];
      try apply Qle_refl; try lra.
    pose proof (Hxp 0%nat j ltac:(lia)). lra.
  - exact Hv1.
  - exact Hv1.
  - destruct Hv as [Hl _ -> | Hr _ | Hl Hr _ | j Hj Hlo Hhi Hle Hv].
    + exact Hv0'.
    + lra.
    + pose proof (Hxp (S j') (length xp - 1)%nat ltac:(lia)). lra.
    + rewrite Hv, Hv'.
      destruct (Nat.lt_trichotomy j j') as [Hlt|[Heq|Hgt]].
      * pose proof (segment_value_bounds j x Hj Hlo Hhi) as [_ H1].
        pose proof (segment_value_bounds j' x' Hj' Hlo' Hhi') as [H2 _].
        pose proof (Hfp (S j) j' ltac:(lia)). lra.
      * subst j'. apply segment_value_mono; [exact Hj|lra|exact Hxx].
      * pose proof (Hxp (S j') j ltac:(lia)). lra.
Qed.

End Interpolant.

(** ** Duration extractor *)

Lemma last_cons (t : list Q) (y x : Q) : last (y :: t) x = last t y.
Proof.
  revert x y. induction t as [|z t IH]; intros x y; [reflexivity|].
  change (last (y :: z :: t) x) with (last (z :: t) x).
  rewrite (IH x z), (IH y z). reflexivity.
Qed.

Lemma last_nth (t : list Q) (x : Q) : last t x = nth (length t) (x :: t) 0.
Proof.
  revert x. induction t as [|y t IH]; intro x; [reflexivity|].
  rewrite last_cons. apply IH.
Qed.

Lemma index_last_sample (a : list Q) :
  a <> [] -> index_last a = inr (last_sample a).
Proof.
  destruct a as [|x t]; [congruence|]. intros _.
  unfold index_last, ret, last_sample. rewrite last_nth.
  do 2 f_equal. simpl. lia.
Qed.

Lemma nth_normalized (arias : list Q) (i : nat) :
  nth i (normalized arias) 0 == nth i arias 0 / last_sample arias.
Proof.
  unfold normalized.
  destruct (Nat.lt_ge_cases i (length arias)) as [Hi|Hi].
  - rewrite (nth_map_lt _ _ _ _ 0) by exact Hi. reflexivity.
  - rewrite !nth_overflow by (rewrite ?length_map; exact Hi).
    unfold Qdiv. ring.
Qed.

Lemma length_normalized (arias : list Q) :
  length (normalized arias) = length arias.
Proof. apply length_map. Qed.

Lemma normalized_last (arias : list Q) :
  ~ last_sample arias == 0 ->
  nth (length arias - 1) (normalized arias) 0 == 1.
Proof.
  intro Hne. rewrite nth_normalized. fold (last_sample arias).
  field. exact Hne.
Qed.

Lemma adjacent_map_div (k : Q) (l : list Q) :
  0 < k -> adjacent Qle_bool l = true ->
  adjacent Qle_bool (map (fun a => a / k) l) = true.
Proof.
  intro Hk. induction l as [|a [|b t] IH]; simpl; intro H; try reflexivity.
  apply andb_prop in H. destruct H as [Hab Ht].
  apply andb_true_intro. split; [|apply IH; exact Ht].
  apply Qle_bool_iff. apply Qle_bool_iff in Hab.
  unfold Qdiv. apply Qmult_le_compat_r; [exact Hab|].
  apply Qlt_le_weak, Qinv_lt_0_compat. exact Hk.
Qed.

Lemma normalized_non_decreasing (arias : list Q) :
  0 < last_sample arias -> non_decreasing arias ->
  non_decreasing (normalized arias).
Proof. intros Hpos H. apply adjacent_map_div; assumption. Qed.

Lemma nonzero_from_nil (cond : list bool) (i : nat) :
  np.nonzero_from i cond = [] <-> forall k, nth k cond false = false.
Proof.
  revert i. induction cond as [|c t IH]; intro i; simpl.
  - split; [intros _ [|k]; reflexivity | reflexivity].
  - destruct c.
    + split; [discriminate|]. intro H. specialize (H 0%nat). discriminate.
    + rewrite IH. split.
      * intros H [|k]; [reflexivity|apply H].
      * intros H k. apply (H (S k)).
Qed.

(** No index is kept exactly when no sample reaches the level. *)
Lemma nonzero_ge_nil (a : list Q) (level : Q) :
  np.nonzero (np.ge a level) = [] <->
  forall i, (i < length a)%nat -> nth i a 0 < level.
Proof.
  unfold np.nonzero. rewrite nonzero_from_nil. unfold np.ge.
  split; intros H i.
  - intro Hi. specialize (H i).
    rewrite (nth_map_lt _ _ _ _ 0) in H by exact Hi.
    apply Qlt_bool_iff. unfold Qlt_bool. rewrite H. reflexivity.
  - destruct (Nat.lt_ge_cases i (length a)) as [Hi|Hi].
    + rewrite (nth_map_lt _ _ _ _ 0) by exact Hi.
      specialize (H i Hi). apply Qlt_bool_iff in H.
      unfold Qlt_bool in H. apply negb_true_iff in H. exact H.
    + apply nth_overflow. rewrite length_map. exact Hi.
Qed.

Lemma length_zero_nil {A : Type} (l : list A) :
  (length l =? 0)%nat = true <-> l = [].
Proof.
  destruct l; simpl; split; intro H; try reflexivity; discriminate.
Qed.

Lemma find_5_95_degenerate (time arias : list Q) :
  arias <> [] ->
  last_sample arias == 0 \/
  np.nonzero (np.ge (normalized arias) 0.05) = [] \/
  np.nonzero (np.ge (normalized arias) 0.95) = [] ->
  find_5_95_duration_detailed time arias = inr (0, 0, 0, None).
Proof.
  intros Hne H. unfold find_5_95_duration_detailed.
  rewrite (index_last_sample arias Hne). simpl bind.
  destruct (Qeq_bool (last_sample arias) 0) eqn:Hz; [reflexivity|].
  fold (normalized arias).
  destruct H as [H|[H|H]].
  - apply Qeq_bool_iff in H. congruence.
  - rewrite H. reflexivity.
  - rewrite H, orb_true_r. reflexivity.
Qed.

Lemma reaches_level (arias : list Q) (level : Q) :
  arias <> [] -> ~ last_sample arias == 0 -> level <= 1 ->
  (length (np.nonzero (np.ge (normalized arias) level)) =? 0)%nat = false.
Proof.
  intros Hne Hz Hlevel. apply not_true_is_false. intro H.
  apply length_zero_nil in H.
  pose proof (proj1 (nonzero_ge_nil _ _) H (length arias - 1)%nat) as Hlt.
  rewrite length_normalized, normalized_last in Hlt by exact Hz.
  destruct arias; [congruence|]. simpl in Hlt.
  apply (Qlt_not_le _ _ (Hlt ltac:(lia)) Hlevel).
Qed.

(** On a curve whose total is not zero the extractor interpolates. *)
Lemma find_5_95_interpolates (time arias : list Q) :
  length time = length arias -> ~ last_sample arias == 0 ->
  exists t5 t95 details,
    find_5_95_duration_detailed time arias
    = inr (t95 - t5, t5, t95, Some details) /\
    interp_value 0.05 (normalized arias) time t5 /\
    interp_value 0.95 (normalized arias) time t95.
Proof.
  intros Hlen Hz.
  assert (Hne : arias <> []).
  { intro Hnil. apply Hz. rewrite Hnil. reflexivity. }
  assert (Hpos : (0 < length (normalized arias))%nat).
  { rewrite length_normalized. destruct arias; [congruence|simpl; lia]. }
  assert (Hlen' : length time = length (normalized arias))
    by (rewrite length_normalized; exact Hlen).
  destruct (interp_shape 0.05 (normalized arias) time Hlen' Hpos)
    as (t5 & Ht5 & Hv5).
  destruct (interp_shape 0.95 (normalized arias) time Hlen' Hpos)
    as (t95 & Ht95 & Hv95).
  exists t5, t95. eexists. split; [|split; assumption].
  unfold find_5_95_duration_detailed.
  rewrite (index_last_sample arias Hne). simpl bind.
  destruct (Qeq_bool (last_sample arias) 0) eqn:Hq;
    [apply Qeq_bool_iff in Hq; contradiction|].
  fold (normalized arias).
  rewrite !reaches_level by (try assumption; unfold Qle; simpl; lia).
  simpl orb. cbv iota.
  rewrite Ht5. simpl bind. rewrite Ht95. reflexivity.
Qed.

(** C3.  On a non-degenerate energy curve (equal lengths, cumulative energy
    non-decreasing with a positive total, time non-decreasing from 0) the
    extractor returns [t5] and [t95] with [0 <= t5 <= t95 <= time[-1]], and
    the returned duration is [t95 - t5], which is not negative. *)
Theorem duration_window_ordered (time arias : list Q) :
  length time = length arias ->
  non_decreasing arias -> 0 < last_sample arias ->
  non_decreasing time -> nth 0 time 0 == 0 ->
  exists duration_5_95 t5 t95 details,
    find_5_95_duration_detailed time arias
    = inr (duration_5_95, t5, t95, details) /\
    0 <= t5 /\ t5 <= t95 /\ t95 <= last_sample time /\
    duration_5_95 == t95 - t5 /\ 0 <= duration_5_95.
Proof.
  intros Hlen Harias Htotal Htime Ht0.
  destruct (find_5_95_interpolates time arias Hlen) as
      (t5 & t95 & details & Hfind & Hv5 & Hv95); [lra|].
  exists (t95 - t5), t5, t95, (Some details).
  split; [exact Hfind|].
  assert (Hlen' : length time = length (normalized arias))
    by (rewrite length_normalized; exact Hlen).
  assert (Hpos : (0 < length (normalized arias))%nat).
  { rewrite length_normalized. destruct arias; [|simpl; lia].
    unfold last_sample in Htotal. simpl in Htotal. lra. }
  pose proof (normalized_non_decreasing arias Htotal Harias) as Hnorm.
  pose proof (interp_value_bounds _ _ Hlen' Htime 0.05 t5 Hpos Hv5) as [H5 _].
  pose proof (interp_value_bounds _ _ Hlen' Htime 0.95 t95 Hpos Hv95) as [_ H95].
  assert (Hmono : t5 <= t95).
  { apply (interp_value_mono _ _ Hlen' Hnorm Htime 0.05 0.95); try assumption.
    unfold Qle; simpl; lia. }
  rewrite <- Hlen' in H95. fold (last_sample time) in H95.
  repeat split; lra.
Qed.

(** The theorem at a four-sample curve. *)
Lemma duration_window_ordered_witness :
  exists duration_5_95 t5 t95 details,
    find_5_95_duration_detailed [0; 1; 2; 3] [0; 0.04; 0.5; 2]
    = inr (duration_5_95, t5, t95, details) /\
    0 <= t5 /\ t5 <= t95 /\ t95 <= last_sample [0; 1; 2; 3] /\
    duration_5_95 == t95 - t5 /\ 0 <= duration_5_95.
Proof.
  apply (duration_window_ordered [0; 1; 2; 3] [0; 0.04; 0.5; 2]);
    reflexivity.
Defined.

Lemma bind_inr {A B : Type} (m : result A) (k : A -> result B) (b : B) :
  bind m k = inr b -> exists a, m = inr a /\ k a = inr b.
Proof.
  destruct m as [e|a]; simpl; [discriminate|]. intro H. exists a. auto.
Qed.

(** The reported total is the last sample of the returned curve. *)
Lemma total_arias_intensity_last (time accel_g arias : list Q)
      (details : arias_details) :
  calculate_arias_intensity_detailed time accel_g = inr (arias, details) ->
  arias <> [] /\ total_arias_intensity details = last_sample arias.
Proof.
  unfold calculate_arias_intensity_detailed. intro H.
  apply bind_inr in H. destruct H as (c & _ & H).
  apply bind_inr in H. destruct H as (max_g & _ & H).
  apply bind_inr in H. destruct H as (max_ms2 & _ & H).
  apply bind_inr in H. destruct H as (total & Htotal & H).
  apply bind_inr in H. destruct H as (t_last & _ & H).
  apply bind_inr in H. destruct H as (t_first & _ & H).
  injection H as <- <-. simpl.
  set (arias := map (fun v => np.pi / (2 * 9.81) * v) c) in *.
  assert (Hne : arias <> []).
  { intro Hnil. rewrite Hnil in Htotal. discriminate. }
  split; [exact Hne|].
  rewrite (index_last_sample arias Hne) in Htotal. injection Htotal as <-.
  reflexivity.
Qed.

(** C4.  The extractor returns the degenerate window, without raising,
    on every non-empty curve whose total is zero, or none of whose
    normalized samples reaches 0.05, or none of whose normalized samples
    reaches 0.95; and an all-zero acceleration record of any positive
    length goes through the integrator with total zero and then through the
    extractor to the degenerate window. *)
Theorem degenerate_window :
  (forall time arias : list Q,
      arias <> [] ->
      last_sample arias == 0 \/
      (forall i, (i < length arias)%nat ->
                 nth i (normalized arias) 0 < 0.05) \/
      (forall i, (i < length arias)%nat ->
                 nth i (normalized arias) 0 < 0.95) ->
      find_5_95_duration_detailed time arias = inr (0, 0, 0, None)) /\
  (forall time accel_g : list Q,
      length time = length accel_g -> (0 < length accel_g)%nat ->
      Forall (fun a => a == 0) accel_g ->
      exists arias details,
        calculate_arias_intensity_detailed time accel_g
        = inr (arias, details) /\
        total_arias_intensity details == 0 /\
        find_5_95_duration_detailed time arias = inr (0, 0, 0, None)).
Proof.
  split.
  - intros time arias Hne H. apply find_5_95_degenerate; [exact Hne|].
    destruct H as [H|[H|H]]; [left; exact H|right; left|right; right];
      apply nonzero_ge_nil; rewrite length_normalized; exact H.
  - intros time accel_g Hlen Hpos Hzero.
    destruct (calculate_arias_intensity_steps time accel_g Hlen)
      as (c & details & Hcalc & Hclen & Hc0 & Hstep); [lia|].
    destruct (total_arias_intensity_last _ _ _ _ Hcalc) as [Hne Htotal].
    assert (Hall : forall i, (i < length time)%nat -> nth i c 0 == 0).
    { induction i as [|i IH]; intro Hi; [rewrite Hc0; reflexivity|].
      rewrite Hstep by exact Hi. rewrite IH by lia.
      assert (Ha : forall k, nth k accel_g 0 == 0).
      { intro k. destruct (Nat.lt_ge_cases k (length accel_g)) as [Hk|Hk].
        - apply (proj1 (Forall_nth _ accel_g) Hzero k 0 Hk).
        - rewrite nth_overflow by exact Hk. reflexivity. }
      rewrite !Ha. field. }
    assert (Hlast : last_sample (map (fun v => np.pi / (2 * 9.81) * v) c) == 0).
    { unfold last_sample. rewrite nth_scaled, length_map, Hall by lia. ring. }
    eexists. exists details. split; [exact Hcalc|]. split.
    + rewrite Htotal. exact Hlast.
    + apply find_5_95_degenerate; [exact Hne|left; exact Hlast].
Qed.

(** The theorem at a zero-total curve and at an all-zero record. *)
Lemma degenerate_window_witness :
  find_5_95_duration_detailed [0; 0.01; 0.02] [0; 0; 0] = inr (0, 0, 0, None)
  /\
  exists arias details,
    calculate_arias_intensity_detailed [0; 0.01; 0.02] [0; 0; 0]
    = inr (arias, details) /\
    total_arias_intensity details == 0 /\
    find_5_95_duration_detailed [0; 0.01; 0.02] arias = inr (0, 0, 0, None).
Proof.
  destruct degenerate_window as [Hcurve Hrecord]. split.
  - apply (Hcurve [0; 0.01; 0.02] [0; 0; 0]); [discriminate|].
    left. reflexivity.
  - apply (Hrecord [0; 0.01; 0.02] [0; 0; 0]).
    + reflexivity.
    + simpl. lia.
    + repeat constructor.
Defined.

Lemma interp_value_crossing (time curve : list Q) (level t : Q) :
  (0 < length curve)%nat -> non_decreasing curve ->
  nth 0 curve 0 <= level -> level < nth (length curve - 1) curve 0 ->
  interp_value level curve time t -> crossing_time time curve level t.
Proof.
  intros Hpos Hsorted Hfirst Hlast Hv.
  pose proof (non_decreasing_nth curve Hsorted) as Hnth.
  destruct Hv as [Hl _ _ | Hr _ | Hl _ _ | j Hj Hlo Hhi _ Hv]; try lra.
  exists j. split; [exact Hj|]. split; [|split].
  - intros i Hi. pose proof (Hnth i j ltac:(lia)). lra.
  - intros i Hi. pose proof (Hnth (S j) i ltac:(lia)). lra.
  - rewrite Hv. unfold segment_value. field. lra.
Qed.

(** C5.  On a non-degenerate energy curve (equal lengths, cumulative energy
    non-decreasing from 0 to a positive total) the extractor's [t5] is the
    time at which the normalized curve first crosses 0.05, interpolated
    linearly between the two samples that bracket the crossing, and its
    [t95] is the same at 0.95. *)
Theorem t5_t95_interpolated_crossings (time arias : list Q) :
  length time = length arias ->
  non_decreasing arias -> nth 0 arias 0 == 0 -> 0 < last_sample arias ->
  exists duration_5_95 t5 t95 details,
    find_5_95_duration_detailed time arias
    = inr (duration_5_95, t5, t95, details) /\
    crossing_time time (normalized arias) 0.05 t5 /\
    crossing_time time (normalized arias) 0.95 t95.
Proof.
  intros Hlen Harias Hzero Htotal.
  destruct (find_5_95_interpolates time arias Hlen) as
      (t5 & t95 & details & Hfind & Hv5 & Hv95); [lra|].
  exists (t95 - t5), t5, t95, (Some details).
  split; [exact Hfind|].
  assert (Hpos : (0 < length (normalized arias))%nat).
  { rewrite length_normalized. destruct arias; [|simpl; lia].
    unfold last_sample in Htotal. simpl in Htotal. lra. }
  pose proof (normalized_non_decreasing arias Htotal Harias) as Hnorm.
  assert (Hfirst : nth 0 (normalized arias) 0 == 0).
  { rewrite nth_normalized, Hzero. field. lra. }
  assert (Hlast : nth (length (normalized arias) - 1) (normalized arias) 0 == 1).
  { rewrite length_normalized. apply normalized_last. lra. }
  split; apply interp_value_crossing; try assumption;
    rewrite ?Hfirst, ?Hlast; unfold Qle, Qlt; simpl; lia.
Qed.

(** The theorem at a four-sample curve. *)
Lemma t5_t95_interpolated_crossings_witness :
  exists duration_5_95 t5 t95 details,
    find_5_95_duration_detailed [0; 1; 2; 3] [0; 0.04; 0.5; 2]
    = inr (duration_5_95, t5, t95, details) /\
    crossing_time [0; 1; 2; 3] (normalized [0; 0.04; 0.5; 2]) 0.05 t5 /\
    crossing_time [0; 1; 2; 3] (normalized [0; 0.04; 0.5; 2]) 0.95 t95.
Proof.
  apply (t5_t95_interpolated_crossings [0; 1; 2; 3] [0; 0.04; 0.5; 2]);
    reflexivity.
Defined.

(** ** Record decoder *)

Lemma bind_ret {A B : Type} (a : A) (k : A -> result B) :
  bind (inr a) k = k a.
Proof. reflexivity. Qed.

Lemma read_app (n : Z) (a b : list byte) :
  Z.of_nat (length a) = n -> read n (a ++ b) = inr (a, b).
Proof.
  intro Hlen. unfold read.
  destruct (Z.ltb_spec n (-1)) as [Hneg|_]; [lia|].
  destruct (Z.eqb_spec n (-1)) as [Hneg|_]; [lia|].
  replace (Z.to_nat n) with (length a) by lia.
  rewrite firstn_app, skipn_app, firstn_all, skipn_all, Nat.sub_diag.
  simpl. rewrite app_nil_r. reflexivity.
Qed.

Lemma read_nonneg (n : Z) (a : list byte) :
  (0 <= n)%Z ->
  read n a = inr (firstn (Z.to_nat n) a, skipn (Z.to_nat n) a).
Proof.
  intro Hn. unfold read.
  destruct (Z.ltb_spec n (-1)) as [Hneg|_]; [lia|].
  destruct (Z.eqb_spec n (-1)) as [Hneg|_]; [lia|reflexivity].
Qed.

Lemma read_short (n : Z) (a : list byte) :
  (Z.of_nat (length a) <= n)%Z -> read n a = inr (a, []).
Proof.
  intro Hlen. rewrite read_nonneg by lia.
  rewrite firstn_all2, skipn_all2 by lia. reflexivity.
Qed.

Lemma length_slice {A : Type} (lo hi : nat) (b : list A) :
  (hi <= length b)%nat -> length (slice lo hi b) = (hi - lo)%nat.
Proof.
  intro H. unfold slice. rewrite length_firstn, length_skipn. lia.
Qed.

Lemma float32_items_app (n : nat) (a b : list byte) :
  length a = (4 * n)%nat ->
  np.float32_items (a ++ b) = np.float32_items a ++ np.float32_items b.
Proof.
  revert a. induction n as [|n IH]; intros a Hlen.
  - destruct a; [reflexivity|simpl in Hlen; lia].
  - destruct a as [|b0 [|b1 [|b2 [|b3 a']]]]; simpl in Hlen; try lia.
    change (np.float32_items ((b0 :: b1 :: b2 :: b3 :: a') ++ b))
      with (float32_of_bits (le_uint [b0; b1; b2; b3])
              :: np.float32_items (a' ++ b)).
    rewrite (IH a') by lia. reflexivity.
Qed.

Lemma length_float32_items (n : nat) (a : list byte) :
  length a = (4 * n)%nat -> length (np.float32_items a) = n.
Proof.
  revert a. induction n as [|n IH]; intros a Hlen.
  - destruct a; [reflexivity|simpl in Hlen; lia].
  - destruct a as [|b0 [|b1 [|b2 [|b3 a']]]]; simpl in Hlen; try lia.
    change (np.float32_items (b0 :: b1 :: b2 :: b3 :: a'))
      with (float32_of_bits (le_uint [b0; b1; b2; b3])
              :: np.float32_items a').
    simpl. rewrite (IH a') by lia. reflexivity.
Qed.

(** C6.  A file of fewer than 56 bytes makes the decoder fail on the
    header: it reports "Invalid header size" and returns [(None, None)].
    A file whose 56-byte header declares the sample count [nt] and whose
    payload has fewer than [2 * 4 * nt] bytes makes it fail on the payload:
    it reports "Insufficient data", with the expected and the actual
    byte counts, and returns [(None, None)]. *)
Theorem decoder_failures :
  (forall file : list byte,
      (length file < 56)%nat ->
      load_binary_grm_file file
      = {| returned := (None, None);
           reported := Some (ValueError "Invalid header size") |}) /\
  (forall (header payload : list byte) (nt : Z),
      length header = 56%nat ->
      struct.unpack_i (slice 40 44 header) = inr nt ->
      (Z.of_nat (length payload) < 2 * 4 * nt)%Z ->
      load_binary_grm_file (header ++ payload)
      = {| returned := (None, None);
           reported :=
             Some (ValueError
                     ("Insufficient data: expected " ++ str (2 * 4 * nt)
                      ++ " bytes, got "
                      ++ str (Z.of_nat (length payload)))) |}).
Proof.
  split.
  - intros file Hlen. unfold load_binary_grm_file, load_binary_grm_body.
    rewrite read_short by lia.
    rewrite ?bind_ret; cbv beta iota.
    destruct (Nat.ltb_spec (length file) 56) as [_|Hge]; [|lia].
    reflexivity.
  - intros header payload nt Hlen Hnt Hshort.
    unfold load_binary_grm_file, load_binary_grm_body.
    rewrite (read_app 56 header payload) by lia.
    rewrite ?bind_ret; cbv beta iota.
    destruct (Nat.ltb_spec (length header) 56) as [Hlt|_]; [lia|].
    rewrite Hnt. cbv beta iota zeta delta [bind].
    change (Z.of_nat 2) with 2%Z.
    rewrite read_short by lia.
    rewrite ?bind_ret; cbv beta iota.
    destruct (Z.ltb_spec (Z.of_nat (length payload)) (2 * 4 * nt)) as [_|Hge];
      [|lia].
    reflexivity.
Qed.

(** The theorem at the empty file and at a header that declares two
    samples and is followed by fifteen bytes. *)
Lemma decoder_failures_witness :
  load_binary_grm_file []
  = {| returned := (None, None);
       reported := Some (ValueError "Invalid header size") |} /\
  load_binary_grm_file
    (example_header Byte.x02 Byte.x00 Byte.x00 Byte.x00
     ++ repeat Byte.x00 15)
  = {| returned := (None, None);
       reported :=
         Some (ValueError "Insufficient data: expected 16 bytes, got 15") |}.
Proof.
  destruct decoder_failures as [Hheader Hpayload]. split.
  - apply (Hheader []). simpl. lia.
  - apply (Hpayload (example_header Byte.x02 Byte.x00 Byte.x00 Byte.x00)
                    (repeat Byte.x00 15) 2%Z).
    + reflexivity.
    + reflexivity.
    + simpl. lia.
Defined.

(** A file made of a 56-byte header that declares a positive sample count
    [nt] and of two blocks of [4 * nt] bytes decodes to the synthesized time
    base and to the floats of the first block, each divided by 981. *)
Lemma decoder_reads_blocks (header block0 block1 : list byte) (nt : nat) :
  length header = 56%nat ->
  struct.unpack_i (slice 40 44 header) = inr (Z.of_nat nt) ->
  (0 < nt)%nat ->
  length block0 = (4 * nt)%nat -> length block1 = (4 * nt)%nat ->
  load_binary_grm_file (header ++ block0 ++ block1)
  = {| returned :=
         (Some (map (fun i => inject_Z (Z.of_nat i) * 0.01) (seq 0 nt)),
          Some (map (fun v => float32_div v 981) (np.float32_items block0)));
       reported := None |}.
Proof.
  intros Hlen Hnt Hpos Hb0 Hb1.
  unfold load_binary_grm_file, load_binary_grm_body.
  rewrite (read_app 56 header (block0 ++ block1)) by lia.
  rewrite ?bind_ret; cbv beta iota.
  destruct (Nat.ltb_spec (length header) 56) as [Hlt|_]; [lia|].
  rewrite Hnt. cbv beta iota zeta delta [bind].
  change (Z.of_nat 2) with 2%Z.
  rewrite read_short by (rewrite length_app; lia).
  rewrite ?bind_ret; cbv beta iota.
  destruct (Z.ltb_spec (Z.of_nat (length (block0 ++ block1)))
                       (2 * 4 * Z.of_nat nt)) as [Hlt|_];
    [rewrite length_app in Hlt; lia|].
  unfold np.frombuffer.
  replace (Z.of_nat (length (block0 ++ block1)) mod 4)%Z with 0%Z.
  2:{ rewrite length_app, Hb0, Hb1.
      replace (Z.of_nat (4 * nt + 4 * nt)) with (2 * Z.of_nat nt * 4)%Z by lia.
      symmetry. apply Z_mod_mult. }
  simpl Z.eqb. cbv beta iota delta [ret].
  rewrite (float32_items_app nt) by exact Hb0.
  unfold np.reshape.
  rewrite length_app, !(length_float32_items nt) by assumption.
  destruct (Z.ltb_spec (Z.of_nat nt) (-1)) as [Hneg|_]; [lia|].
  destruct (Z.eqb_spec (Z.of_nat nt) (-1)) as [Hneg|_]; [lia|].
  destruct (Z.eqb_spec (Z.of_nat (nt + nt)) (Z.of_nat 2 * Z.of_nat nt))
    as [_|Hne]; [|lia].
  simpl negb. cbv beta iota.
  rewrite Nat2Z.id. simpl np.split_rows.
  rewrite firstn_app, firstn_all2, (length_float32_items nt), Nat.sub_diag
    by (try rewrite (length_float32_items nt); auto).
  simpl firstn. rewrite app_nil_r.
  unfold np.row. simpl nth_error. cbv beta iota.
  unfold np.arange. rewrite Nat2Z.id, map_map. reflexivity.
Qed.

Lemma byte_val_of_Z (z : Z) : byte_val (byte_of_Z z) = (z mod 256)%Z.
Proof.
  unfold byte_val, byte_of_Z.
  pose proof (Z.mod_pos_bound z 256 ltac:(lia)) as Hrange.
  destruct (Strings.Byte.of_N (Z.to_N (z mod 256))) as [b|] eqn:Hb.
  - rewrite (Strings.Byte.to_of_N _ Hb). lia.
  - apply Strings.Byte.of_N_None_iff in Hb. lia.
Qed.

Lemma length_le_bytes (n : nat) (z : Z) : length (le_bytes n z) = n.
Proof.
  revert z. induction n as [|n IH]; intro z; simpl; [|rewrite IH];
    reflexivity.
Qed.

Lemma le_uint_le_bytes (n : nat) (z : Z) :
  le_uint (le_bytes n z) = (z mod 256 ^ Z.of_nat n)%Z.
Proof.
  revert z. induction n as [|n IH]; intro z.
  - simpl. rewrite Z.mod_1_r. reflexivity.
  - change (le_uint (le_bytes (S n) z))
      with (byte_val (byte_of_Z z) + 256 * le_uint (le_bytes n (z / 256)))%Z.
    rewrite byte_val_of_Z, IH.
    rewrite Nat2Z.inj_succ, Z.pow_succ_r by lia.
    symmetry. apply Z.rem_mul_r; [lia|]. apply Z.pow_pos_nonneg; lia.
Qed.

(** ** Single precision *)

(** *** Powers of two *)

Lemma pow2_pos (k : Z) : 0 < 2 ^ k.
Proof. apply Qpower_0_lt. reflexivity. Qed.

Lemma pow2_add (a b : Z) : 2 ^ (a + b) == 2 ^ a * 2 ^ b.
Proof. apply Qpower_plus. discriminate. Qed.

Lemma pow2_succ (a : Z) : 2 ^ (a + 1) == 2 * 2 ^ a.
Proof. rewrite pow2_add. change (2 ^ 1) with 2. ring. Qed.

Lemma pow2_le (a b : Z) : (a <= b)%Z -> 2 ^ a <= 2 ^ b.
Proof.
  intro H. apply Qpower_le_compat_l; [exact H|]. unfold Qle. simpl. lia.
Qed.

Lemma pow2_lt (a b : Z) : (a < b)%Z -> 2 ^ a < 2 ^ b.
Proof. intro H. apply Qpower_lt_compat_l; [exact H|]. reflexivity. Qed.

Lemma pow2_lt_inv (a b : Z) : 2 ^ a < 2 ^ b -> (a < b)%Z.
Proof. intro H. apply (Qpower_lt_compat_l_inv 2); [exact H|reflexivity]. Qed.

Lemma pow2_inject (n : Z) : (0 <= n)%Z -> inject_Z (2 ^ n) == 2 ^ n.
Proof. intro H. apply (Zpower_Qpower 2 n H). Qed.

(** *** Rounding to an integer *)

Lemma round_half_even_near (u : Q) :
  Qabs (inject_Z (round_half_even u) - u) <= 1 # 2.
Proof.
  destruct u as [n d]. unfold round_half_even. cbn [Qnum Qden].
  pose proof (Z.div_mod n (Z.pos d) ltac:(lia)) as Hdm.
  pose proof (Z.mod_pos_bound n (Z.pos d) ltac:(lia)) as Hr.
  set (low := (n / Z.pos d)%Z) in *.
  assert (Hn : n = (low * Z.pos d + n mod Z.pos d)%Z) by lia.
  set (r := (n mod Z.pos d)%Z) in *.
  replace (n - low * Z.pos d)%Z with r by lia.
  apply Qabs_Qle_condition.
  destruct (Z.ltb_spec (2 * r) (Z.pos d)) as [H1|H1];
    [|destruct (Z.ltb_spec (Z.pos d) (2 * r)) as [H2|H2];
      [|destruct (Z.even low)]];
    unfold Qle, Qminus, Qplus, Qopp, inject_Z; cbn [Qnum Qden];
    rewrite ?Pos2Z.inj_mul; split; nia.
Qed.

Lemma round_half_even_tie (u : Q) :
  Qabs (inject_Z (round_half_even u) - u) == 1 # 2 ->
  exists o : Z, Z.odd o = true /\ 2 * u == inject_Z o.
Proof.
  intro H.
  set (m := round_half_even u) in *.
  destruct (Qlt_le_dec (inject_Z m - u) 0) as [Hneg|Hpos].
  - rewrite Qabs_neg in H by lra.
    exists (2 * m + 1)%Z. split.
    + replace (2 * m + 1)%Z with (1 + 2 * m)%Z by lia.
      rewrite Z.odd_add_mul_2. reflexivity.
    + rewrite inject_Z_plus, inject_Z_mult.
      change (inject_Z 2) with 2. change (inject_Z 1) with 1. lra.
  - rewrite Qabs_pos in H by lra.
    exists (2 * m - 1)%Z. split.
    + replace (2 * m - 1)%Z with (1 + 2 * (m - 1))%Z by lia.
      rewrite Z.odd_add_mul_2. reflexivity.
    + unfold Z.sub. rewrite inject_Z_plus, inject_Z_mult, inject_Z_opp.
      change (inject_Z 2) with 2. change (inject_Z 1) with 1. lra.
Qed.

Lemma Qabs_inject_Z (z : Z) : Qabs (inject_Z z) == inject_Z (Z.abs z).
Proof. symmetry. apply (Zabs_Qabs z 1). Qed.

Lemma integer_gap (u : Q) (j m : Z) :
  j <> m -> 1 <= Qabs (inject_Z j - u) + Qabs (inject_Z m - u).
Proof.
  intro Hne.
  assert (Hd : 1 <= Qabs (inject_Z (j - m))).
  { rewrite Qabs_inject_Z. change 1 with (inject_Z 1).
    rewrite <- Zle_Qle. lia. }
  assert (E : inject_Z (j - m) == (inject_Z j - u) + (u - inject_Z m)).
  { unfold Z.sub. rewrite inject_Z_plus, inject_Z_opp. ring. }
  rewrite E in Hd.
  pose proof (Qabs_triangle (inject_Z j - u) (u - inject_Z m)) as T.
  assert (S : Qabs (u - inject_Z m) == Qabs (inject_Z m - u)).
  { rewrite <- Qabs_opp. apply Qabs_wd. ring. }
  lra.
Qed.

Lemma nearest_integer (u : Q) (j : Z) :
  Qabs (inject_Z (round_half_even u) - u) <= Qabs (inject_Z j - u).
Proof.
  pose proof (round_half_even_near u) as H.
  set (m := round_half_even u) in *.
  destruct (Z.eq_dec j m) as [->|Hne]; [lra|].
  pose proof (integer_gap u j m Hne) as Hd. lra.
Qed.

Lemma strictly_nearest_integer (u : Q) (j : Z) :
  Qabs (inject_Z (round_half_even u) - u) < 1 # 2 ->
  j <> round_half_even u ->
  Qabs (inject_Z (round_half_even u) - u) < Qabs (inject_Z j - u).
Proof.
  intros H Hne.
  set (m := round_half_even u) in *.
  pose proof (integer_gap u j m Hne) as Hd. lra.
Qed.

(** *** The binade of a positive rational *)

Lemma ilog2_spec (a : Q) :
  0 < a -> 2 ^ ilog2 a <= a /\ a < 2 ^ (ilog2 a + 1).
Proof.
  intro Ha. destruct a as [n d].
  assert (Hn : (0 < n)%Z) by (unfold Qlt in Ha; simpl in Ha; lia).
  unfold ilog2. cbn [Qnum Qden].
  destruct (Z.log2_spec n Hn) as [Hn1 Hn2].
  destruct (Z.log2_spec (Z.pos d) ltac:(lia)) as [Hd1 Hd2].
  pose proof (Z.log2_nonneg n) as Hln.
  pose proof (Z.log2_nonneg (Z.pos d)) as Hld.
  set (ln := Z.log2 n) in *. set (ld := Z.log2 (Z.pos d)) in *.
  assert (EN : n # d == inject_Z n / inject_Z (Z.pos d)) by apply Qmake_Qdiv.
  assert (HD : 0 < inject_Z (Z.pos d)) by (unfold Qlt; simpl; lia).
  assert (Hk : 2 ^ (ln - ld) * 2 ^ ld == 2 ^ ln).
  { rewrite <- pow2_add. replace (ln - ld + ld)%Z with ln by lia. reflexivity. }
  assert (QN1 : 2 ^ ln <= inject_Z n).
  { rewrite <- pow2_inject by lia. rewrite <- Zle_Qle. exact Hn1. }
  assert (QN2 : inject_Z n < 2 * 2 ^ ln).
  { rewrite <- pow2_succ. rewrite <- pow2_inject by lia. rewrite <- Zlt_Qlt.
    rewrite <- Z.add_1_r in Hn2. exact Hn2. }
  assert (QD1 : 2 ^ ld <= inject_Z (Z.pos d)).
  { rewrite <- pow2_inject by lia. rewrite <- Zle_Qle. exact Hd1. }
  assert (QD2 : inject_Z (Z.pos d) < 2 * 2 ^ ld).
  { rewrite <- pow2_succ. rewrite <- pow2_inject by lia. rewrite <- Zlt_Qlt.
    rewrite <- Z.add_1_r in Hd2. exact Hd2. }
  pose proof (pow2_pos (ln - ld)) as Pk.
  pose proof (pow2_pos ld) as Pd. pose proof (pow2_pos ln) as Pn.
  set (N := inject_Z n) in *. set (D := inject_Z (Z.pos d)) in *.
  set (K := 2 ^ (ln - ld)) in *. set (L := 2 ^ ld) in *. set (M := 2 ^ ln) in *.
  destruct (Qle_bool K (n # d)) eqn:Hb.
  - apply Qle_bool_iff in Hb. split; [exact Hb|].
    unfold K. rewrite pow2_succ. fold K. rewrite EN.
    apply Qlt_shift_div_r; [exact HD|]. nra.
  - assert (Hlt : n # d < K).
    { apply Qnot_le_lt. intro H. apply Qle_bool_iff in H. congruence. }
    replace (ln - ld - 1 + 1)%Z with (ln - ld)%Z by lia. split; [|exact Hlt].
    assert (E : 2 * 2 ^ (ln - ld - 1) == K).
    { rewrite <- pow2_succ.
      replace (ln - ld - 1 + 1)%Z with (ln - ld)%Z by lia. reflexivity. }
    pose proof (pow2_pos (ln - ld - 1)) as Pk1.
    set (K1 := 2 ^ (ln - ld - 1)) in *.
    rewrite EN. apply Qle_shift_div_l; [exact HD|]. nra.
Qed.
Lemma Qabs_scale (x G : Q) : 0 < G -> Qabs (x * G) == Qabs x * G.
Proof. intro H. rewrite Qabs_Qmult, (Qabs_pos G) by lra. reflexivity. Qed.

Lemma Qabs_sym (x y : Q) : Qabs (x - y) == Qabs (y - x).
Proof. rewrite <- Qabs_opp. apply Qabs_wd. ring. Qed.

Lemma Qabs_upper (x : Q) : x <= Qabs x.
Proof. apply Qle_Qabs. Qed.

Lemma Qabs_lower (x : Q) : - Qabs x <= x.
Proof. pose proof (Qle_Qabs (- x)) as H. rewrite Qabs_opp in H. lra. Qed.

Lemma binary32_value_zero : binary32_value 0.
Proof. exists 0%Z, 0%Z. split; [reflexivity|]. split; [lia|reflexivity]. Qed.

(** The ulp exponent and the scaled value used by [binary32_round]. *)
Section Rounded.

Variable t : Q.
Hypothesis t_nonzero : ~ t == 0.
Hypothesis t_small : Qabs t < 2 ^ 127.

Let k : Z := ilog2 (Qabs t).
Let e : Z := Z.max (k - 23) (-149).
Let G : Q := 2 ^ e.
Let u : Q := t / G.
Let m : Z := round_half_even u.
Let q : Q := inject_Z m * G.

Lemma rounded_facts :
  0 < Qabs t /\ 2 ^ k <= Qabs t /\ Qabs t < 2 ^ (k + 1) /\ (k < 127)%Z /\
  0 < G /\ t == u * G /\ Qabs u < 2 ^ 24.
Proof.
  assert (Ha : 0 < Qabs t).
  { pose proof (Qabs_nonneg t) as H0.
    destruct (Qeq_dec (Qabs t) 0) as [Hz|Hz]; [|lra].
    exfalso. apply t_nonzero.
    pose proof (Qabs_upper t). pose proof (Qabs_lower t). lra. }
  destruct (ilog2_spec (Qabs t) Ha) as [Hlo Hhi]. fold k in Hlo, Hhi.
  assert (Hk : (k < 127)%Z) by (apply pow2_lt_inv; lra).
  assert (HG : 0 < G) by apply pow2_pos.
  assert (Hu : t == u * G) by (unfold u; field; lra).
  repeat (split; [assumption|]).
  assert (Hau : Qabs t == Qabs u * G)
    by (rewrite Hu at 1; apply Qabs_scale; exact HG).
  assert (Hle : 2 ^ (k + 1) <= 2 ^ 24 * G).
  { unfold G. rewrite <- pow2_add. apply pow2_le. unfold e. lia. }
  pose proof (Qabs_nonneg u). nra.
Qed.

Lemma rounded_significand : (Z.abs m <= 2 ^ 24)%Z.
Proof.
  destruct rounded_facts as (_ & _ & _ & _ & _ & _ & Hu).
  pose proof (round_half_even_near u) as Hnear. fold m in Hnear.
  pose proof (Qabs_triangle (inject_Z m - u) u) as T.
  assert (E1 : inject_Z m - u + u == inject_Z m) by ring.
  rewrite E1, Qabs_inject_Z in T.
  assert (H : inject_Z (Z.abs m) < inject_Z (2 ^ 24 + 1)).
  { change (inject_Z (2 ^ 24 + 1)) with (2 ^ 24 + 1). lra. }
  rewrite <- Zlt_Qlt in H. lia.
Qed.

Lemma rounded_error : Qabs (q - t) == Qabs (inject_Z m - u) * G.
Proof.
  destruct rounded_facts as (_ & _ & _ & _ & HG & Hu & _).
  rewrite <- Qabs_scale by exact HG. apply Qabs_wd. unfold q.
  rewrite Hu at 1. ring.
Qed.

Lemma rounded_finite : binary32_round t = Finite q.
Proof.
  destruct rounded_facts as (_ & _ & _ & Hk & HG & _ & _).
  unfold binary32_round.
  destruct (Qeq_bool t 0) eqn:Hz; [apply Qeq_bool_eq in Hz; contradiction|].
  cbv zeta. fold k. fold e. fold G. fold u. fold m. fold q.
  destruct (Qle_bool (2 ^ 128) (Qabs q)) eqn:Hb; [|reflexivity].
  exfalso. apply Qle_bool_iff in Hb.
  unfold q in Hb. rewrite Qabs_scale, Qabs_inject_Z in Hb by exact HG.
  pose proof rounded_significand as Hm.
  assert (Hm' : inject_Z (Z.abs m) <= 2 ^ 24).
  { change (2 ^ 24) with (inject_Z (2 ^ 24)). rewrite <- Zle_Qle. exact Hm. }
  assert (HGle : G <= 2 ^ 103) by (apply pow2_le; unfold e; lia).
  assert (E : 2 ^ 128 == 2 * (2 ^ 24 * 2 ^ 103)) by reflexivity.
  assert (0 <= inject_Z (Z.abs m)).
  { change 0 with (inject_Z 0). rewrite <- Zle_Qle. lia. }
  pose proof (pow2_pos 103). pose proof (pow2_pos 24). nra.
Qed.

Lemma rounded_value : binary32_value q.
Proof.
  destruct rounded_facts as (_ & _ & _ & Hk & HG & _ & _).
  pose proof rounded_significand as Hm.
  destruct (Z.eq_dec (Z.abs m) (2 ^ 24)) as [Hmax|Hlt].
  - assert (Hm2 : exists h, m = (2 * h)%Z /\ (Z.abs h < 2 ^ 24)%Z).
    { change (2 ^ 24)%Z with 16777216%Z in *.
      destruct (Z.abs_eq_or_opp m) as [H|H].
      - exists 8388608%Z. lia.
      - exists (-8388608)%Z. lia. }
    destruct Hm2 as (h & Hh & Hhabs).
    exists h, (e + 1)%Z. split; [exact Hhabs|]. split; [unfold e; lia|].
    unfold q. rewrite pow2_succ. fold G.
    rewrite Hh, inject_Z_mult. change (inject_Z 2) with 2. ring.
  - exists m, e. split; [lia|]. split; [unfold e; lia|reflexivity].
Qed.

Lemma rounded_relative_error :
  2 ^ (-126) <= Qabs t -> Qabs (q - t) <= Qabs t * 2 ^ (-24).
Proof.
  intro Hnormal.
  destruct rounded_facts as (_ & Hlo & Hhi & _ & HG & _ & _).
  assert (Hk : (-126 <= k)%Z).
  { assert (H : (-126 < k + 1)%Z) by (apply pow2_lt_inv; lra). lia. }
  assert (He : e = (k - 23)%Z) by (unfold e; lia).
  assert (EG : 2 * (2 ^ k * 2 ^ (-24)) == G).
  { unfold G. rewrite He, <- pow2_add, <- pow2_succ.
    replace (k + -24 + 1)%Z with (k - 23)%Z by lia. reflexivity. }
  rewrite rounded_error.
  pose proof (round_half_even_near u) as Hnear. fold m in Hnear.
  pose proof (Qabs_nonneg (inject_Z m - u)) as H0.
  pose proof (pow2_pos (-24)) as P24. pose proof (pow2_pos k) as Pk.
  set (d := Qabs (inject_Z m - u)) in *.
  set (c := 2 ^ (-24)) in *. set (b := 2 ^ k) in *.
  nra.
Qed.

Hypothesis no_tie : Qabs (inject_Z m - u) < 1 # 2.

Lemma rounded_nearest (z : Q) :
  binary32_value z -> ~ z == q -> Qabs (q - t) < Qabs (z - t).
Proof.
  intros (m' & e' & Hm' & He' & Hz) Hne.
  destruct rounded_facts as (Ha & Hlo & Hhi & Hk & HG & Hu & Hubound).
  rewrite rounded_error.
  destruct (Z.le_gt_cases e e') as [Hcoarse|Hfine].
  - set (j := (m' * 2 ^ (e' - e))%Z).
    assert (Hzj : z == inject_Z j * G).
    { rewrite Hz. unfold j. rewrite inject_Z_mult, pow2_inject by lia.
      unfold G. rewrite <- Qmult_assoc, <- pow2_add.
      replace (e' - e + e)%Z with e' by lia. reflexivity. }
    assert (Hjm : j <> m).
    { intro Heq. apply Hne. rewrite Hzj, Heq. reflexivity. }
    pose proof (strictly_nearest_integer u j no_tie Hjm) as Hs. fold m in Hs.
    assert (Ez : Qabs (z - t) == Qabs (inject_Z j - u) * G).
    { rewrite <- Qabs_scale by exact HG. apply Qabs_wd.
      rewrite Hzj. rewrite Hu at 1. ring. }
    rewrite Ez. nra.
  - assert (He : e = (k - 23)%Z) by (unfold e in *; lia).
    assert (HB : 2 ^ k == 2 ^ 23 * G).
    { unfold G. rewrite <- pow2_add. rewrite He.
      replace (23 + (k - 23))%Z with k by lia. reflexivity. }
    assert (Hzabs : Qabs z < 2 ^ 23 * G).
    { rewrite Hz, Qabs_scale, Qabs_inject_Z by apply pow2_pos.
      assert (H1 : inject_Z (Z.abs m') <= 2 ^ 24 - 1).
      { change (2 ^ 24 - 1) with (inject_Z (2 ^ 24 - 1)).
        rewrite <- Zle_Qle. lia. }
      assert (H2 : 2 * 2 ^ e' <= G).
      { rewrite <- pow2_succ. apply pow2_le. lia. }
      assert (H0 : 0 <= inject_Z (Z.abs m')).
      { change 0 with (inject_Z 0). rewrite <- Zle_Qle. lia. }
      pose proof (pow2_pos e') as P.
      change (2 ^ 24 - 1) with (2 * 2 ^ 23 - 1) in H1.
      change (2 ^ 23) with 8388608 in *. nra. }
    pose proof (Qabs_upper z) as Zu. pose proof (Qabs_lower z) as Zl.
    destruct (Qlt_le_dec t 0) as [Hneg|Hpos].
    + rewrite (Qabs_neg t) in Hlo by lra.
      pose proof (nearest_integer u (- 2 ^ 23)) as Hn. fold m in Hn.
      assert (Ej : Qabs (inject_Z (- 2 ^ 23) - u) * G == - (2 ^ 23 * G) - t).
      { rewrite <- Qabs_scale by exact HG.
        assert (E : (inject_Z (- 2 ^ 23) - u) * G == - (2 ^ 23 * G) - t).
        { change (inject_Z (- 2 ^ 23)) with (- 2 ^ 23). unfold u. field. lra. }
        rewrite (Qabs_wd _ _ E). apply Qabs_pos. lra. }
      assert (Hzt : z - t <= Qabs (z - t)) by apply Qabs_upper.
      nra.
    + rewrite (Qabs_pos t) in Hlo by lra.
      pose proof (nearest_integer u (2 ^ 23)) as Hn. fold m in Hn.
      assert (Ej : Qabs (inject_Z (2 ^ 23) - u) * G == t - 2 ^ 23 * G).
      { rewrite <- Qabs_scale by exact HG.
        assert (E : (inject_Z (2 ^ 23) - u) * G == 2 ^ 23 * G - t).
        { change (inject_Z (2 ^ 23)) with (2 ^ 23). unfold u. field. lra. }
        rewrite (Qabs_wd _ _ E), Qabs_neg by lra. ring. }
      assert (Hzt : t - z <= Qabs (z - t)).
      { rewrite Qabs_sym. apply Qabs_upper. }
      nra.
Qed.

Lemma rounded_is_nearest :
  exists y, binary32_round t = Finite y /\ nearest_binary32 t y.
Proof.
  exists q. split; [exact rounded_finite|].
  split; [exact rounded_value|exact rounded_nearest].
Qed.

End Rounded.

(** In the normal range, rounding to single precision returns a finite
    number within a relative error of [2 ^ (-24)]. *)
Lemma binary32_round_normal (t : Q) :
  2 ^ (-126) <= Qabs t -> Qabs t < 2 ^ 127 ->
  exists q, binary32_round t = Finite q /\
            Qabs (q - t) <= Qabs t * 2 ^ (-24).
Proof.
  intros Hlo Hhi.
  assert (Hnz : ~ t == 0).
  { intro Hz. rewrite (Qabs_wd _ _ Hz) in Hlo.
    pose proof (pow2_pos (-126)). change (Qabs 0) with 0 in Hlo. lra. }
  eexists. split.
  - apply (rounded_finite t Hnz Hhi).
  - apply (rounded_relative_error t Hnz Hhi Hlo).
Qed.

Lemma inject_Z_eq (a b : Z) : inject_Z a == inject_Z b -> a = b.
Proof. unfold Qeq. simpl. lia. Qed.

Lemma quotient_small (M E : Z) (t : Q) :
  (Z.abs M < 2 ^ 24)%Z -> (E <= 104)%Z ->
  t == inject_Z M * 2 ^ E / 981 -> Qabs t < 2 ^ 127.
Proof.
  intros HM HE Ht.
  assert (E1 : t == inject_Z M * (2 ^ E / 981)) by (rewrite Ht; field).
  assert (Hc : 0 <= 2 ^ E / 981).
  { pose proof (pow2_pos E). apply Qle_shift_div_l; lra. }
  rewrite (Qabs_wd _ _ E1), Qabs_Qmult, Qabs_inject_Z, (Qabs_pos _ Hc).
  assert (H1 : inject_Z (Z.abs M) <= 2 ^ 24).
  { change (2 ^ 24) with (inject_Z (2 ^ 24)). rewrite <- Zle_Qle. lia. }
  assert (H0 : 0 <= inject_Z (Z.abs M)).
  { change 0 with (inject_Z 0). rewrite <- Zle_Qle. lia. }
  assert (H2 : 2 ^ E <= 2 ^ 104) by (apply pow2_le; exact HE).
  pose proof (pow2_pos E) as P.
  assert (E2 : 2 ^ E / 981 == 2 ^ E * (1 # 981)) by field.
  rewrite E2.
  assert (E3 : 2 ^ 127 == 2 ^ 24 * 2 ^ 104 * (1 # 2)) by reflexivity.
  rewrite E3. pose proof (pow2_pos 104). pose proof (pow2_pos 24). nra.
Qed.

Lemma quotient_no_tie (M E : Z) (t : Q) :
  (Z.abs M < 2 ^ 24)%Z -> (-149 <= E <= 104)%Z ->
  t == inject_Z M * 2 ^ E / 981 -> ~ t == 0 ->
  let e := Z.max (ilog2 (Qabs t) - 23) (-149) in
  Qabs (inject_Z (round_half_even (t / 2 ^ e)) - t / 2 ^ e) < 1 # 2.
Proof.
  intros HM HE Ht Hnz e.
  pose proof (quotient_small M E t HM ltac:(lia) Ht) as Hsmall.
  destruct (rounded_facts t Hnz Hsmall) as (Ha & Hlo & Hhi & Hk & HG & Hu & _).
  fold e in HG, Hu.
  set (G := 2 ^ e) in *. set (u := t / G) in *.
  pose proof (round_half_even_near u) as Hnear.
  destruct (Qlt_le_dec (Qabs (inject_Z (round_half_even u) - u)) (1 # 2))
    as [Hlt|Hge]; [exact Hlt|exfalso].
  destruct (round_half_even_tie u ltac:(lra)) as (o & Hodd & Ho).
  apply Z.odd_spec in Hodd. destruct Hodd as [o' Ho'].
  assert (Hprod : 2 * inject_Z M * 2 ^ E == 981 * inject_Z o * G).
  { rewrite <- Ho. unfold u.
    assert (Et : inject_Z M * 2 ^ E == 981 * t) by (rewrite Ht; field).
    setoid_replace (2 * inject_Z M * 2 ^ E)
      with (2 * (inject_Z M * 2 ^ E)) by ring.
    rewrite Et. field. lra. }
  destruct (Z.le_gt_cases e E) as [Hle|Hgt].
  - assert (E2 : 2 ^ E == 2 ^ (E - e) * G).
    { unfold G. rewrite <- pow2_add.
      replace (E - e + e)%Z with E by lia. reflexivity. }
    rewrite E2 in Hprod.
    assert (Hz : inject_Z (2 * M * 2 ^ (E - e)) == inject_Z (981 * o)).
    { rewrite !inject_Z_mult, pow2_inject by lia.
      change (inject_Z 2) with 2. change (inject_Z 981) with 981.
      apply (Qmult_inj_r _ _ G); [lra|]. rewrite <- Hprod. ring. }
    apply inject_Z_eq in Hz.
    set (X := (M * 2 ^ (E - e))%Z) in *.
    replace (2 * M * 2 ^ (E - e))%Z with (2 * X)%Z in Hz by (unfold X; ring).
    lia.
  - assert (He : e = (ilog2 (Qabs t) - 23)%Z) by (unfold e in *; lia).
    assert (E2 : G == 2 * 2 ^ (e - E - 1) * 2 ^ E).
    { unfold G. rewrite <- pow2_succ, <- pow2_add.
      replace (e - E - 1 + 1 + E)%Z with e by lia. reflexivity. }
    rewrite E2 in Hprod.
    assert (Hz : inject_Z M == inject_Z (981 * o * 2 ^ (e - E - 1))).
    { rewrite !inject_Z_mult, pow2_inject by lia.
      change (inject_Z 981) with 981.
      pose proof (pow2_pos E) as P.
      apply (Qmult_inj_r _ _ (2 * 2 ^ E)); [lra|]. 
      setoid_replace (inject_Z M * (2 * 2 ^ E))
        with (2 * inject_Z M * 2 ^ E) by ring.
      rewrite Hprod. ring. }
    apply inject_Z_eq in Hz.
    assert (HB : 2 ^ ilog2 (Qabs t) == 2 ^ 23 * G).
    { unfold G. rewrite <- pow2_add. rewrite He.
      replace (23 + (ilog2 (Qabs t) - 23))%Z with (ilog2 (Qabs t)) by lia.
      reflexivity. }
    assert (Hau : Qabs t == Qabs u * G).
    { rewrite <- Qabs_scale by exact HG. apply Qabs_wd. exact Hu. }
    assert (Hubig : 2 ^ 23 <= Qabs u).
    { pose proof (Qabs_nonneg u). change (2 ^ 23) with 8388608 in *. nra. }
    assert (Hobig : (2 ^ 24 <= Z.abs o)%Z).
    { rewrite Zle_Qle. rewrite <- Qabs_inject_Z, <- Ho.
      rewrite Qabs_Qmult. change (Qabs 2) with 2.
      change (inject_Z (2 ^ 24)) with (2 * 2 ^ 23). lra. }
    assert (Hpow : (1 <= 2 ^ (e - E - 1))%Z).
    { apply (Z.pow_le_mono_r 2 0); lia. }
    assert (HabsM : Z.abs M = (981 * Z.abs o * 2 ^ (e - E - 1))%Z).
    { rewrite Hz, !Z.abs_mul. rewrite (Z.abs_eq (2 ^ _)) by lia. reflexivity. }
    change (2 ^ 24)%Z with 16777216%Z in *. nia.
Qed.

Lemma nearest_binary32_exact (t : Q) : t == 0 -> nearest_binary32 t 0.
Proof.
  intro Ht. split; [exact binary32_value_zero|].
  intros z _ Hz.
  assert (E1 : 0 - t == 0) by lra. rewrite (Qabs_wd _ _ E1).
  assert (E2 : z - t == z) by lra. rewrite (Qabs_wd _ _ E2).
  change (Qabs 0) with 0.
  pose proof (Qabs_nonneg z) as H0.
  destruct (Qeq_dec (Qabs z) 0) as [Habs|Habs]; [|lra].
  exfalso. apply Hz. pose proof (Qabs_upper z). pose proof (Qabs_lower z). lra.
Qed.

(** Single-precision division by 981 of a representable number returns the
    representable number nearest to the exact quotient. *)
Lemma float32_div_nearest (x : Q) (M E : Z) :
  (Z.abs M < 2 ^ 24)%Z -> (-149 <= E <= 104)%Z ->
  x == inject_Z M * 2 ^ E ->
  exists y, float32_div (Finite x) 981 = Finite y /\
            nearest_binary32 (x / 981) y.
Proof.
  intros HM HE Hx. unfold float32_div.
  assert (Ht : x / 981 == inject_Z M * 2 ^ E / 981)
    by (rewrite Hx; reflexivity).
  destruct (Qeq_dec (x / 981) 0) as [Hz|Hnz].
  - exists 0. split; [|apply nearest_binary32_exact; exact Hz].
    unfold binary32_round. rewrite (Qeq_eq_bool _ _ Hz). reflexivity.
  - apply rounded_is_nearest.
    + exact Hnz.
    + apply (quotient_small M E); [exact HM|lia|exact Ht].
    + apply (quotient_no_tie M E); assumption.
Qed.

Lemma bit_fields (s : bool) (E f : Z) :
  (0 <= E < 256)%Z -> (0 <= f < 2 ^ 23)%Z ->
  let w := ((if s then 2 ^ 31 else 0) + E * 2 ^ 23 + f)%Z in
  Z.testbit w 31 = s /\ Z.land (Z.shiftr w 23) 255 = E /\
  Z.land w (2 ^ 23 - 1) = f /\ (0 <= w < 2 ^ 32)%Z.
Proof.
  intros HE Hf w.
  change (2 ^ 23)%Z with 8388608%Z in *.
  assert (Hw : w = ((if s then 2147483648 else 0) + E * 8388608 + f)%Z)
    by reflexivity.
  clearbody w.
  split; [|split; [|split]].
  - rewrite Z.testbit_eqb by lia. change (2 ^ 31)%Z with 2147483648%Z.
    destruct s.
    + replace (w / 2147483648)%Z with 1%Z; [reflexivity|].
      apply (Z.div_unique _ _ 1 (E * 8388608 + f)); lia.
    + replace (w / 2147483648)%Z with 0%Z; [reflexivity|].
      symmetry. apply Z.div_small. lia.
  - rewrite Z.shiftr_div_pow2 by lia. change (2 ^ 23)%Z with 8388608%Z.
    change 255%Z with (Z.ones 8). rewrite Z.land_ones by lia.
    change (2 ^ 8)%Z with 256%Z.
    replace (w / 8388608)%Z with ((if s then 256 else 0) + E)%Z.
    + destruct s.
      * symmetry. apply (Z.mod_unique (256 + E) 256 1 E); lia.
      * apply Z.mod_small. lia.
    + apply (Z.div_unique _ _ _ f); [lia|]. destruct s; lia.
  - change (8388608 - 1)%Z with (Z.ones 23). rewrite Z.land_ones by lia.
    change (2 ^ 23)%Z with 8388608%Z.
    symmetry.
    apply (Z.mod_unique _ _ ((if s then 256 else 0) + E)); [lia|].
    destruct s; lia.
  - change (2 ^ 32)%Z with 4294967296%Z. destruct s; lia.
Qed.

Lemma float32_of_bits_binary32 (v : binary32) :
  well_formed v ->
  float32_of_bits (binary32_bits v) = float32_of_binary32 v /\
  (0 <= binary32_bits v < 2 ^ 32)%Z.
Proof.
  destruct v as [s m e|s|]; cbn [well_formed binary32_bits float32_of_binary32].
  - intros (Hm & He & Hcanon).
    destruct (Z.ltb_spec m (2 ^ 23)) as [Hsub|Hnorm].
    + assert (He' : e = (-149)%Z) by lia. subst e.
      destruct (bit_fields s 0 m ltac:(lia) ltac:(lia)) as (Hs & HE & Hf & Hr).
      cbv zeta in Hs, HE, Hf, Hr.
      replace ((if s then 2 ^ 31 else 0) + 0 * 2 ^ 23 + m)%Z
        with ((if s then 2 ^ 31 else 0) + m)%Z in * by lia.
      split; [|exact Hr].
      unfold float32_of_bits. rewrite Hs, HE, Hf. reflexivity.
    + destruct (bit_fields s (e + 23 + 127) (m - 2 ^ 23) ltac:(lia) ltac:(lia))
        as (Hs & HE & Hf & Hr).
      cbv zeta in Hs, HE, Hf, Hr.
      split; [|exact Hr].
      unfold float32_of_bits. rewrite Hs, HE, Hf.
      destruct (Z.eqb_spec (e + 23 + 127) 255) as [H|_]; [lia|].
      destruct (Z.eqb_spec (e + 23 + 127) 0) as [H|_]; [lia|].
      replace (2 ^ 23 + (m - 2 ^ 23))%Z with m by lia.
      replace (e + 23 + 127 - 150)%Z with e by lia. reflexivity.
  - intros _.
    destruct (bit_fields s 255 0 ltac:(lia) ltac:(lia)) as (Hs & HE & Hf & Hr).
    cbv zeta in Hs, HE, Hf, Hr.
    replace ((if s then 2 ^ 31 else 0) + 255 * 2 ^ 23 + 0)%Z
      with ((if s then 2 ^ 31 else 0) + 255 * 2 ^ 23)%Z in * by lia.
    split; [|exact Hr].
    unfold float32_of_bits. rewrite Hs, HE, Hf. reflexivity.
  - intros _. split; [reflexivity|]. cbv. split; [discriminate|reflexivity].
Qed.

(** The decoder's division, on the bytes of a single-precision value. *)
Lemma float32_div_divided (v : binary32) :
  well_formed v -> divided_by_981 v (float32_div (float32_of_binary32 v) 981).
Proof.
  destruct v as [s m e|s|]; [|reflexivity|reflexivity].
  intros (Hm & He & _). cbn [divided_by_981 float32_of_binary32].
  apply (float32_div_nearest _ (if s then - m else m)%Z e).
  - destruct s; lia.
  - exact He.
  - unfold binary32_number. destruct s; [|reflexivity].
    rewrite inject_Z_opp. ring.
Qed.

(** One divided by 981 is [547269 / 2 ^ 29] in single precision; the
    least positive number divided by 981 is zero. *)
Lemma float32_div_examples :
  (exists q, float32_div (float32_of_binary32 (Number32 false (2 ^ 23) (-23)))
                         981 = Finite q /\ q == 547269 # 2 ^ 29) /\
  (exists q, float32_div (float32_of_binary32 (Number32 false 1 (-149))) 981
             = Finite q /\ q == 0).
Proof.
  split; eexists; (split; [vm_compute; reflexivity|reflexivity]).
Qed.

Lemma float32_items_packed (component : list binary32) :
  Forall well_formed component ->
  np.float32_items (flat_map pack_f component)
  = map float32_of_binary32 component.
Proof.
  induction 1 as [|v t Hv _ IH]; [reflexivity|].
  change (flat_map pack_f (v :: t)) with (pack_f v ++ flat_map pack_f t).
  rewrite (float32_items_app 1) by apply length_le_bytes.
  rewrite IH. simpl map. f_equal.
  unfold pack_f.
  destruct (float32_of_bits_binary32 v Hv) as [Hdecode Hrange].
  change (np.float32_items (le_bytes 4 (binary32_bits v)))
    with [float32_of_bits (le_uint (le_bytes 4 (binary32_bits v)))].
  rewrite le_uint_le_bytes.
  change (256 ^ Z.of_nat 4)%Z with (2 ^ 32)%Z.
  rewrite Z.mod_small by exact Hrange. rewrite Hdecode. reflexivity.
Qed.

Lemma length_packed (component : list binary32) :
  length (flat_map pack_f component) = (4 * length component)%nat.
Proof.
  induction component as [|v t IH]; [reflexivity|].
  change (flat_map pack_f (v :: t)) with (pack_f v ++ flat_map pack_f t).
  rewrite length_app, IH. unfold pack_f. rewrite length_le_bytes.
  simpl length. lia.
Qed.

Lemma slice_middle {A : Type} (lo hi : nat) (a m c : list A) :
  length a = lo -> length m = (hi - lo)%nat -> slice lo hi (a ++ m ++ c) = m.
Proof.
  intros Ha Hm. unfold slice.
  rewrite skipn_app, skipn_all2 by lia.
  replace (lo - length a)%nat with 0%nat by lia.
  simpl. rewrite firstn_app, firstn_all2 by lia.
  replace (hi - lo - length m)%nat with 0%nat by lia.
  simpl. apply app_nil_r.
Qed.

Lemma unpack_i_pack_i (nt : Z) :
  (- 2 ^ 31 <= nt < 2 ^ 31)%Z -> struct.unpack_i (pack_i nt) = inr nt.
Proof.
  intro Hrange. unfold struct.unpack_i, pack_i.
  rewrite length_le_bytes. simpl Nat.eqb. cbv iota.
  rewrite le_uint_le_bytes.
  change (256 ^ Z.of_nat 4)%Z with (2 ^ 32)%Z.
  rewrite Z.mod_mod by lia.
  unfold ret. f_equal.
  destruct (Z.ltb_spec (nt mod 2 ^ 32) (2 ^ 31)) as [Hlow|Hhigh].
  - destruct (Z.lt_ge_cases nt 0) as [Hneg|Hpos].
    + rewrite <- (Z.mod_add nt 1 (2 ^ 32)) in Hlow by lia.
      rewrite Z.mod_small in Hlow by lia. lia.
    + apply Z.mod_small. lia.
  - destruct (Z.lt_ge_cases nt 0) as [Hneg|Hpos].
    + rewrite <- (Z.mod_add nt 1 (2 ^ 32)) by lia.
      rewrite Z.mod_small by lia. lia.
    + rewrite Z.mod_small in Hhigh by lia. lia.
Qed.

(** C7.  Decoder round trip.  Encode a synthetic record: a 56-byte header
    whose bytes 40-44 hold a positive sample count [nt], then [nt]
    single-precision values of component 0 and [nt] of component 1.
    Decoding it reports no error and gives back the time base
    [time[i] = i * 0.01], [0 <= i < nt], and, for each value of component 0,
    that value divided by 981.0 in single precision: the single-precision
    number nearest to the exact quotient (an infinity or a NaN for an
    infinity or a NaN). *)
Theorem decoder_round_trip (before after : list byte) (nt : nat)
        (component0 component1 : list binary32) :
  length before = 40%nat -> length after = 12%nat ->
  (0 < nt)%nat -> (Z.of_nat nt < 2 ^ 31)%Z ->
  length component0 = nt -> length component1 = nt ->
  Forall well_formed component0 ->
  exists accel_g,
    load_binary_grm_file
      (encode_record before after (Z.of_nat nt) component0 component1)
    = {| returned :=
           (Some (map (fun i => inject_Z (Z.of_nat i) * 0.01) (seq 0 nt)),
            Some accel_g);
         reported := None |} /\
    Forall2 divided_by_981 component0 accel_g.
Proof.
  intros Hbefore Hafter Hpos Hmax Hc0 Hc1 Hwf.
  exists (map (fun v => float32_div (float32_of_binary32 v) 981) component0).
  split.
  - unfold encode_record.
    replace (before ++ pack_i (Z.of_nat nt) ++ after
             ++ flat_map pack_f component0 ++ flat_map pack_f component1)
      with ((before ++ pack_i (Z.of_nat nt) ++ after)
            ++ flat_map pack_f component0 ++ flat_map pack_f component1)
      by (rewrite <- !app_assoc; reflexivity).
    rewrite (decoder_reads_blocks _ _ _ nt).
    + rewrite (float32_items_packed component0 Hwf), map_map. reflexivity.
    + rewrite !length_app. unfold pack_i. rewrite length_le_bytes. lia.
    + rewrite slice_middle
        by (try exact Hbefore; unfold pack_i; rewrite length_le_bytes; lia).
      apply unpack_i_pack_i. lia.
    + exact Hpos.
    + rewrite length_packed. lia.
    + rewrite length_packed. lia.
  - clear Hc0. induction Hwf as [|v t Hv _ IH]; [constructor|].
    simpl map. constructor; [apply float32_div_divided; exact Hv|exact IH].
Qed.

(** The theorem at a record of two samples: component 0 is 1.0 and the
    least negative number, [- 2 ^ (-149)]; component 1 is 2.0 and an
    infinity. *)
Lemma decoder_round_trip_witness :
  exists accel_g,
    load_binary_grm_file
      (encode_record (repeat Byte.x00 40) (repeat Byte.x00 12) 2
                     [Number32 false (2 ^ 23) (-23); Number32 true 1 (-149)]
                     [Number32 false (2 ^ 23) (-22); Infinity32 false])
    = {| returned :=
           (Some (map (fun i => inject_Z (Z.of_nat i) * 0.01) (seq 0 2)),
            Some accel_g);
         reported := None |} /\
    Forall2 divided_by_981
            [Number32 false (2 ^ 23) (-23); Number32 true 1 (-149)] accel_g.
Proof.
  apply (decoder_round_trip
           (repeat Byte.x00 40) (repeat Byte.x00 12) 2%nat
           [Number32 false (2 ^ 23) (-23); Number32 true 1 (-149)]
           [Number32 false (2 ^ 23) (-22); Infinity32 false]);
    try reflexivity.
  - lia.
  - repeat constructor; simpl; lia.
Defined.

(** C10.  The decoder does not check that the declared sample count is
    positive: on every file of at least 56 bytes whose header declares
    [nt = 0] it reports no error and returns an empty time array and an
    empty acceleration array. *)
Theorem decoder_accepts_zero_samples (file : list byte) :
  (56 <= length file)%nat ->
  struct.unpack_i (slice 40 44 (firstn 56 file)) = inr 0%Z ->
  load_binary_grm_file file
  = {| returned := (Some [], Some []); reported := None |}.
Proof.
  intros Hlen Hnt.
  unfold load_binary_grm_file, load_binary_grm_body.
  rewrite (read_nonneg 56) by lia.
  rewrite ?bind_ret; cbv beta iota.
  change (Z.to_nat 56) with 56%nat.
  rewrite length_firstn.
  destruct (Nat.ltb_spec (Nat.min 56 (length file)) 56) as [Hlt|_]; [lia|].
  rewrite Hnt. reflexivity.
Qed.

(** The theorem at a header with [nt = 0] followed by four bytes. *)
Lemma decoder_accepts_zero_samples_witness :
  load_binary_grm_file
    (example_header Byte.x00 Byte.x00 Byte.x00 Byte.x00
     ++ [Byte.x00; Byte.x00; Byte.x80; Byte.x3f])
  = {| returned := (Some [], Some []); reported := None |}.
Proof.
  apply decoder_accepts_zero_samples.
  - simpl. lia.
  - reflexivity.
Defined.

(** ** Band-pass filter designer *)

Lemma py_max_Qmax (a b : Q) : py_max a b == Qmax a b.
Proof.
  unfold py_max. destruct (Qlt_le_dec a b) as [H|H].
  - symmetry. apply Q.max_r. lra.
  - symmetry. apply Q.max_l. exact H.
Qed.

Lemma py_min_Qmin (a b : Q) : py_min a b == Qmin a b.
Proof.
  unfold py_min. destruct (Qlt_le_dec b a) as [H|H].
  - symmetry. apply Q.min_r. lra.
  - symmetry. apply Q.min_l. exact H.
Qed.

Section ButterValidation.

Variable sos : Type.
Variable sections : nat -> Q -> Q -> sos.

Lemma scaled_edge (fs e : Q) :
  0 < fs -> 2 * e / fs == e * (2 / fs) /\ 0 < 2 / fs.
Proof.
  intro Hfs. split; [field; lra|].
  apply Qlt_shift_div_l; lra.
Qed.

(** [iirfilter] refuses a band whose upper edge is not above a positive
    lower edge. *)
Lemma butter_rejects (N : nat) (lo hi fs : Q) :
  0 < lo -> hi <= lo ->
  exists msg, scipy.butter sos sections N (lo, hi) fs = inl (ValueError msg).
Proof.
  intros Hlo Hhi. unfold scipy.butter, raise.
  destruct (Qeq_bool fs 0) eqn:Hfs0.
  - destruct (Qlt_le_dec lo 0); [eexists; reflexivity|].
    destruct (Qlt_le_dec hi 0); eexists; reflexivity.
  - destruct (Qle_bool (2 * lo / fs) 0 || Qle_bool (2 * hi / fs) 0) eqn:Hneg;
      [eexists; reflexivity|].
    apply orb_false_elim in Hneg. destruct Hneg as [Hw0 Hw1].
    assert (Hfs : 0 < fs).
    { apply Qnot_le_lt. intro Hle.
      assert (Hne : ~ fs == 0)
        by (intro E; apply Qeq_bool_iff in E; congruence).
      assert (Hfsneg : 0 < - fs) by lra.
      assert (Hw : 2 * lo / fs <= 0).
      { assert (E : 2 * lo / fs == - (2 * lo / - fs)) by (field; lra).
        rewrite E.
        assert (0 < 2 * lo / - fs) by (apply Qlt_shift_div_l; lra).
        lra. }
      apply Qle_bool_iff in Hw. congruence. }
    destruct (scaled_edge fs lo Hfs) as [Elo Hk].
    destruct (scaled_edge fs hi Hfs) as [Ehi _].
    assert (Hle : 2 * hi / fs <= 2 * lo / fs) by (rewrite Elo, Ehi; nra).
    apply Qle_bool_iff in Hle. rewrite Hle. eexists; reflexivity.
Qed.

(** [iirfilter] accepts a band strictly between 0 and the Nyquist
    frequency. *)
Lemma butter_accepts (N : nat) (lo hi fs : Q) :
  0 < lo -> lo < hi -> hi <= fs / 2 * 0.95 ->
  scipy.butter sos sections N (lo, hi) fs
  = inr (sections N (2 * lo / fs) (2 * hi / fs)).
Proof.
  intros Hlo Hhi Hnyq. unfold scipy.butter.
  assert (Hfs : 0 < fs).
  { apply Qnot_le_lt. intro Hle.
    assert (E : fs / 2 * 0.95 == fs * (95 # 200)) by field.
    rewrite E in Hnyq. nra. }
  destruct (Qeq_bool fs 0) eqn:Hfs0;
    [apply Qeq_bool_iff in Hfs0; lra|].
  destruct (scaled_edge fs lo Hfs) as [Elo Hk].
  destruct (scaled_edge fs hi Hfs) as [Ehi _].
  assert (Hone : 2 * hi / fs < 1).
  { apply Qlt_shift_div_r; [exact Hfs|].
    assert (E : fs / 2 * 0.95 == fs * (95 # 200)) by field.
    rewrite E in Hnyq. lra. }
  assert (H0 : Qle_bool (2 * lo / fs) 0 = false).
  { apply not_true_is_false. intro H. apply Qle_bool_iff in H.
    rewrite Elo in H. nra. }
  assert (H1 : Qle_bool (2 * hi / fs) 0 = false).
  { apply not_true_is_false. intro H. apply Qle_bool_iff in H.
    rewrite Ehi in H. nra. }
  assert (H2 : Qle_bool (2 * hi / fs) (2 * lo / fs) = false).
  { apply not_true_is_false. intro H. apply Qle_bool_iff in H.
    rewrite Elo, Ehi in H. nra. }
  assert (H3 : Qle_bool 1 (2 * lo / fs) = false).
  { apply not_true_is_false. intro H. apply Qle_bool_iff in H.
    rewrite Elo in H. rewrite Ehi in Hone. nra. }
  assert (H4 : Qle_bool 1 (2 * hi / fs) = false).
  { apply not_true_is_false. intro H. apply Qle_bool_iff in H. lra. }
  rewrite H0, H1, H2, H3, H4. reflexivity.
Qed.

End ButterValidation.

(** C8.  With the clamped cutoffs [low = max(center * (1 - 0.2), 0.01)] and
    [high = min(center * (1 + 0.2), 0.95 * (fs / 2))], the designer fails
    with the [ValueError] of [butter] whenever [low >= high] and succeeds
    with exactly these cutoffs whenever [low < high]; at a center of 1 Hz
    and a sampling frequency of 100 Hz it succeeds with [low = 0.8] and
    [high = 1.2], both below the clamp [0.95 * 50]. *)
Theorem bandpass_filter_range (sos : Type) (sections : nat -> Q -> Q -> sos) :
  (forall f_center fs : Q,
      let low := Qmax (f_center * (1 - 0.2)) 0.01 in
      let high := Qmin (f_center * (1 + 0.2)) (0.95 * (fs / 2)) in
      (high <= low ->
       exists msg,
         design_bandpass_filter_detailed sos sections f_center fs
                                         default_bandwidth_factor
         = inl (ValueError msg)) /\
      (low < high ->
       exists s info,
         design_bandpass_filter_detailed sos sections f_center fs
                                         default_bandwidth_factor
         = inr (s, info) /\
         low_freq_hz info == low /\ high_freq_hz info == high)) /\
  (exists s info,
      design_bandpass_filter_detailed sos sections 1 100
                                      default_bandwidth_factor
      = inr (s, info) /\
      low_freq_hz info == 0.8 /\ high_freq_hz info == 1.2 /\
      0.8 < 0.95 * (100 / 2) /\ 1.2 < 0.95 * (100 / 2)).
Proof.
  assert (Hgeneral : forall f_center fs : Q,
             let lo := py_max (f_center * (1 - 0.2)) 0.01 in
             let hi := py_min (f_center * (1 + 0.2)) (fs / 2 * 0.95) in
             0 < lo /\ hi <= fs / 2 * 0.95 /\
             lo == Qmax (f_center * (1 - 0.2)) 0.01 /\
             hi == Qmin (f_center * (1 + 0.2)) (0.95 * (fs / 2))).
  { intros f_center fs lo hi. subst lo hi.
    split; [|split; [|split]].
    - unfold py_max. destruct (Qlt_le_dec (f_center * (1 - 0.2)) 0.01); lra.
    - unfold py_min.
      destruct (Qlt_le_dec (fs / 2 * 0.95) (f_center * (1 + 0.2))); lra.
    - apply py_max_Qmax.
    - rewrite py_min_Qmin. apply Q.min_compat; [reflexivity|ring]. }
  split.
  - intros f_center fs low high.
    destruct (Hgeneral f_center fs) as (Hlo & Hhi & Elo & Ehi).
    unfold design_bandpass_filter_detailed, default_bandwidth_factor.
    set (lo := py_max (f_center * (1 - 0.2)) 0.01) in *.
    set (hi := py_min (f_center * (1 + 0.2)) (fs / 2 * 0.95)) in *.
    fold low in Elo. fold high in Ehi.
    split; intro Hcmp.
    + destruct (butter_rejects sos sections 4 lo hi fs Hlo) as [msg Hmsg];
        [rewrite Elo, Ehi; exact Hcmp|].
      exists msg. rewrite Hmsg. reflexivity.
    + rewrite butter_accepts; [|exact Hlo|rewrite Elo, Ehi; exact Hcmp|exact Hhi].
      eexists. eexists. split; [reflexivity|]. split; assumption.
  - unfold design_bandpass_filter_detailed, default_bandwidth_factor.
    rewrite butter_accepts by (vm_compute; first [reflexivity|discriminate]).
    eexists. eexists. split; [reflexivity|].
    repeat split; vm_compute; reflexivity.
Qed.

(** The theorem with the normalised band edges themselves standing for
    the filter sections, at a collapsed band (center 100 Hz sampled at
    100 Hz) and at an open one (center 2 Hz sampled at 100 Hz). *)
Lemma bandpass_filter_range_witness :
  (exists msg,
      design_bandpass_filter_detailed (Q * Q) (fun _ w0 w1 => (w0, w1))
                                      100 100 default_bandwidth_factor
      = inl (ValueError msg)) /\
  (exists s info,
      design_bandpass_filter_detailed (Q * Q) (fun _ w0 w1 => (w0, w1))
                                      2 100 default_bandwidth_factor
      = inr (s, info) /\
      low_freq_hz info == Qmax (2 * (1 - 0.2)) 0.01 /\
      high_freq_hz info == Qmin (2 * (1 + 0.2)) (0.95 * (100 / 2))).
Proof.
  destruct (bandpass_filter_range (Q * Q) (fun _ w0 w1 => (w0, w1)))
    as [Hrange _].
  split.
  - apply (Hrange 100 100). vm_compute. discriminate.
  - apply (Hrange 2 100). vm_compute. reflexivity.
Defined.

(** * Further properties of the stages *)

(** ** Energy integrator: when it returns, scaling, growth *)

Lemma cumulative_trapezoid_inr (y x c : list Q) :
  scipy.cumulative_trapezoid y x = inr c ->
  y <> [] /\ length (np.diff x) = (length y - 1)%nat.
Proof.
  unfold scipy.cumulative_trapezoid. destruct y as [|y0 t]; [discriminate|].
  destruct (Nat.eqb_spec (length (np.diff x)) (length (y0 :: t) - 1))
    as [Heq|Hne]; simpl negb; cbv iota; [|discriminate].
  intros _. split; [discriminate|exact Heq].
Qed.

Lemma calculate_inr_lengths (time accel_g : list Q)
      (out : list Q * arias_details) :
  calculate_arias_intensity_detailed time accel_g = inr out ->
  length time = length accel_g /\ (0 < length time)%nat.
Proof.
  intro H. unfold calculate_arias_intensity_detailed in H.
  apply bind_inr in H. destruct H as (c & Hc & H).
  apply bind_inr in H. destruct H as (max_g & _ & H).
  apply bind_inr in H. destruct H as (max_ms2 & _ & H).
  apply bind_inr in H. destruct H as (total & _ & H).
  apply bind_inr in H. destruct H as (t_last & Hlast & _).
  apply cumulative_trapezoid_inr in Hc. destruct Hc as [Hne Hlen].
  rewrite length_diff, !length_map in Hlen.
  destruct time as [|t0 time_t]; [discriminate|].
  destruct accel_g as [|a0 accel_t]; [exfalso; apply Hne; reflexivity|].
  simpl in *. lia.
Qed.

(** X1.  The integrator returns exactly on arrays of equal positive length:
    an empty acceleration array, arrays of different lengths and an empty
    time array all make it raise. *)
Theorem integrator_returns_iff (time accel_g : list Q) :
  (exists out, calculate_arias_intensity_detailed time accel_g = inr out) <->
  length time = length accel_g /\ (0 < length time)%nat.
Proof.
  split.
  - intros [out H]. exact (calculate_inr_lengths time accel_g out H).
  - intros [Hlen Hpos].
    destruct (calculate_arias_intensity_returns time accel_g Hlen Hpos)
      as (c & details & _ & H).
    eexists. exact H.
Qed.

(** The unscaled curve of a valid record never decreases. *)
Lemma steps_non_decreasing (time accel_g c : list Q) :
  strictly_increasing time -> length c = length time ->
  (forall i, (S i < length time)%nat ->
     nth (S i) c 0
     == nth i c 0
        + (nth (S i) time 0 - nth i time 0)
          * ((nth (S i) accel_g 0 * 9.81) ^ 2 + (nth i accel_g 0 * 9.81) ^ 2)
          / 2) ->
  forall i j, (i <= j < length time)%nat -> nth i c 0 <= nth j c 0.
Proof.
  intros Hinc Hclen Hstep i j [Hij Hj].
  induction Hij as [|j Hij IH]; [apply Qle_refl|].
  apply Qle_trans with (nth j c 0); [apply IH; lia|].
  rewrite Hstep by exact Hj.
  pose proof (strictly_increasing_nth time Hinc j Hj) as Hdt.
  set (t1 := nth (S j) time 0) in *. set (t0 := nth j time 0) in *.
  set (a1 := nth (S j) accel_g 0 * 9.81). set (a0 := nth j accel_g 0 * 9.81).
  assert (H1 : 0 <= a1 ^ 2) by (simpl; nra).
  assert (H0 : 0 <= a0 ^ 2) by (simpl; nra).
  assert (Hprod : 0 <= (t1 - t0) * (a1 ^ 2 + a0 ^ 2))
    by (apply Qmult_le_0_compat; lra).
  assert (Hhalf : (t1 - t0) * (a1 ^ 2 + a0 ^ 2) / 2
                  == (t1 - t0) * (a1 ^ 2 + a0 ^ 2) * (1 # 2)) by field.
  rewrite Hhalf. lra.
Qed.

Lemma nth_map_mult (k : Q) (a : list Q) (i : nat) :
  nth i (map (Qmult k) a) 0 == k * nth i a 0.
Proof. apply nth_scaled. Qed.

Lemma scaled_record_curve (k : Q) (time accel_g : list Q) :
  length time = length accel_g -> (0 < length time)%nat ->
  exists arias details arias_k details_k,
    calculate_arias_intensity_detailed time accel_g = inr (arias, details) /\
    calculate_arias_intensity_detailed time (map (Qmult k) accel_g)
    = inr (arias_k, details_k) /\
    forall i, nth i arias_k 0 == k ^ 2 * nth i arias 0.
Proof.
  intros Hlen Hpos.
  destruct (calculate_arias_intensity_steps time accel_g Hlen Hpos)
    as (c & details & Hcalc & Hclen & Hc0 & Hstep).
  destruct (calculate_arias_intensity_steps time (map (Qmult k) accel_g))
    as (ck & details_k & Hcalck & Hcklen & Hck0 & Hstepk);
    [rewrite length_map; exact Hlen|exact Hpos|].
  eexists. exists details. eexists. exists details_k.
  split; [exact Hcalc|]. split; [exact Hcalck|].
  intro i. rewrite !nth_scaled.
  assert (Hi : nth i ck 0 == k ^ 2 * nth i c 0).
  { destruct (Nat.lt_ge_cases i (length time)) as [Hlt|Hge].
    - induction i as [|i IH]; [rewrite Hc0, Hck0; ring|].
      rewrite Hstepk, Hstep by exact Hlt. rewrite IH by lia.
      rewrite !nth_map_mult. simpl. field.
    - rewrite !nth_overflow by lia. ring. }
  rewrite Hi. ring.
Qed.

(** X2.  The energy curve is quadratic in the amplitude: multiplying every
    acceleration sample by [k] multiplies every sample of the curve by
    [k^2].  In particular the curve does not see the sign of the record. *)
Theorem arias_quadratic_in_amplitude (k : Q) (time accel_g : list Q) :
  length time = length accel_g -> (0 < length time)%nat ->
  exists arias details arias_k details_k,
    calculate_arias_intensity_detailed time accel_g = inr (arias, details) /\
    calculate_arias_intensity_detailed time (map (Qmult k) accel_g)
    = inr (arias_k, details_k) /\
    forall i, nth i arias_k 0 == k ^ 2 * nth i arias 0.
Proof. exact (scaled_record_curve k time accel_g). Qed.

(** The theorem at a three-sample record and the factor -2. *)
Lemma arias_quadratic_in_amplitude_witness :
  exists arias details arias_k details_k,
    calculate_arias_intensity_detailed [0; 0.01; 0.02] [0.3; -1; 0.5]
    = inr (arias, details) /\
    calculate_arias_intensity_detailed
      [0; 0.01; 0.02] (map (Qmult (-2)) [0.3; -1; 0.5])
    = inr (arias_k, details_k) /\
    forall i, nth i arias_k 0 == (-2) ^ 2 * nth i arias 0.
Proof.
  apply (arias_quadratic_in_amplitude (-2) [0; 0.01; 0.02] [0.3; -1; 0.5]).
  - reflexivity.
  - simpl. lia.
Defined.

Lemma adjacent_of_nth (R : Q -> Q -> bool) (l : list Q) :
  (forall i, (S i < length l)%nat -> R (nth i l 0) (nth (S i) l 0) = true) ->
  adjacent R l = true.
Proof.
  induction l as [|a [|b t] IH]; intro H; try reflexivity.
  change (adjacent R (a :: b :: t)) with (R a b && adjacent R (b :: t)).
  apply andb_true_intro. split.
  - apply (H 0%nat). simpl. lia.
  - apply IH. intros i Hi. apply (H (S i)). simpl in *. lia.
Qed.

Lemma strictly_increasing_non_decreasing (l : list Q) :
  strictly_increasing l -> non_decreasing l.
Proof.
  intro H. apply adjacent_of_nth. intros i Hi. apply Qle_bool_iff.
  apply Qlt_le_weak. apply (strictly_increasing_nth l H i Hi).
Qed.

Lemma scaling_factor_positive : 0 < np.pi / (2 * 9.81).
Proof. reflexivity. Qed.

(** What the integrator hands to the extractor on a valid record. *)
Lemma integrator_curve (time accel_g : list Q) :
  length time = length accel_g -> (0 < length time)%nat ->
  strictly_increasing time ->
  exists arias details,
    calculate_arias_intensity_detailed time accel_g = inr (arias, details) /\
    length arias = length time /\
    nth 0 arias 0 == 0 /\
    non_decreasing arias /\
    0 <= last_sample arias /\
    total_arias_intensity details = last_sample arias.
Proof.
  intros Hlen Hpos Hinc.
  destruct (calculate_arias_intensity_steps time accel_g Hlen Hpos)
    as (c & details & Hcalc & Hclen & Hc0 & Hstep).
  pose proof (steps_non_decreasing time accel_g c Hinc Hclen Hstep) as Hmono.
  destruct (total_arias_intensity_last _ _ _ _ Hcalc) as [_ Htotal].
  eexists. exists details. split; [exact Hcalc|].
  assert (Hlenmap : length (map (fun v => np.pi / (2 * 9.81) * v) c)
                    = length time) by (rewrite length_map; exact Hclen).
  pose proof scaling_factor_positive as Hk.
  split; [exact Hlenmap|]. split; [rewrite nth_scaled, Hc0; ring|].
  split; [|split; [|exact Htotal]].
  - apply adjacent_of_nth. rewrite Hlenmap. intros i Hi.
    apply Qle_bool_iff. rewrite !nth_scaled.
    apply Qmult_le_l; [exact Hk|]. apply Hmono. lia.
  - unfold last_sample. rewrite Hlenmap, nth_scaled.
    pose proof (Hmono 0%nat (length time - 1)%nat ltac:(lia)) as H0.
    rewrite Hc0 in H0. apply Qmult_le_0_compat; [lra|exact H0].
Qed.

Lemma square_zero (a : Q) : (a * 9.81) ^ 2 == 0 -> a == 0.
Proof.
  simpl. intro H.
  destruct (Qmult_integral _ _ H) as [H1|H1];
    destruct (Qmult_integral _ _ H1) as [H2|H2]; try exact H2;
      exfalso; revert H2; unfold Qeq; simpl; lia.
Qed.

Lemma silent_curve_zero (time accel_g c : list Q) :
  nth 0 c 0 = 0 ->
  (forall i, (S i < length time)%nat ->
     nth (S i) c 0
     == nth i c 0
        + (nth (S i) time 0 - nth i time 0)
          * ((nth (S i) accel_g 0 * 9.81) ^ 2 + (nth i accel_g 0 * 9.81) ^ 2)
          / 2) ->
  (forall k, nth k accel_g 0 == 0) ->
  forall i, (i < length time)%nat -> nth i c 0 == 0.
Proof.
  intros Hc0 Hstep Ha.
  induction i as [|i IH]; intro Hi; [rewrite Hc0; reflexivity|].
  rewrite Hstep by exact Hi. rewrite IH by lia. rewrite !Ha. field.
Qed.

Lemma silent_iff_no_energy (time accel_g : list Q) :
  length time = length accel_g -> (2 <= length time)%nat ->
  strictly_increasing time ->
  exists arias details,
    calculate_arias_intensity_detailed time accel_g = inr (arias, details) /\
    (total_arias_intensity details == 0 <->
     Forall (fun a => a == 0) accel_g).
Proof.
  intros Hlen Hn Hinc.
  destruct (calculate_arias_intensity_steps time accel_g Hlen)
    as (c & details & Hcalc & Hclen & Hc0 & Hstep); [lia|].
  pose proof (steps_non_decreasing time accel_g c Hinc Hclen Hstep) as Hmono.
  destruct (total_arias_intensity_last _ _ _ _ Hcalc) as [_ Htotal].
  eexists. exists details. split; [exact Hcalc|].
  rewrite Htotal. unfold last_sample. rewrite length_map, Hclen, nth_scaled.
  pose proof scaling_factor_positive as Hk.
  split.
  - intro Hzero.
    assert (Hlast : nth (length time - 1) c 0 == 0).
    { destruct (Qmult_integral _ _ Hzero) as [H|H]; [lra|exact H]. }
    assert (Hall : forall i, (i < length time)%nat -> nth i c 0 == 0).
    { intros i Hi.
      pose proof (Hmono 0%nat i ltac:(lia)) as Hlo.
      pose proof (Hmono i (length time - 1)%nat ltac:(lia)) as Hhi.
      rewrite Hc0 in Hlo. lra. }
    assert (Hpair : forall i, (S i < length time)%nat ->
               nth i accel_g 0 == 0 /\ nth (S i) accel_g 0 == 0).
    { intros i Hi. pose proof (Hstep i Hi) as Hs.
      rewrite (Hall i), (Hall (S i)) in Hs by lia.
      pose proof (strictly_increasing_nth time Hinc i Hi) as Hdt.
      set (dt := nth (S i) time 0 - nth i time 0) in *.
      set (s1 := (nth (S i) accel_g 0 * 9.81) ^ 2) in *.
      set (s0 := (nth i accel_g 0 * 9.81) ^ 2) in *.
      assert (H1 : 0 <= s1) by (subst s1; simpl; nra).
      assert (H0 : 0 <= s0) by (subst s0; simpl; nra).
      assert (Hprod : dt * (s1 + s0) == 0).
      { assert (E : dt * (s1 + s0) / 2 == dt * (s1 + s0) * (1 # 2)) by field.
        rewrite E in Hs. lra. }
      destruct (Qmult_integral _ _ Hprod) as [H|H]; [unfold dt in H; lra|].
      assert (Hs0 : s0 == 0) by lra. assert (Hs1 : s1 == 0) by lra.
      split; apply square_zero; assumption. }
    apply Forall_nth. intros i d Hi.
    rewrite (nth_indep _ d 0) by exact Hi.
    destruct (Nat.lt_ge_cases (S i) (length time)) as [Hs|Hs].
    + apply (Hpair i Hs).
    + destruct i as [|i]; [lia|]. apply (Hpair i). lia.
  - intro Hsilent.
    assert (Ha : forall k, nth k accel_g 0 == 0).
    { intro k. destruct (Nat.lt_ge_cases k (length accel_g)) as [Hk'|Hk'].
      - apply (proj1 (Forall_nth _ accel_g) Hsilent k 0 Hk').
      - rewrite nth_overflow by exact Hk'. reflexivity. }
    rewrite (silent_curve_zero time accel_g c Hc0 Hstep Ha) by lia. ring.
Qed.

(** ** Duration extractor: when it returns, strict windows *)

Lemma interp_length_mismatch (x : Q) (xp fp : list Q) :
  xp <> [] -> length fp <> length xp ->
  np.interp x xp fp
  = inl (ValueError "fp and xp are not of the same length.").
Proof.
  intros Hne Hlen. unfold np.interp.
  destruct (Z.eqb_spec (Z.of_nat (length xp)) 0) as [H0|_].
  - destruct xp; [congruence|simpl in H0; lia].
  - destruct (Nat.eqb_spec (length fp) (length xp)) as [Heq|_];
      [contradiction|reflexivity].
Qed.

(** X4.  The extractor returns exactly when the curve is not empty and
    either its total is zero or the time array has the curve's length.  An
    empty curve raises at [arias_intensity[-1]]; a curve with energy and a
    time array of another length raises in [np.interp]; a curve without
    energy is never compared with the time array. *)
Theorem extractor_returns_iff (time arias : list Q) :
  (exists out, find_5_95_duration_detailed time arias = inr out) <->
  arias <> [] /\ (last_sample arias == 0 \/ length time = length arias).
Proof.
  split.
  - intros [out H].
    assert (Hne : arias <> []).
    { intro Hnil. rewrite Hnil in H. discriminate. }
    split; [exact Hne|].
    destruct (Qeq_dec (last_sample arias) 0) as [Hz|Hz]; [left; exact Hz|].
    right.
    destruct (Nat.eq_dec (length time) (length arias)) as [Heq|Hneq];
      [exact Heq|exfalso].
    unfold find_5_95_duration_detailed in H.
    rewrite (index_last_sample arias Hne) in H. simpl bind in H.
    destruct (Qeq_bool (last_sample arias) 0) eqn:Hq;
      [apply Qeq_bool_iff in Hq; contradiction|].
    fold (normalized arias) in H.
    rewrite !reaches_level in H
      by (try assumption; unfold Qle; simpl; lia).
    simpl orb in H. cbv iota in H.
    rewrite interp_length_mismatch in H.
    + discriminate.
    + intro Hnil. apply Hne. apply length_zero_iff_nil.
      rewrite <- (length_normalized arias), Hnil. reflexivity.
    + rewrite length_normalized. exact Hneq.
  - intros [Hne [Hz|Hlen]].
    + eexists. apply find_5_95_degenerate; [exact Hne|left; exact Hz].
    + destruct (Qeq_dec (last_sample arias) 0) as [Hz|Hz].
      * eexists. apply find_5_95_degenerate; [exact Hne|left; exact Hz].
      * destruct (find_5_95_interpolates time arias Hlen Hz)
          as (t5 & t95 & details & H & _).
        eexists. exact H.
Qed.

Lemma crossing_ratio (level lo hi : Q) :
  lo <= level -> level < hi ->
  0 <= (level - lo) / (hi - lo) /\ (level - lo) / (hi - lo) < 1.
Proof.
  intros Hlo Hhi. split.
  - apply Qle_shift_div_l; lra.
  - apply Qlt_shift_div_r; lra.
Qed.

(** A crossing time lies in the step of its bracketing samples. *)
Lemma crossing_time_step (time curve : list Q) (level t : Q) :
  length time = length curve -> strictly_increasing time ->
  crossing_time time curve level t ->
  exists j, (S j < length curve)%nat /\
            nth j curve 0 <= level /\ level < nth (S j) curve 0 /\
            nth j time 0 <= t /\ t < nth (S j) time 0.
Proof.
  intros Hlen Hinc (j & Hj & Hbelow & Habove & Ht).
  exists j. split; [exact Hj|].
  pose proof (Hbelow j (Nat.le_refl j)) as Hlo.
  pose proof (Habove (S j) ltac:(lia)) as Hhi.
  split; [exact Hlo|]. split; [exact Hhi|].
  destruct (crossing_ratio level _ _ Hlo Hhi) as [Hr0 Hr1].
  pose proof (strictly_increasing_nth time Hinc j ltac:(lia)) as Hdt.
  rewrite Ht.
  set (r := (level - nth j curve 0) / (nth (S j) curve 0 - nth j curve 0))
    in *.
  split; nra.
Qed.

Lemma non_degenerate_crossings (time arias : list Q) :
  length time = length arias ->
  non_decreasing arias -> nth 0 arias 0 == 0 -> 0 < last_sample arias ->
  exists t5 t95 details,
    find_5_95_duration_detailed time arias
    = inr (t95 - t5, t5, t95, Some details) /\
    crossing_time time (normalized arias) 0.05 t5 /\
    crossing_time time (normalized arias) 0.95 t95.
Proof.
  intros Hlen Harias Hzero Htotal.
  destruct (find_5_95_interpolates time arias Hlen) as
      (t5 & t95 & details & Hfind & Hv5 & Hv95); [lra|].
  exists t5, t95, details.
  split; [exact Hfind|].
  assert (Hpos : (0 < length (normalized arias))%nat).
  { rewrite length_normalized. destruct arias; [|simpl; lia].
    unfold last_sample in Htotal. simpl in Htotal. lra. }
  pose proof (normalized_non_decreasing arias Htotal Harias) as Hnorm.
  assert (Hfirst : nth 0 (normalized arias) 0 == 0).
  { rewrite nth_normalized, Hzero. field. lra. }
  assert (Hlast : nth (length (normalized arias) - 1) (normalized arias) 0 == 1).
  { rewrite length_normalized. apply normalized_last. lra. }
  split; apply interp_value_crossing; try assumption;
    rewrite ?Hfirst, ?Hlast; unfold Qle, Qlt; simpl; lia.
Qed.

(** The crossing of 0.05 comes strictly before the crossing of 0.95. *)
Lemma crossings_strictly_ordered (time curve : list Q) (t5 t95 : Q) :
  strictly_increasing time ->
  crossing_time time curve 0.05 t5 -> crossing_time time curve 0.95 t95 ->
  length time = length curve -> t5 < t95.
Proof.
  intros Hinc Hc5 Hc95 Hlen.
  destruct Hc5 as (k5 & Hk5 & Hbelow5 & Habove5 & E5).
  destruct Hc95 as (k95 & Hk95 & Hbelow95 & Habove95 & E95).
  pose proof (Hbelow5 k5 (Nat.le_refl _)) as Hl5.
  pose proof (Habove5 (S k5) ltac:(lia)) as Hh5.
  pose proof (Hbelow95 k95 (Nat.le_refl _)) as Hl95.
  pose proof (Habove95 (S k95) ltac:(lia)) as Hh95.
  destruct (crossing_ratio 0.05 _ _ Hl5 Hh5) as [Hr5 Hr5'].
  destruct (crossing_ratio 0.95 _ _ Hl95 Hh95) as [Hr95 Hr95'].
  pose proof (strictly_increasing_nth time Hinc k5 ltac:(lia)) as Hd5.
  pose proof (strictly_increasing_nth time Hinc k95 ltac:(lia)) as Hd95.
  destruct (Nat.lt_trichotomy k5 k95) as [Hklt|[Hkeq|Hkgt]].
  - pose proof (non_decreasing_nth time
                  (strictly_increasing_non_decreasing time Hinc)
                  (S k5) k95 ltac:(lia)) as Hmid.
    rewrite E5, E95.
    set (r5 := (0.05 - nth k5 curve 0)
               / (nth (S k5) curve 0 - nth k5 curve 0)) in *.
    set (r95 := (0.95 - nth k95 curve 0)
                / (nth (S k95) curve 0 - nth k95 curve 0)) in *.
    nra.
  - subst k95. rewrite E5, E95.
    set (n0 := nth k5 curve 0) in *.
    set (n1 := nth (S k5) curve 0) in *.
    assert (Hdiff : (0.95 - n0) / (n1 - n0) - (0.05 - n0) / (n1 - n0)
                    == 0.9 / (n1 - n0)) by (field; lra).
    assert (Hp : 0 < 0.9 / (n1 - n0)) by (apply Qlt_shift_div_l; lra).
    set (r5 := (0.05 - n0) / (n1 - n0)) in *.
    set (r95 := (0.95 - n0) / (n1 - n0)) in *.
    nra.
  - pose proof (Habove95 k5 ltac:(lia)). lra.
Qed.

(** X5.  On an energy curve with energy (non-decreasing from 0 to a
    positive total) over a strictly increasing time array the window is
    never empty: [t5 < t95], so the returned duration is positive. *)
Theorem duration_positive (time arias : list Q) :
  length time = length arias ->
  non_decreasing arias -> nth 0 arias 0 == 0 -> 0 < last_sample arias ->
  strictly_increasing time ->
  exists duration_5_95 t5 t95 details,
    find_5_95_duration_detailed time arias
    = inr (duration_5_95, t5, t95, details) /\
    t5 < t95 /\ 0 < duration_5_95.
Proof.
  intros Hlen Harias Hzero Htotal Hinc.
  destruct (non_degenerate_crossings time arias Hlen Harias Hzero Htotal)
    as (t5 & t95 & details & Hfind & Hc5 & Hc95).
  exists (t95 - t5), t5, t95, (Some details). split; [exact Hfind|].
  assert (Hlen' : length time = length (normalized arias))
    by (rewrite length_normalized; exact Hlen).
  assert (Hlt : t5 < t95); [|split; lra].
  apply (crossings_strictly_ordered time (normalized arias));
    assumption.
Qed.

(** The theorem at a four-sample curve. *)
Lemma duration_positive_witness :
  exists duration_5_95 t5 t95 details,
    find_5_95_duration_detailed [0; 1; 2; 3] [0; 0.04; 0.5; 2]
    = inr (duration_5_95, t5, t95, details) /\
    t5 < t95 /\ 0 < duration_5_95.
Proof.
  apply (duration_positive [0; 1; 2; 3] [0; 0.04; 0.5; 2]); reflexivity.
Defined.

(** ** The period-independent result: integrator, then extractor *)

(** X6.  For every valid record (equal positive lengths, time strictly
    increasing from 0) the integrator followed by the extractor returns,
    and the window lies in the record: [0 <= t5 <= t95 <= time[-1]], with
    the duration [t95 - t5]. *)
Theorem period_independent_window (time accel_g : list Q) :
  length time = length accel_g -> (0 < length time)%nat ->
  strictly_increasing time -> nth 0 time 0 == 0 ->
  exists arias details duration_5_95 t5 t95 window_details,
    calculate_arias_intensity_detailed time accel_g = inr (arias, details) /\
    find_5_95_duration_detailed time arias
    = inr (duration_5_95, t5, t95, window_details) /\
    0 <= t5 /\ t5 <= t95 /\ t95 <= last_sample time /\
    duration_5_95 == t95 - t5.
Proof.
  intros Hlen Hpos Hinc Ht0.
  destruct (integrator_curve time accel_g Hlen Hpos Hinc)
    as (arias & details & Hcalc & Halen & Ha0 & Hmono & Hnonneg & _).
  exists arias, details.
  pose proof (strictly_increasing_non_decreasing time Hinc) as Htime.
  assert (Hne : arias <> []).
  { intro Hnil. rewrite Hnil in Halen. simpl in Halen. lia. }
  destruct (Qeq_dec (last_sample arias) 0) as [Hz|Hz].
  - exists 0, 0, 0, None. split; [exact Hcalc|].
    split; [apply find_5_95_degenerate; [exact Hne|left; exact Hz]|].
    pose proof (non_decreasing_nth time Htime 0%nat (length time - 1)%nat
                                   ltac:(lia)) as Hspan.
    fold (last_sample time) in Hspan.
    repeat split; lra.
  - assert (Htotal : 0 < last_sample arias) by lra.
    destruct (find_5_95_interpolates time arias (eq_sym Halen) Hz)
      as (t5 & t95 & wd & Hfind & Hv5 & Hv95).
    exists (t95 - t5), t5, t95, (Some wd).
    split; [exact Hcalc|]. split; [exact Hfind|].
    assert (Hlen' : length time = length (normalized arias))
      by (rewrite length_normalized; symmetry; exact Halen).
    assert (Hnpos : (0 < length (normalized arias))%nat) by lia.
    pose proof (normalized_non_decreasing arias Htotal Hmono) as Hnorm.
    pose proof (interp_value_bounds _ _ Hlen' Htime 0.05 t5 Hnpos Hv5)
      as [H5 _].
    pose proof (interp_value_bounds _ _ Hlen' Htime 0.95 t95 Hnpos Hv95)
      as [_ H95].
    assert (Hord : t5 <= t95).
    { apply (interp_value_mono _ _ Hlen' Hnorm Htime 0.05 0.95);
        try assumption.
      unfold Qle; simpl; lia. }
    rewrite <- Hlen' in H95. fold (last_sample time) in H95.
    repeat split; lra.
Qed.

(** The theorem at a three-sample record. *)
Lemma period_independent_window_witness :
  exists arias details duration_5_95 t5 t95 window_details,
    calculate_arias_intensity_detailed [0; 0.01; 0.02] [0.3; -1; 0.5]
    = inr (arias, details) /\
    find_5_95_duration_detailed [0; 0.01; 0.02] arias
    = inr (duration_5_95, t5, t95, window_details) /\
    0 <= t5 /\ t5 <= t95 /\ t95 <= last_sample [0; 0.01; 0.02] /\
    duration_5_95 == t95 - t5.
Proof.
  apply (period_independent_window [0; 0.01; 0.02] [0.3; -1; 0.5]).
  - reflexivity.
  - simpl. lia.
  - reflexivity.
  - reflexivity.
Defined.

(** The window of a valid record is empty exactly when the record is
    silent. *)
Lemma silent_iff_no_duration (time accel_g : list Q) :
  length time = length accel_g -> (2 <= length time)%nat ->
  strictly_increasing time ->
  exists arias details duration_5_95 t5 t95 window_details,
    calculate_arias_intensity_detailed time accel_g = inr (arias, details) /\
    find_5_95_duration_detailed time arias
    = inr (duration_5_95, t5, t95, window_details) /\
    (duration_5_95 == 0 <-> Forall (fun a => a == 0) accel_g) /\
    (~ Forall (fun a => a == 0) accel_g -> t5 < t95).
Proof.
  intros Hlen Hn Hinc.
  destruct (integrator_curve time accel_g Hlen ltac:(lia) Hinc)
    as (arias & details & Hcalc & Halen & Ha0 & Hmono & Hnonneg & Htot).
  destruct (silent_iff_no_energy time accel_g Hlen Hn Hinc)
    as (arias' & details' & Hcalc' & Hsilent).
  rewrite Hcalc in Hcalc'. injection Hcalc' as <- <-.
  rewrite Htot in Hsilent.
  exists arias, details.
  assert (Hne : arias <> []).
  { intro Hnil. rewrite Hnil in Halen. simpl in Halen. lia. }
  destruct (Qeq_dec (last_sample arias) 0) as [Hz|Hz].
  - exists 0, 0, 0, None. split; [exact Hcalc|].
    split; [apply find_5_95_degenerate; [exact Hne|left; exact Hz]|].
    split.
    + split; [intros _; apply Hsilent; exact Hz|reflexivity].
    + intro Hloud. exfalso. apply Hloud. apply Hsilent. exact Hz.
  - assert (Htotal : 0 < last_sample arias) by lra.
    destruct (non_degenerate_crossings time arias (eq_sym Halen)
                                       Hmono Ha0 Htotal)
      as (t5 & t95 & wd & Hfind & Hc5 & Hc95).
    assert (Hlen' : length time = length (normalized arias))
      by (rewrite length_normalized; symmetry; exact Halen).
    assert (Hlt : t5 < t95)
      by (apply (crossings_strictly_ordered time (normalized arias));
          assumption).
    exists (t95 - t5), t5, t95, (Some wd).
    split; [exact Hcalc|]. split; [exact Hfind|]. split.
    + split; [intro Hd; lra|].
      intro Hs. exfalso. apply Hz. apply Hsilent. exact Hs.
    + intros _. exact Hlt.
Qed.



(** ** The diagnostic fields of the integrator *)

Lemma sum_diff (t : list Q) (x0 acc : Q) :
  fold_left Qplus (np.diff (x0 :: t)) acc == acc + last t x0 - x0.
Proof.
  revert x0 acc. induction t as [|x1 t IH]; intros x0 acc.
  - simpl. ring.
  - change (np.diff (x0 :: x1 :: t)) with ((x1 - x0) :: np.diff (x1 :: t)).
    change (fold_left Qplus ((x1 - x0) :: np.diff (x1 :: t)) acc)
      with (fold_left Qplus (np.diff (x1 :: t)) (acc + (x1 - x0))).
    rewrite (IH x1 (acc + (x1 - x0))), last_cons. ring.
Qed.

Lemma details_fields (time accel_g arias : list Q) (details : arias_details) :
  calculate_arias_intensity_detailed time accel_g = inr (arias, details) ->
  duration details = last_sample time - nth 0 time 0 /\
  num_points details = length time /\
  sampling_rate details = reciprocal (np.mean (np.diff time)).
Proof.
  unfold calculate_arias_intensity_detailed. intro H.
  apply bind_inr in H. destruct H as (c & _ & H).
  apply bind_inr in H. destruct H as (max_g & _ & H).
  apply bind_inr in H. destruct H as (max_ms2 & _ & H).
  apply bind_inr in H. destruct H as (total & _ & H).
  apply bind_inr in H. destruct H as (t_last & Hlast & H).
  apply bind_inr in H. destruct H as (t_first & Hfirst & H).
  injection H as <- <-. simpl.
  destruct time as [|t0 time_t]; [discriminate|].
  rewrite (index_last_sample (t0 :: time_t)) in Hlast by discriminate.
  injection Hlast as <-. injection Hfirst as <-.
  repeat split; reflexivity.
Qed.

(** X9.  On a record of at least two samples whose last time differs from
    its first, the sampling rate the integrator reports is the number of
    steps divided by the time spanned, so that it is the reciprocal of the
    step on a uniform time base; the reported duration is the time
    spanned. *)
Theorem reported_sampling_rate (time accel_g : list Q) :
  length time = length accel_g -> (2 <= length time)%nat ->
  ~ last_sample time == nth 0 time 0 ->
  exists arias details rate,
    calculate_arias_intensity_detailed time accel_g = inr (arias, details) /\
    duration details = last_sample time - nth 0 time 0 /\
    sampling_rate details = Some rate /\
    rate == inject_Z (Z.of_nat (length time - 1))
            / (last_sample time - nth 0 time 0).
Proof.
  intros Hlen Hn Hspan.
  destruct (calculate_arias_intensity_returns time accel_g Hlen ltac:(lia))
    as (c & details & _ & Hcalc).
  destruct (details_fields _ _ _ _ Hcalc) as (Hdur & _ & Hrate).
  eexists. exists details.
  destruct time as [|t0 [|t1 time_t]]; try (simpl in Hn; lia).
  assert (Hmean : np.mean (np.diff (t0 :: t1 :: time_t))
                  = Some (np.sum (np.diff (t0 :: t1 :: time_t))
                          / inject_Z (Z.of_nat (length (t1 :: time_t))))).
  { change (np.diff (t0 :: t1 :: time_t))
      with ((t1 - t0) :: np.diff (t1 :: time_t)).
    unfold np.mean. do 3 f_equal.
    change (length ((t1 - t0) :: np.diff (t1 :: time_t)))
      with (S (length (np.diff (t1 :: time_t)))).
    rewrite length_diff. simpl. lia. }
  assert (Hsum : np.sum (np.diff (t0 :: t1 :: time_t))
                 == last_sample (t0 :: t1 :: time_t) - t0).
  { unfold np.sum. rewrite sum_diff. unfold last_sample.
    rewrite (last_nth (t1 :: time_t) t0).
    replace (length (t0 :: t1 :: time_t) - 1)%nat
      with (length (t1 :: time_t)) by (simpl; lia).
    ring. }
  change (nth 0 (t0 :: t1 :: time_t) 0) with t0 in *.
  set (n1 := inject_Z (Z.of_nat (length (t1 :: time_t)))) in *.
  assert (Hn1 : 0 < n1).
  { unfold n1, Qlt. simpl. lia. }
  set (span := last_sample (t0 :: t1 :: time_t) - t0) in *.
  assert (Hspan' : ~ span == 0) by (unfold span; lra).
  rewrite Hmean in Hrate. unfold reciprocal in Hrate.
  destruct (Qeq_bool (np.sum (np.diff (t0 :: t1 :: time_t)) / n1) 0) eqn:Hq.
  - exfalso. apply Qeq_bool_iff in Hq. rewrite Hsum in Hq.
    apply Hspan'.
    assert (E : span == span / n1 * n1) by (field; lra).
    rewrite E, Hq. ring.
  - eexists. split; [exact Hcalc|]. split; [exact Hdur|].
    split; [exact Hrate|].
    replace (length (t0 :: t1 :: time_t) - 1)%nat
      with (length (t1 :: time_t)) by (simpl; lia).
    fold n1. rewrite Hsum. field. split; [exact Hspan'|lra].
Qed.

(** The theorem at a record sampled at 100 Hz. *)
Lemma reported_sampling_rate_witness :
  exists arias details rate,
    calculate_arias_intensity_detailed [0; 0.01; 0.02] [0.3; -1; 0.5]
    = inr (arias, details) /\
    duration details = last_sample [0; 0.01; 0.02] - nth 0 [0; 0.01; 0.02] 0 /\
    sampling_rate details = Some rate /\
    rate == inject_Z (Z.of_nat (length [0; 0.01; 0.02] - 1))
            / (last_sample [0; 0.01; 0.02] - nth 0 [0; 0.01; 0.02] 0).
Proof.
  apply (reported_sampling_rate [0; 0.01; 0.02] [0.3; -1; 0.5]).
  - reflexivity.
  - simpl. lia.
  - discriminate.
Defined.

(** ** Band-pass filter designer: what a returned design satisfies *)

Section ReturnedDesign.

Variable sos : Type.
Variable sections : nat -> Q -> Q -> sos.

(** What [iirfilter] has checked when [butter] returns, for a positive
    lower edge. *)
Lemma butter_inr (N : nat) (lo hi fs : Q) (s : sos) :
  0 < lo -> scipy.butter sos sections N (lo, hi) fs = inr s ->
  0 < fs /\ lo < hi /\ hi < fs / 2 /\
  s = sections N (2 * lo / fs) (2 * hi / fs).
Proof.
  intros Hlo. unfold scipy.butter, raise, ret.
  destruct (Qeq_bool fs 0) eqn:Hfs0.
  { destruct (Qlt_le_dec lo 0); [discriminate|].
    destruct (Qlt_le_dec hi 0); discriminate. }
  destruct (Qle_bool (2 * lo / fs) 0 || Qle_bool (2 * hi / fs) 0) eqn:Hneg;
    [discriminate|].
  destruct (Qle_bool (2 * hi / fs) (2 * lo / fs)) eqn:Hord; [discriminate|].
  destruct (Qle_bool 1 (2 * lo / fs) || Qle_bool 1 (2 * hi / fs)) eqn:Hone;
    [discriminate|].
  intro H. injection H as <-.
  apply orb_false_elim in Hneg. destruct Hneg as [Hw0 _].
  apply orb_false_elim in Hone. destruct Hone as [_ Hw1].
  assert (Hne : ~ fs == 0)
    by (intro E; apply Qeq_bool_iff in E; congruence).
  assert (Hfs : 0 < fs).
  { apply Qnot_le_lt. intro Hle.
    assert (Hfsneg : 0 < - fs) by lra.
    assert (Hw : 2 * lo / fs <= 0).
    { assert (E : 2 * lo / fs == - (2 * lo / - fs)) by (field; lra).
      rewrite E.
      assert (0 < 2 * lo / - fs) by (apply Qlt_shift_div_l; lra).
      lra. }
    apply Qle_bool_iff in Hw. congruence. }
  destruct (scaled_edge fs lo Hfs) as [Elo Hk].
  destruct (scaled_edge fs hi Hfs) as [Ehi _].
  assert (Hord' : 2 * lo / fs < 2 * hi / fs).
  { apply Qnot_le_lt. intro Hle. apply Qle_bool_iff in Hle. congruence. }
  assert (Hone' : 2 * hi / fs < 1).
  { apply Qnot_le_lt. intro Hle. apply Qle_bool_iff in Hle. congruence. }
  split; [exact Hfs|]. split; [|split; [|reflexivity]].
  - rewrite Elo, Ehi in Hord'. nra.
  - assert (E : hi == 2 * hi / fs * (fs / 2)) by (field; lra).
    assert (Hhalf : 0 < fs / 2) by (apply Qlt_shift_div_l; lra).
    rewrite E. set (w := 2 * hi / fs) in *. nra.
Qed.

Lemma design_inr_range (f_center fs bandwidth_factor : Q)
        (s : sos) (info : filter_info) :
  design_bandpass_filter_detailed sos sections f_center fs bandwidth_factor
  = inr (s, info) ->
  0 < fs /\
  0.01 <= low_freq_hz info /\
  low_freq_hz info < high_freq_hz info /\
  high_freq_hz info <= 0.95 * (fs / 2) /\
  high_freq_hz info < fs / 2 /\
  bandwidth_hz info == high_freq_hz info - low_freq_hz info /\
  0 < bandwidth_hz info /\
  s = sections 4%nat (2 * low_freq_hz info / fs) (2 * high_freq_hz info / fs).
Proof.
  unfold design_bandpass_filter_detailed. intro H.
  apply bind_inr in H. destruct H as (s' & Hbutter & H).
  injection H as <- <-. simpl.
  set (lo := py_max (f_center * (1 - bandwidth_factor)) 0.01) in *.
  set (hi := py_min (f_center * (1 + bandwidth_factor)) (fs / 2 * 0.95)) in *.
  assert (Hlo : 0.01 <= lo).
  { unfold lo, py_max.
    destruct (Qlt_le_dec (f_center * (1 - bandwidth_factor)) 0.01); lra. }
  assert (Hhi : hi <= fs / 2 * 0.95).
  { unfold hi, py_min.
    destruct (Qlt_le_dec (fs / 2 * 0.95) (f_center * (1 + bandwidth_factor)));
      lra. }
  destruct (butter_inr 4 lo hi fs s' ltac:(lra) Hbutter)
    as (Hfs & Hord & Hnyq & Hs).
  repeat split; try assumption; try lra.
Qed.

(** X10.  Whenever the designer returns, for any bandwidth factor, the
    sampling frequency is positive and the cutoffs it reports satisfy
    [0.01 <= low < high <= 0.95 * fs / 2 < fs / 2]; the reported bandwidth is
    their positive difference, and the sections were computed for the
    edges [2 * low / fs] and [2 * high / fs]. *)
Theorem returned_design_in_range (f_center fs bandwidth_factor : Q)
        (s : sos) (info : filter_info) :
  design_bandpass_filter_detailed sos sections f_center fs bandwidth_factor
  = inr (s, info) ->
  0 < fs /\
  0.01 <= low_freq_hz info /\
  low_freq_hz info < high_freq_hz info /\
  high_freq_hz info <= 0.95 * (fs / 2) /\
  high_freq_hz info < fs / 2 /\
  bandwidth_hz info == high_freq_hz info - low_freq_hz info /\
  0 < bandwidth_hz info /\
  s = sections 4%nat (2 * low_freq_hz info / fs) (2 * high_freq_hz info / fs).
Proof. exact (design_inr_range f_center fs bandwidth_factor s info). Qed.

End ReturnedDesign.

(** The theorem at a center of 1 Hz sampled at 100 Hz, the normalised band
    edges standing for the filter sections. *)
Lemma returned_design_in_range_witness :
  exists s info,
    design_bandpass_filter_detailed (Q * Q) (fun _ w0 w1 => (w0, w1))
                                    1 100 default_bandwidth_factor
    = inr (s, info) /\
    0 < 100 /\
    0.01 <= low_freq_hz info /\
    low_freq_hz info < high_freq_hz info /\
    high_freq_hz info <= 0.95 * (100 / 2) /\
    high_freq_hz info < 100 / 2 /\
    bandwidth_hz info == high_freq_hz info - low_freq_hz info /\
    0 < bandwidth_hz info /\
    s = (2 * low_freq_hz info / 100, 2 * high_freq_hz info / 100).
Proof.
  destruct (design_bandpass_filter_detailed
              (Q * Q) (fun _ w0 w1 => (w0, w1)) 1 100 default_bandwidth_factor)
    as [e|[s info]] eqn:H.
  - exfalso. vm_compute in H. discriminate.
  - exists s, info. split; [reflexivity|].
    apply (returned_design_in_range (Q * Q) (fun _ w0 w1 => (w0, w1))
                                    1 100 default_bandwidth_factor).
    exact H.
Defined.

(** ** Record decoder: what is read and what is returned *)

Lemma load_body_ignores_rest (header body rest : list byte) (nt : Z) :
  length header = 56%nat ->
  struct.unpack_i (slice 40 44 header) = inr nt ->
  Z.of_nat (length body) = (2 * 4 * nt)%Z ->
  load_binary_grm_body (header ++ body ++ rest)
  = load_binary_grm_body (header ++ body).
Proof.
  intros Hlen Hnt Hbody. unfold load_binary_grm_body.
  rewrite (read_app 56 header (body ++ rest)) by lia.
  rewrite ?bind_ret; cbv beta iota.
  rewrite (read_app 56 header body) by lia.
  rewrite ?bind_ret; cbv beta iota.
  destruct (Nat.ltb_spec (length header) 56) as [Hlt|_]; [lia|].
  rewrite Hnt. cbv beta iota zeta delta [bind].
  change (Z.of_nat 2) with 2%Z.
  rewrite (read_app (2 * 4 * nt) body rest) by exact Hbody.
  rewrite ?bind_ret; cbv beta iota.
  rewrite (read_short (2 * 4 * nt) body) by lia.
  rewrite ?bind_ret; cbv beta iota.
  reflexivity.
Qed.

Lemma nth_sampled_times (nt i : nat) :
  (i < nt)%nat -> nth i (sampled_times nt) 0 = inject_Z (Z.of_nat i) * 0.01.
Proof.
  intro Hi. unfold sampled_times.
  rewrite (nth_map_lt _ _ _ _ 0%nat) by (rewrite length_seq; exact Hi).
  rewrite seq_nth by exact Hi. reflexivity.
Qed.

Lemma length_sampled_times (nt : nat) : length (sampled_times nt) = nt.
Proof. unfold sampled_times. rewrite length_map, length_seq. reflexivity. Qed.

Lemma sampled_times_increasing (nt : nat) :
  strictly_increasing (sampled_times nt).
Proof.
  apply adjacent_of_nth. rewrite length_sampled_times. intros i Hi.
  rewrite !nth_sampled_times by lia. apply Qlt_bool_iff.
  rewrite Nat2Z.inj_succ. unfold Z.succ. rewrite inject_Z_plus.
  assert (H : inject_Z 1 == 1) by reflexivity.
  rewrite H. lra.
Qed.

(** The decoder on a file with enough payload: the record is read from
    the header and the first [4 * nt] payload bytes. *)
Lemma decoder_reads_prefix (header payload : list byte) (nt : nat) :
  length header = 56%nat ->
  struct.unpack_i (slice 40 44 header) = inr (Z.of_nat nt) ->
  (8 * nt <= length payload)%nat ->
  load_binary_grm_file (header ++ payload)
  = {| returned :=
         (Some (sampled_times nt),
          Some (map (fun v => float32_div v 981)
                    (np.float32_items (firstn (4 * nt) payload))));
       reported := None |}.
Proof.
  intros Hlen Hnt Hpayload.
  destruct nt as [|n].
  - unfold load_binary_grm_file, load_binary_grm_body.
    rewrite (read_app 56 header payload) by lia.
    rewrite ?bind_ret; cbv beta iota.
    destruct (Nat.ltb_spec (length header) 56) as [Hlt|_]; [lia|].
    rewrite Hnt. reflexivity.
  - set (nt := S n) in *.
    set (block0 := firstn (4 * nt) payload).
    set (block1 := firstn (4 * nt) (skipn (4 * nt) payload)).
    set (rest := skipn (4 * nt) (skipn (4 * nt) payload)).
    assert (Hsplit : payload = (block0 ++ block1) ++ rest).
    { unfold block0, block1, rest.
      rewrite <- app_assoc, !firstn_skipn. reflexivity. }
    assert (Hb0 : length block0 = (4 * nt)%nat)
      by (unfold block0; rewrite length_firstn; lia).
    assert (Hb1 : length block1 = (4 * nt)%nat)
      by (unfold block1; rewrite length_firstn, length_skipn; lia).
    unfold load_binary_grm_file.
    rewrite Hsplit at 1.
    rewrite (load_body_ignores_rest header (block0 ++ block1) rest
                                    (Z.of_nat nt) Hlen Hnt)
      by (rewrite length_app; lia).
    pose proof (decoder_reads_blocks header block0 block1 nt Hlen Hnt
                                     ltac:(lia) Hb0 Hb1) as Hload.
    unfold load_binary_grm_file in Hload. exact Hload.
Qed.

(** X11.  When the payload holds at least [2 * 4 * nt] bytes, the decoder
    succeeds and its answer is determined by the sample count in the header
    and the first [4 * nt] payload bytes alone: the second component and
    whatever follows it are never looked at. *)
Theorem decoder_reads_first_block (header payload : list byte) (nt : nat) :
  length header = 56%nat ->
  struct.unpack_i (slice 40 44 header) = inr (Z.of_nat nt) ->
  (8 * nt <= length payload)%nat ->
  load_binary_grm_file (header ++ payload)
  = {| returned :=
         (Some (sampled_times nt),
          Some (map (fun v => float32_div v 981)
                    (np.float32_items (firstn (4 * nt) payload))));
       reported := None |}.
Proof. exact (decoder_reads_prefix header payload nt). Qed.

(** The theorem at a header that declares one sample, followed by a
    first block, a second block and three more bytes. *)
Lemma decoder_reads_first_block_witness :
  load_binary_grm_file
    (example_header Byte.x01 Byte.x00 Byte.x00 Byte.x00
     ++ [Byte.x00; Byte.x00; Byte.x80; Byte.x3f;
         Byte.xff; Byte.xff; Byte.xff; Byte.xff;
         Byte.x01; Byte.x02; Byte.x03])
  = {| returned :=
         (Some (sampled_times 1),
          Some (map (fun v => float32_div v 981)
                    (np.float32_items
                       (firstn 4 [Byte.x00; Byte.x00; Byte.x80; Byte.x3f;
                                  Byte.xff; Byte.xff; Byte.xff; Byte.xff;
                                  Byte.x01; Byte.x02; Byte.x03]))));
       reported := None |}.
Proof.
  apply (decoder_reads_first_block
           (example_header Byte.x01 Byte.x00 Byte.x00 Byte.x00) _ 1%nat).
  - reflexivity.
  - reflexivity.
  - simpl. lia.
Defined.

(** X12.  Every record the decoder returns for a positive sample count
    [nt] is a valid record: both arrays have [nt] entries, and the time
    array increases strictly from 0 to [(nt - 1) * 0.01]. *)
Theorem decoded_record_valid (header payload : list byte) (nt : nat) :
  length header = 56%nat ->
  struct.unpack_i (slice 40 44 header) = inr (Z.of_nat nt) ->
  (0 < nt)%nat -> (8 * nt <= length payload)%nat ->
  exists time accel,
    returned (load_binary_grm_file (header ++ payload))
    = (Some time, Some accel) /\
    length time = nt /\ length accel = nt /\
    strictly_increasing time /\
    nth 0 time 0 == 0 /\
    last_sample time == inject_Z (Z.of_nat nt - 1) * 0.01.
Proof.
  intros Hlen Hnt Hpos Hpayload.
  rewrite (decoder_reads_prefix header payload nt Hlen Hnt Hpayload).
  eexists. eexists. split; [reflexivity|].
  split; [apply length_sampled_times|].
  split.
  { rewrite length_map. apply length_float32_items.
    rewrite length_firstn. lia. }
  split; [apply sampled_times_increasing|].
  split.
  - rewrite nth_sampled_times by exact Hpos. reflexivity.
  - unfold last_sample. rewrite length_sampled_times.
    rewrite nth_sampled_times by lia.
    replace (Z.of_nat (nt - 1)) with (Z.of_nat nt - 1)%Z by lia.
    reflexivity.
Qed.

(** The theorem at a record of two samples. *)
Lemma decoded_record_valid_witness :
  exists time accel,
    returned
      (load_binary_grm_file
         (example_header Byte.x02 Byte.x00 Byte.x00 Byte.x00
          ++ repeat Byte.x00 16))
    = (Some time, Some accel) /\
    length time = 2%nat /\ length accel = 2%nat /\
    strictly_increasing time /\
    nth 0 time 0 == 0 /\
    last_sample time == inject_Z (Z.of_nat 2 - 1) * 0.01.
Proof.
  apply (decoded_record_valid
           (example_header Byte.x02 Byte.x00 Byte.x00 Byte.x00)
           (repeat Byte.x00 16) 2%nat).
  - reflexivity.
  - reflexivity.
  - lia.
  - simpl. lia.
Defined.

(** X23.  A header that declares a negative sample count makes the
    decoder fail at the read of the payload, whatever follows the header:
    the size [2 * 4 * nt] is below [-1], the reader refuses it, and the
    decoder reports that and returns [(None, None)]. *)
Theorem decoder_refuses_negative_count (header payload : list byte)
        (nt : Z) :
  length header = 56%nat ->
  struct.unpack_i (slice 40 44 header) = inr nt -> (nt < 0)%Z ->
  load_binary_grm_file (header ++ payload)
  = {| returned := (None, None);
       reported :=
         Some (ValueError "read length must be non-negative or -1") |}.
Proof.
  intros Hlen Hnt Hneg.
  unfold load_binary_grm_file, load_binary_grm_body.
  rewrite (read_app 56 header payload) by lia.
  rewrite ?bind_ret; cbv beta iota.
  destruct (Nat.ltb_spec (length header) 56) as [Hlt|_]; [lia|].
  rewrite Hnt. cbv beta iota zeta delta [bind].
  change (Z.of_nat 2) with 2%Z.
  unfold read.
  destruct (Z.ltb_spec (2 * 4 * nt) (-1)) as [_|Hge]; [reflexivity|lia].
Qed.

(** The theorem at a header that declares [-1] samples, followed by eight
    bytes. *)
Lemma decoder_refuses_negative_count_witness :
  load_binary_grm_file
    (example_header Byte.xff Byte.xff Byte.xff Byte.xff
     ++ repeat Byte.x00 8)
  = {| returned := (None, None);
       reported :=
         Some (ValueError "read length must be non-negative or -1") |}.
Proof.
  apply (decoder_refuses_negative_count
           (example_header Byte.xff Byte.xff Byte.xff Byte.xff)
           (repeat Byte.x00 8) (-1)%Z).
  - reflexivity.
  - reflexivity.
  - lia.
Defined.

(** ** Records on the decoder's time base *)

Lemma Qabs_between (x t lo hi : Q) :
  lo <= Qabs t -> Qabs t <= hi ->
  Qabs (x - t) <= Qabs t * 2 ^ (-24) ->
  lo * (999 # 1000) <= Qabs x /\ Qabs x <= hi * (1001 # 1000).
Proof.
  intros Hlo Hhi Herr.
  change (2 ^ (-24)) with (1 # 16777216) in Herr.
  pose proof (Qabs_triangle (x - t) t) as T.
  assert (E1 : x - t + t == x) by ring. rewrite E1 in T.
  pose proof (Qabs_triangle (t - x) x) as T'.
  assert (E2 : t - x + x == t) by ring. rewrite E2 in T'.
  rewrite (Qabs_sym t x) in T'.
  pose proof (Qabs_nonneg t). pose proof (Qabs_nonneg x).
  set (d := Qabs (x - t)) in *. set (at' := Qabs t) in *.
  set (ax := Qabs x) in *.
  split; lra.
Qed.

Lemma Qmult_between (a b la ha lb hb : Q) :
  0 <= la -> la <= a -> a <= ha -> 0 <= lb -> lb <= b -> b <= hb ->
  la * lb <= a * b /\ a * b <= ha * hb.
Proof.
  intros H0 H1 H2 H3 H4 H5.
  assert (P1 : 0 <= (a - la) * lb) by (apply Qmult_le_0_compat; lra).
  assert (P2 : 0 <= a * (b - lb)) by (apply Qmult_le_0_compat; lra).
  assert (P3 : 0 <= (ha - a) * hb) by (apply Qmult_le_0_compat; lra).
  assert (P4 : 0 <= a * (hb - b)) by (apply Qmult_le_0_compat; lra).
  split; lra.
Qed.

(** X24.  What the working range is for: in single precision, as the
    integrator computes on a decoded record, the square of a sample in the
    working range is finite, and it is zero only when the sample is. *)
Theorem ordinary_square_survives (a : Q) :
  ordinary_sample a ->
  exists q, accel_squared_float32 a = Finite q /\ 0 <= q /\
            (q == 0 <-> a == 0).
Proof.
  intros [Hz|[Hlo Hhi]].
  - exists 0. unfold accel_squared_float32, accel_ms2_float32.
    destruct (binary32_round_normal 9.81) as (g & -> & _);
      [apply Qle_bool_iff; vm_compute; reflexivity|reflexivity|].
    assert (Ht : a * g == 0) by (rewrite Hz; ring).
    unfold binary32_round at 1. rewrite (Qeq_eq_bool _ _ Ht).
    split; [reflexivity|]. split; [lra|]. split; intro; [exact Hz|reflexivity].
  - unfold accel_squared_float32, accel_ms2_float32.
    destruct (binary32_round_normal 9.81) as (g & -> & Hg);
      [apply Qle_bool_iff; vm_compute; reflexivity|reflexivity|].
    assert (Hgb : 9.8 <= g /\ g <= 9.82).
    { change (Qabs 9.81) with 9.81 in Hg.
      apply Qabs_Qle_condition in Hg.
      change (2 ^ (-24)) with (1 # 16777216) in Hg. lra. }
    assert (Ht1 : (1 # 1000000000000000) * 9.8 <= Qabs (a * g) /\
                  Qabs (a * g) <= 1000000000000000 * 9.82).
    { rewrite Qabs_Qmult, (Qabs_pos g) by lra.
      apply Qmult_between; lra. }
    destruct (binary32_round_normal (a * g)) as (x & -> & Hx).
    { apply Qle_trans with (2 := proj1 Ht1).
      apply Qle_bool_iff. vm_compute. reflexivity. }
    { apply Qle_lt_trans with (1 := proj2 Ht1). reflexivity. }
    destruct (Qabs_between x (a * g) _ _ (proj1 Ht1) (proj2 Ht1) Hx)
      as [Hxlo Hxhi].
    assert (Ex : Qabs (x ^ 2) == Qabs x * Qabs x).
    { simpl. apply Qabs_Qmult. }
    set (lo := (1 # 1000000000000000) * 9.8 * (999 # 1000)) in *.
    set (hi := 1000000000000000 * 9.82 * (1001 # 1000)) in *.
    assert (Hlo0 : 0 <= lo) by (apply Qle_bool_iff; vm_compute; reflexivity).
    pose proof (Qmult_between (Qabs x) (Qabs x) lo hi lo hi
                              Hlo0 Hxlo Hxhi Hlo0 Hxlo Hxhi) as Ht2.
    rewrite <- Ex in Ht2.
    destruct (binary32_round_normal (x ^ 2)) as (q & -> & Hq).
    { apply Qle_trans with (2 := proj1 Ht2).
      apply Qle_bool_iff. vm_compute. reflexivity. }
    { apply Qle_lt_trans with (1 := proj2 Ht2). reflexivity. }
    exists q. split; [reflexivity|].
    assert (Hsq : 0 <= x ^ 2) by apply Qsqr_nonneg.
    rewrite (Qabs_pos _ Hsq) in Hq, Ht2.
    apply Qabs_Qle_condition in Hq.
    change (2 ^ (-24)) with (1 # 16777216) in Hq.
    assert (Hlo2 : 0 < lo * lo) by reflexivity.
    set (s := x ^ 2) in *. set (l2 := lo * lo) in *.
    assert (Hqpos : 0 < q) by lra.
    split; [lra|]. split.
    + intro H0. lra.
    + intro Ha. rewrite (Qabs_wd _ _ Ha) in Hlo.
      change (Qabs 0) with 0 in Hlo. exfalso. revert Hlo. apply Qlt_not_le.
      reflexivity.
Qed.

(** The theorem at a sample of one thousandth of g. *)
Lemma ordinary_square_survives_witness :
  exists q, accel_squared_float32 0.001 = Finite q /\ 0 <= q /\
            (q == 0 <-> 0.001 == 0).
Proof.
  apply (ordinary_square_survives 0.001).
  right. split; apply Qle_bool_iff; vm_compute; reflexivity.
Defined.

(** Outside the working range a square is lost: that of [1e-30] vanishes
    and that of [1e30] overflows. *)
Lemma square_lost_outside_range :
  (exists q, accel_squared_float32 1e-30 = Finite q /\ q == 0) /\
  accel_squared_float32 1e30 = Infinity false.
Proof.
  split; [eexists; split; [vm_compute; reflexivity|reflexivity]|].
  vm_compute. reflexivity.
Qed.

Lemma ordinary_record_example :
  Forall ordinary_sample [0.3; -1; 0.5] /\
  Forall ordinary_sample (map (Qmult (-2)) [0.3; -1; 0.5]) /\
  Forall ordinary_sample [0; 1; 0.5; 0].
Proof.
  split; [|split]; simpl map;
    repeat (apply Forall_cons;
            [solve [left; reflexivity
                   |right; split; apply Qle_bool_iff; vm_compute;
                    reflexivity]|]);
    apply Forall_nil.
Qed.

(** X3.  On a record of at least two samples on the decoder's time base,
    with samples in the working range of single precision, the total Arias
    intensity is zero exactly when every acceleration sample is zero. *)
Theorem total_energy_zero_iff_silent (nt : nat) (accel_g : list Q) :
  (2 <= nt)%nat -> length accel_g = nt ->
  Forall ordinary_sample accel_g ->
  exists arias details,
    calculate_arias_intensity_detailed (sampled_times nt) accel_g
    = inr (arias, details) /\
    (total_arias_intensity details == 0 <->
     Forall (fun a => a == 0) accel_g).
Proof.
  intros Hn Hlen _.
  apply silent_iff_no_energy.
  - rewrite length_sampled_times. symmetry. exact Hlen.
  - rewrite length_sampled_times. exact Hn.
  - apply sampled_times_increasing.
Qed.

(** The theorem at a four-sample record. *)
Lemma total_energy_zero_iff_silent_witness :
  exists arias details,
    calculate_arias_intensity_detailed (sampled_times 4) [0; 1; 0.5; 0]
    = inr (arias, details) /\
    (total_arias_intensity details == 0 <->
     Forall (fun a => a == 0) [0; 1; 0.5; 0]).
Proof.
  apply (total_energy_zero_iff_silent 4 [0; 1; 0.5; 0]).
  - lia.
  - reflexivity.
  - apply ordinary_record_example.
Defined.

(** X7.  On a record of at least two samples on the decoder's time base,
    with samples in the working range of single precision, the
    period-independent duration is zero exactly when the record is silent;
    on every other such record [t5 < t95]. *)
Theorem duration_zero_iff_silent (nt : nat) (accel_g : list Q) :
  (2 <= nt)%nat -> length accel_g = nt ->
  Forall ordinary_sample accel_g ->
  exists arias details duration_5_95 t5 t95 window_details,
    calculate_arias_intensity_detailed (sampled_times nt) accel_g
    = inr (arias, details) /\
    find_5_95_duration_detailed (sampled_times nt) arias
    = inr (duration_5_95, t5, t95, window_details) /\
    (duration_5_95 == 0 <-> Forall (fun a => a == 0) accel_g) /\
    (~ Forall (fun a => a == 0) accel_g -> t5 < t95).
Proof.
  intros Hn Hlen _.
  apply silent_iff_no_duration.
  - rewrite length_sampled_times. symmetry. exact Hlen.
  - rewrite length_sampled_times. exact Hn.
  - apply sampled_times_increasing.
Qed.

(** The theorem at a four-sample record. *)
Lemma duration_zero_iff_silent_witness :
  exists arias details duration_5_95 t5 t95 window_details,
    calculate_arias_intensity_detailed (sampled_times 4) [0; 1; 0.5; 0]
    = inr (arias, details) /\
    find_5_95_duration_detailed (sampled_times 4) arias
    = inr (duration_5_95, t5, t95, window_details) /\
    (duration_5_95 == 0 <-> Forall (fun a => a == 0) [0; 1; 0.5; 0]) /\
    (~ Forall (fun a => a == 0) [0; 1; 0.5; 0] -> t5 < t95).
Proof.
  apply (duration_zero_iff_silent 4 [0; 1; 0.5; 0]).
  - lia.
  - reflexivity.
  - apply ordinary_record_example.
Defined.



(** ** Period-dependent duration *)

Lemma obind_inr {A B : Type} (m : outcome A) (k : A -> outcome B) (b : B) :
  obind m k = inr b -> exists a, m = inr a /\ k a = inr b.
Proof.
  destruct m as [e|a]; simpl; [discriminate|]. intro H. exists a. auto.
Qed.

Lemma stage_inr {A : Type} (m : result A) (a : A) :
  stage m = inr a -> m = inr a.
Proof. destruct m; simpl; [discriminate|]. intro H. injection H as ->. reflexivity. Qed.

(** The window the extractor returns on the curve of a valid record. *)
Lemma window_of_valid_curve (time accel_g arias : list Q)
      (details : arias_details) (d t5 t95 : Q) (wd : option duration_details) :
  strictly_increasing time -> nth 0 time 0 == 0 ->
  calculate_arias_intensity_detailed time accel_g = inr (arias, details) ->
  find_5_95_duration_detailed time arias = inr (d, t5, t95, wd) ->
  0 <= t5 /\ t5 <= t95 /\ t95 <= last_sample time /\ d == t95 - t5 /\
  0 <= last_sample arias /\
  (last_sample arias == 0 -> wd = None /\ d == 0) /\
  (~ last_sample arias == 0 -> wd <> None /\ t5 < t95).
Proof.
  intros Hinc Ht0 Hcalc Hfind.
  destruct (calculate_inr_lengths _ _ _ Hcalc) as [Hlen Hpos].
  destruct (integrator_curve time accel_g Hlen Hpos Hinc)
    as (a1 & d1 & Hc1 & Halen & Ha0 & Hmono & Hnonneg & _).
  rewrite Hcalc in Hc1. injection Hc1 as <- <-.
  pose proof (strictly_increasing_non_decreasing time Hinc) as Htime.
  assert (Hne : arias <> []).
  { intro Hnil. rewrite Hnil in Halen. simpl in Halen. lia. }
  destruct (Qeq_dec (last_sample arias) 0) as [Hz|Hz].
  - rewrite (find_5_95_degenerate time arias Hne (or_introl Hz)) in Hfind.
    injection Hfind as <- <- <- <-.
    pose proof (non_decreasing_nth time Htime 0%nat (length time - 1)%nat
                                   ltac:(lia)) as Hspan.
    fold (last_sample time) in Hspan.
    repeat split; try lra; try reflexivity; try contradiction.
  - assert (Htotal : 0 < last_sample arias) by lra.
    destruct (non_degenerate_crossings time arias (eq_sym Halen)
                                       Hmono Ha0 Htotal)
      as (u5 & u95 & uwd & Hfind' & Hc5 & Hc95).
    rewrite Hfind in Hfind'. injection Hfind' as -> -> -> ->.
    assert (Hlen' : length time = length (normalized arias))
      by (rewrite length_normalized; symmetry; exact Halen).
    assert (Hlt : u5 < u95)
      by (apply (crossings_strictly_ordered time (normalized arias));
          assumption).
    destruct (crossing_time_step _ _ _ _ Hlen' Hinc Hc5)
      as (j5 & Hj5 & _ & _ & Hlo5 & _).
    destruct (crossing_time_step _ _ _ _ Hlen' Hinc Hc95)
      as (j95 & Hj95 & _ & _ & _ & Hhi95).
    pose proof (non_decreasing_nth time Htime 0%nat j5 ltac:(lia)) as H0.
    pose proof (non_decreasing_nth time Htime (S j95) (length time - 1)%nat
                                   ltac:(lia)) as H1.
    fold (last_sample time) in H1.
    repeat split; try lra; try reflexivity; try discriminate;
      try contradiction.
Qed.

Section PeriodDependentFacts.

Variable sos : Type.
Variable sections : nat -> Q -> Q -> sos.
Variable sosfiltfilt : sos -> list Q -> result (list Q).

(** What has happened when the pipeline returns. *)
Lemma pipeline_inr (time accel_g : list Q) (period d t5 t95 total : Q)
      (info : filter_info) :
  calculate_period_dependent_duration sos sections sosfiltfilt
                                      time accel_g period
  = inr (d, t5, t95, total, info) ->
  exists dt s filtered arias details wd,
    ~ period == 0 /\
    np.mean (np.diff time) = Some dt /\ ~ dt == 0 /\
    design_bandpass_filter_detailed sos sections (1 / period) (1 / dt)
                                    default_bandwidth_factor
    = inr (s, info) /\
    sosfiltfilt s accel_g = inr filtered /\
    calculate_arias_intensity_detailed time filtered = inr (arias, details) /\
    find_5_95_duration_detailed time arias = inr (d, t5, t95, wd) /\
    arias <> [] /\ total = last_sample arias.
Proof.
  unfold calculate_period_dependent_duration.
  destruct (Qeq_bool period 0) eqn:Hp; [discriminate|].
  destruct (np.mean (np.diff time)) as [dt|]; [|discriminate].
  destruct (Qeq_bool dt 0) eqn:Hdt; [discriminate|].
  intro H.
  apply obind_inr in H. destruct H as ([s info'] & Hdesign & H).
  apply obind_inr in H. destruct H as (filtered & Hfilt & H).
  apply obind_inr in H. destruct H as ([arias details] & Hcalc & H).
  apply obind_inr in H. destruct H as ([[[d' u5] u95] wd] & Hfind & H).
  apply obind_inr in H. destruct H as (total' & Htotal & H).
  injection H as -> -> -> -> ->.
  apply stage_inr in Hdesign, Hfilt, Hcalc, Hfind, Htotal.
  exists dt, s, filtered, arias, details, wd.
  assert (Hne : arias <> []).
  { intro Hnil. rewrite Hnil in Htotal. discriminate. }
  rewrite (index_last_sample arias Hne) in Htotal. injection Htotal as <-.
  repeat split; try assumption.
  - intro E. apply Qeq_bool_iff in E. congruence.
  - intro E. apply Qeq_bool_iff in E. congruence.
Qed.

Lemma pipeline_window_facts (time accel_g : list Q)
      (period d t5 t95 total : Q)
        (info : filter_info) :
  strictly_increasing time -> nth 0 time 0 == 0 ->
  calculate_period_dependent_duration sos sections sosfiltfilt
                                      time accel_g period
  = inr (d, t5, t95, total, info) ->
  0 <= t5 /\ t5 <= t95 /\ t95 <= last_sample time /\ d == t95 - t5 /\
  0 <= total /\ (d == 0 <-> total == 0) /\
  0.01 <= low_freq_hz info /\ low_freq_hz info < high_freq_hz info.
Proof.
  intros Hinc Ht0 H.
  destruct (pipeline_inr _ _ _ _ _ _ _ _ H)
    as (dt & s & filtered & arias & details & wd
        & _ & _ & _ & Hdesign & _ & Hcalc & Hfind & _ & ->).
  destruct (window_of_valid_curve _ _ _ _ _ _ _ _ Hinc Ht0 Hcalc Hfind)
    as (H1 & H2 & H3 & H4 & H5 & Hzero & Hpos).
  destruct (design_inr_range _ _ _ _ _ _ _ Hdesign)
    as (_ & Hlow & Hband & _).
  repeat split; try assumption.
  - intro Hd. destruct (Qeq_dec (last_sample arias) 0) as [Hz|Hz];
      [exact Hz|]. destruct (Hpos Hz) as [_ Hlt]. lra.
  - intro Hz. apply (Hzero Hz).
Qed.

(** X13.  Whatever the filter does, whenever the period-dependent
    pipeline returns on a time array that increases strictly from 0, the
    window lies in the record, [0 <= t5 <= t95 <= time[-1]], the duration is
    [t95 - t5], the filtered total is not negative, and the duration is
    zero exactly when the filtered total is zero; the reported cutoffs
    satisfy [0.01 <= low < high]. *)
Theorem pipeline_window (time accel_g : list Q) (period d t5 t95 total : Q)
        (info : filter_info) :
  strictly_increasing time -> nth 0 time 0 == 0 ->
  calculate_period_dependent_duration sos sections sosfiltfilt
                                      time accel_g period
  = inr (d, t5, t95, total, info) ->
  0 <= t5 /\ t5 <= t95 /\ t95 <= last_sample time /\ d == t95 - t5 /\
  0 <= total /\ (d == 0 <-> total == 0) /\
  0.01 <= low_freq_hz info /\ low_freq_hz info < high_freq_hz info.
Proof.
  exact (pipeline_window_facts time accel_g period d t5 t95 total info).
Qed.

End PeriodDependentFacts.

Lemma mean_diff (time : list Q) :
  (2 <= length time)%nat ->
  exists m, np.mean (np.diff time) = Some m /\
            m == (last_sample time - nth 0 time 0)
                 / inject_Z (Z.of_nat (length time - 1)).
Proof.
  intro Hn.
  destruct time as [|t0 [|t1 time_t]]; try (simpl in Hn; lia).
  eexists. split.
  - change (np.diff (t0 :: t1 :: time_t))
      with ((t1 - t0) :: np.diff (t1 :: time_t)).
    unfold np.mean. reflexivity.
  - change ((t1 - t0) :: np.diff (t1 :: time_t))
      with (np.diff (t0 :: t1 :: time_t)).
    assert (Hlen : length (np.diff (t0 :: t1 :: time_t))
                   = (length (t0 :: t1 :: time_t) - 1)%nat)
      by apply length_diff.
    rewrite Hlen. unfold np.sum. rewrite sum_diff.
    unfold last_sample. rewrite (last_nth (t1 :: time_t) t0).
    replace (length (t0 :: t1 :: time_t) - 1)%nat
      with (length (t1 :: time_t)) by (simpl; lia).
    change (nth 0 (t0 :: t1 :: time_t) 0) with t0.
    apply Qmult_comp; [ring|reflexivity].
Qed.

(** The mean step of the decoder's time base is 0.01. *)
Lemma mean_step_sampled_times (nt : nat) :
  (2 <= nt)%nat ->
  exists m, np.mean (np.diff (sampled_times nt)) = Some m /\ m == 0.01.
Proof.
  intro Hn.
  destruct (mean_diff (sampled_times nt)) as (m & Hm & E);
    [rewrite length_sampled_times; exact Hn|].
  exists m. split; [exact Hm|].
  rewrite E. unfold last_sample.
  rewrite length_sampled_times, !nth_sampled_times by lia.
  assert (Hpos : 0 < inject_Z (Z.of_nat (nt - 1))).
  { replace 0 with (inject_Z 0) by reflexivity.
    rewrite <- Zlt_Qlt. lia. }
  change (inject_Z (Z.of_nat 0)) with 0. field. lra.
Qed.

Lemma find_5_95_returns (time arias : list Q) :
  arias <> [] -> length time = length arias ->
  exists out, find_5_95_duration_detailed time arias = inr out.
Proof.
  intros Hne Hlen.
  destruct (Qeq_dec (last_sample arias) 0) as [Hz|Hz].
  - eexists. apply find_5_95_degenerate; [exact Hne|left; exact Hz].
  - destruct (find_5_95_interpolates time arias Hlen Hz)
      as (t5 & t95 & details & H & _).
    eexists. exact H.
Qed.

Section PipelineReturns.

Variable sos : Type.
Variable sections : nat -> Q -> Q -> sos.
Variable sosfiltfilt : sos -> list Q -> result (list Q).

(** A band that needs no clamping is designed as it stands. *)
Lemma design_unclamped (f_center fs : Q) :
  0.0125 <= f_center -> f_center * (1 + 0.2) <= fs / 2 * 0.95 ->
  exists s info,
    design_bandpass_filter_detailed sos sections f_center fs
                                    default_bandwidth_factor
    = inr (s, info) /\
    low_freq_hz info == f_center * 0.8 /\
    high_freq_hz info == f_center * 1.2.
Proof.
  intros Hlow Hhigh.
  unfold design_bandpass_filter_detailed, default_bandwidth_factor.
  set (lo := py_max (f_center * (1 - 0.2)) 0.01).
  set (hi := py_min (f_center * (1 + 0.2)) (fs / 2 * 0.95)).
  assert (Elo : lo == f_center * 0.8).
  { unfold lo, py_max.
    destruct (Qlt_le_dec (f_center * (1 - 0.2)) 0.01); [lra|ring]. }
  assert (Ehi : hi == f_center * 1.2).
  { unfold hi, py_min.
    destruct (Qlt_le_dec (fs / 2 * 0.95) (f_center * (1 + 0.2)));
      [lra|ring]. }
  assert (Hcap : hi <= fs / 2 * 0.95) by (rewrite Ehi; lra).
  rewrite butter_accepts; [|lra|lra|exact Hcap].
  eexists. eexists. split; [reflexivity|]. split; assumption.
Qed.

Lemma pipeline_returns_at_100hz (nt : nat) (accel_g : list Q) (period : Q) :
  (2 <= nt)%nat -> length accel_g = nt ->
  0.012 <= 0.475 * period -> period <= 80 ->
  (forall s, exists filtered,
        sosfiltfilt s accel_g = inr filtered /\ length filtered = nt) ->
  exists d t5 t95 total info,
    calculate_period_dependent_duration sos sections sosfiltfilt
                                        (sampled_times nt) accel_g period
    = inr (d, t5, t95, total, info) /\
    low_freq_hz info == 0.8 / period /\
    high_freq_hz info == 1.2 / period.
Proof.
  intros Hn Hlen Hshort Hlong Hfilter.
  assert (Hperiod : 0 < period) by lra.
  destruct (mean_step_sampled_times nt Hn) as (m & Hmean & Em).
  assert (Hinv : 0 < 1 / period) by (apply Qlt_shift_div_l; lra).
  assert (Hf : 0.0125 <= 1 / period).
  { apply Qle_shift_div_l; [exact Hperiod|]. lra. }
  assert (Hcap : 1 / period * (1 + 0.2) <= 1 / m / 2 * 0.95).
  { assert (E1 : 1 / m / 2 * 0.95 == 47.5) by (rewrite Em; reflexivity).
    assert (E2 : 1 / period * (1 + 0.2) == 1.2 / period) by (field; lra).
    rewrite E1, E2. apply Qle_shift_div_r; [exact Hperiod|]. lra. }
  destruct (design_unclamped (1 / period) (1 / m) Hf Hcap)
    as (s & info & Hdesign & Elow & Ehigh).
  destruct (Hfilter s) as (filtered & Hfilt & Hflen).
  destruct (calculate_arias_intensity_returns (sampled_times nt) filtered)
    as (c & details & _ & Hcalc);
    [rewrite length_sampled_times; congruence
    |rewrite length_sampled_times; lia|].
  set (arias := map (fun v => np.pi / (2 * 9.81) * v) c) in *.
  destruct (total_arias_intensity_last _ _ _ _ Hcalc) as [Hne _].
  destruct (calculate_inr_lengths _ _ _ Hcalc) as [Hl _].
  destruct (integrator_curve (sampled_times nt) filtered Hl
                             ltac:(rewrite length_sampled_times; lia)
                             (sampled_times_increasing nt))
    as (a1 & d1 & Hc1 & Halen & _).
  rewrite Hcalc in Hc1. injection Hc1 as <- <-.
  destruct (find_5_95_returns (sampled_times nt) arias Hne (eq_sym Halen))
    as ([[[d t5] t95] wd] & Hfind).
  exists d, t5, t95, (last_sample arias), info.
  split; [|split].
  - unfold calculate_period_dependent_duration.
    destruct (Qeq_bool period 0) eqn:Hp;
      [apply Qeq_bool_iff in Hp; lra|].
    rewrite Hmean.
    destruct (Qeq_bool m 0) eqn:Hm0;
      [apply Qeq_bool_iff in Hm0; rewrite Em in Hm0; discriminate|].
    rewrite Hdesign. cbv beta iota delta [stage obind].
    rewrite Hfilt. cbv beta iota delta [stage obind].
    rewrite Hcalc. cbv beta iota delta [stage obind].
    rewrite Hfind. cbv beta iota delta [stage obind].
    rewrite (index_last_sample arias Hne). reflexivity.
  - rewrite Elow. field. lra.
  - rewrite Ehigh. field. lra.
Qed.

(** X14.  At the decoder's sampling (a time base of at least two samples
    with step 0.01) and for every period [T] with [0.8 / T >= 0.01] and
    [1.2 / T <= 47.5] -- each of the six periods of the script is one --
    the filter is designed without clamping, with cutoffs [0.8 / T] and
    [1.2 / T], and the pipeline returns whenever the filter returns an
    array of the record's length. *)
Theorem pipeline_returns (nt : nat) (accel_g : list Q) (period : Q) :
  (2 <= nt)%nat -> length accel_g = nt ->
  0.012 <= 0.475 * period -> period <= 80 ->
  (forall s, exists filtered,
        sosfiltfilt s accel_g = inr filtered /\ length filtered = nt) ->
  exists d t5 t95 total info,
    calculate_period_dependent_duration sos sections sosfiltfilt
                                        (sampled_times nt) accel_g period
    = inr (d, t5, t95, total, info) /\
    low_freq_hz info == 0.8 / period /\
    high_freq_hz info == 1.2 / period.
Proof. exact (pipeline_returns_at_100hz nt accel_g period). Qed.

End PipelineReturns.

(** The theorem at a four-sample record and a period of 0.1 s, with the
    identity standing for the filter. *)
Lemma pipeline_returns_witness :
  exists d t5 t95 total info,
    calculate_period_dependent_duration
      (Q * Q) (fun _ w0 w1 => (w0, w1)) (fun _ x => inr x)
      (sampled_times 4) [0; 1; 0.5; 0] 0.1
    = inr (d, t5, t95, total, info) /\
    low_freq_hz info == 0.8 / 0.1 /\
    high_freq_hz info == 1.2 / 0.1.
Proof.
  apply (pipeline_returns (Q * Q) (fun _ w0 w1 => (w0, w1))
                          (fun _ x => inr x) 4%nat [0; 1; 0.5; 0] 0.1).
  - lia.
  - reflexivity.
  - unfold Qle; simpl; lia.
  - unfold Qle; simpl; lia.
  - intro s. exists [0; 1; 0.5; 0]. split; reflexivity.
Defined.

(** ** Per-file processing *)

Lemma np_max_returns (a : list Q) : a <> [] -> exists m, np.max a = inr m.
Proof. destruct a; [congruence|]. intros _. eexists. reflexivity. Qed.

(** A record without energy goes to the degenerate window. *)
Lemma no_energy_degenerate (time accel_g : list Q) :
  length time = length accel_g -> (0 < length time)%nat ->
  length time = 1%nat \/ Forall (fun a => a == 0) accel_g ->
  exists arias details,
    calculate_arias_intensity_detailed time accel_g = inr (arias, details) /\
    find_5_95_duration_detailed time arias = inr (0, 0, 0, None).
Proof.
  intros Hlen Hpos Hquiet.
  destruct (calculate_arias_intensity_steps time accel_g Hlen Hpos)
    as (c & details & Hcalc & Hclen & Hc0 & Hstep).
  destruct (total_arias_intensity_last _ _ _ _ Hcalc) as [Hne _].
  eexists. exists details. split; [exact Hcalc|].
  apply find_5_95_degenerate; [exact Hne|left].
  unfold last_sample. rewrite nth_scaled, length_map, Hclen.
  assert (Hlast : nth (length time - 1) c 0 == 0).
  { destruct Hquiet as [Hone|Hsilent].
    - rewrite Hone. simpl. rewrite Hc0. reflexivity.
    - apply (silent_curve_zero time accel_g c Hc0 Hstep); [|lia].
      intro k. destruct (Nat.lt_ge_cases k (length accel_g)) as [Hk|Hk].
      + apply (proj1 (Forall_nth _ accel_g) Hsilent k 0 Hk).
      + rewrite nth_overflow by exact Hk. reflexivity. }
  rewrite Hlast. ring.
Qed.

Section PerFile.

Variable sos : Type.
Variable sections : nat -> Q -> Q -> sos.
Variable sosfiltfilt : sos -> list Q -> result (list Q).

Lemma process_record_no_energy (basename : string) (time accel_g : list Q) :
  length time = length accel_g -> (0 < length time)%nat ->
  length time = 1%nat \/ Forall (fun a => a == 0) accel_g ->
  process_record sos sections sosfiltfilt basename time accel_g
  = inl (KeyError "percent_in_duration").
Proof.
  intros Hlen Hpos Hquiet.
  destruct (no_energy_degenerate time accel_g Hlen Hpos Hquiet)
    as (arias & details & Hcalc & Hfind).
  assert (Htime : time <> []) by (destruct time; [simpl in Hpos; lia|congruence]).
  assert (Haccel : map Qabs accel_g <> []).
  { destruct accel_g; [simpl in *; lia|discriminate]. }
  destruct (np_max_returns _ Haccel) as [m Hm].
  unfold process_record.
  rewrite (index_last_sample time Htime), Hm, Hcalc.
  cbv beta iota delta [stage obind].
  rewrite Hfind. reflexivity.
Qed.

(** X15.  A record without energy never yields a result row: when the
    acceleration is zero throughout, or the record has a single sample,
    the processing after loading raises [KeyError] at the line that
    prints [duration_details['percent_in_duration']], because the
    extractor has returned an empty dictionary. *)
Theorem record_without_energy_raises (basename : string)
        (time accel_g : list Q) :
  length time = length accel_g -> (0 < length time)%nat ->
  length time = 1%nat \/ Forall (fun a => a == 0) accel_g ->
  process_record sos sections sosfiltfilt basename time accel_g
  = inl (KeyError "percent_in_duration").
Proof. exact (process_record_no_energy basename time accel_g). Qed.

End PerFile.

(** The theorem at a silent record of three samples, with the identity
    standing for the filter. *)
Lemma record_without_energy_raises_witness :
  process_record (Q * Q) (fun _ w0 w1 => (w0, w1)) (fun _ x => inr x)
                 "record.grm" [0; 0.01; 0.02] [0; 0; 0]
  = inl (KeyError "percent_in_duration").
Proof.
  apply (record_without_energy_raises
           (Q * Q) (fun _ w0 w1 => (w0, w1)) (fun _ x => inr x)
           "record.grm" [0; 0.01; 0.02] [0; 0; 0]).
  - reflexivity.
  - simpl. lia.
  - right. repeat constructor.
Defined.

Lemma load_short_header (file : list byte) :
  (length file < 56)%nat ->
  returned (load_binary_grm_file file) = (None, None).
Proof.
  intro Hlen. unfold load_binary_grm_file, load_binary_grm_body.
  rewrite read_short by lia.
  rewrite ?bind_ret; cbv beta iota.
  destruct (Nat.ltb_spec (length file) 56) as [_|Hge]; [|lia].
  reflexivity.
Qed.

Lemma load_short_payload (header payload : list byte) (nt : Z) :
  length header = 56%nat ->
  struct.unpack_i (slice 40 44 header) = inr nt ->
  (Z.of_nat (length payload) < 2 * 4 * nt)%Z ->
  returned (load_binary_grm_file (header ++ payload)) = (None, None).
Proof.
  intros Hlen Hnt Hshort.
  unfold load_binary_grm_file, load_binary_grm_body.
  rewrite (read_app 56 header payload) by lia.
  rewrite ?bind_ret; cbv beta iota.
  destruct (Nat.ltb_spec (length header) 56) as [Hlt|_]; [lia|].
  rewrite Hnt. cbv beta iota zeta delta [bind].
  change (Z.of_nat 2) with 2%Z.
  rewrite read_short by lia.
  rewrite ?bind_ret; cbv beta iota.
  destruct (Z.ltb_spec (Z.of_nat (length payload)) (2 * 4 * nt)) as [_|Hge];
    [|lia].
  reflexivity.
Qed.

Section FilesWithoutSamples.

Variable sos : Type.
Variable sections : nat -> Q -> Q -> sos.
Variable sosfiltfilt : sos -> list Q -> result (list Q).

(** X16.  Files that hold no usable record.  A file that the decoder
    refuses (fewer than 56 bytes, or a payload shorter than the header
    declares) makes [process_grm_file] return [None] without raising.  A
    file whose header declares zero samples passes the decoder and then
    makes [process_grm_file] raise [IndexError] at [time[-1]]. *)
Theorem files_without_samples (basename : string) :
  (forall file : list byte,
      (length file < 56)%nat ->
      process_grm_file sos sections sosfiltfilt basename file
      = Some (inr None)) /\
  (forall (header payload : list byte) (nt : Z),
      length header = 56%nat ->
      struct.unpack_i (slice 40 44 header) = inr nt ->
      (Z.of_nat (length payload) < 2 * 4 * nt)%Z ->
      process_grm_file sos sections sosfiltfilt basename (header ++ payload)
      = Some (inr None)) /\
  (forall header payload : list byte,
      length header = 56%nat ->
      struct.unpack_i (slice 40 44 header) = inr 0%Z ->
      process_grm_file sos sections sosfiltfilt basename (header ++ payload)
      = Some (inl (Raised (IndexError
                    "index -1 is out of bounds for axis 0 with size 0")))).
Proof.
  split; [|split].
  - intros file Hlen. unfold process_grm_file.
    rewrite (load_short_header file Hlen). reflexivity.
  - intros header payload nt Hlen Hnt Hshort. unfold process_grm_file.
    rewrite (load_short_payload header payload nt Hlen Hnt Hshort).
    reflexivity.
  - intros header payload Hlen Hnt. unfold process_grm_file.
    rewrite (decoder_reads_prefix header payload 0 Hlen Hnt) by (simpl; lia).
    reflexivity.
Qed.

End FilesWithoutSamples.

(** The theorem at the empty file, at a header that declares two samples
    and is followed by fifteen bytes, and at a header that declares no
    sample. *)
Lemma files_without_samples_witness :
  process_grm_file (Q * Q) (fun _ w0 w1 => (w0, w1)) (fun _ x => inr x)
                   "record.grm" []
  = Some (inr None) /\
  process_grm_file (Q * Q) (fun _ w0 w1 => (w0, w1)) (fun _ x => inr x)
                   "record.grm"
                   (example_header Byte.x02 Byte.x00 Byte.x00 Byte.x00
                    ++ repeat Byte.x00 15)
  = Some (inr None) /\
  process_grm_file (Q * Q) (fun _ w0 w1 => (w0, w1)) (fun _ x => inr x)
                   "record.grm"
                   (example_header Byte.x00 Byte.x00 Byte.x00 Byte.x00
                    ++ repeat Byte.x00 4)
  = Some (inl (Raised (IndexError
                "index -1 is out of bounds for axis 0 with size 0"))).
Proof.
  destruct (files_without_samples (Q * Q) (fun _ w0 w1 => (w0, w1))
                                  (fun _ x => inr x) "record.grm")
    as (Hshort & Htruncated & Hempty).
  split; [|split].
  - apply Hshort. simpl. lia.
  - apply (Htruncated _ _ 2%Z); [reflexivity|reflexivity|simpl; lia].
  - apply Hempty; reflexivity.
Defined.

Section ResultRows.

Variable sos : Type.
Variable sections : nat -> Q -> Q -> sos.
Variable sosfiltfilt : sos -> list Q -> result (list Q).

(** What has happened when the processing of a loaded record returns a
    row: every stage has returned, the window has its details, and the
    row holds the seven period-independent entries followed by the four
    entries of each period. *)
Lemma process_record_inr (basename : string) (time accel_g : list Q)
      (row : list (string * cell)) :
  process_record sos sections sosfiltfilt basename time accel_g = inr row ->
  exists arias details d t5 t95 wd r1 r2 r3 r4 r5 r6,
    calculate_arias_intensity_detailed time accel_g = inr (arias, details) /\
    find_5_95_duration_detailed time arias = inr (d, t5, t95, Some wd) /\
    calculate_period_dependent_duration sos sections sosfiltfilt
                                        time accel_g 0.1 = inr r1 /\
    calculate_period_dependent_duration sos sections sosfiltfilt
                                        time accel_g 0.2 = inr r2 /\
    calculate_period_dependent_duration sos sections sosfiltfilt
                                        time accel_g 0.5 = inr r3 /\
    calculate_period_dependent_duration sos sections sosfiltfilt
                                        time accel_g 1.0 = inr r4 /\
    calculate_period_dependent_duration sos sections sosfiltfilt
                                        time accel_g 2.0 = inr r5 /\
    calculate_period_dependent_duration sos sections sosfiltfilt
                                        time accel_g 3.0 = inr r6 /\
    row = [ ("filename", Text basename);
            ("peak_accel_g", Number (max_acceleration_g details));
            ("total_duration_s", Number (duration details));
            ("arias_total_ms", Number (total_arias_intensity details));
            ("duration_5_95_unfiltered_s", Number d);
            ("t5_unfiltered_s", Number t5);
            ("t95_unfiltered_s", Number t95) ]%string
          ++ period_cells "0.1" r1 ++ period_cells "0.2" r2
          ++ period_cells "0.5" r3 ++ period_cells "1.0" r4
          ++ period_cells "2.0" r5 ++ period_cells "3.0" r6.
Proof.
  unfold process_record. intro H.
  apply obind_inr in H. destruct H as (t_last & _ & H).
  apply obind_inr in H. destruct H as (peak & _ & H).
  apply obind_inr in H. destruct H as ([arias details] & Hcalc & H).
  apply obind_inr in H. destruct H as ([[[d t5] t95] wd] & Hfind & H).
  apply obind_inr in H. destruct H as (percent & Hwd & H).
  destruct wd as [wd|]; [|discriminate].
  apply stage_inr in Hcalc, Hfind.
  unfold periods in H. cbn [period_loop] in H.
  apply obind_inr in H. destruct H as ([[[[d1 a1] b1] c1] i1] & H1 & H).
  apply obind_inr in H. destruct H as ([[[[d2 a2] b2] c2] i2] & H2 & H).
  apply obind_inr in H. destruct H as ([[[[d3 a3] b3] c3] i3] & H3 & H).
  apply obind_inr in H. destruct H as ([[[[d4 a4] b4] c4] i4] & H4 & H).
  apply obind_inr in H. destruct H as ([[[[d5 a5] b5] c5] i5] & H5 & H).
  apply obind_inr in H. destruct H as ([[[[d6 a6] b6] c6] i6] & H6 & H).
  injection H as <-.
  exists arias, details, d, t5, t95, wd.
  exists (d1, a1, b1, c1, i1), (d2, a2, b2, c2, i2), (d3, a3, b3, c3, i3),
         (d4, a4, b4, c4, i4), (d5, a5, b5, c5, i5), (d6, a6, b6, c6, i6).
  repeat (split; [assumption|]).
  vm_compute. reflexivity.
Qed.

Lemma result_columns_distinct : NoDup result_columns.
Proof.
  assert (E : nodup string_dec result_columns = result_columns)
    by (vm_compute; reflexivity).
  rewrite <- E. apply NoDup_nodup.
Qed.

(** X17.  Every row that the processing returns has the same 31 columns,
    all different, in the same order: the seven period-independent ones
    and four for each of the six periods, whose names carry the period
    with one decimal.  No entry of one period overwrites another. *)
Theorem row_columns (basename : string) (time accel_g : list Q)
        (row : list (string * cell)) :
  process_record sos sections sosfiltfilt basename time accel_g = inr row ->
  map fst row = result_columns /\ NoDup (map fst row).
Proof.
  intro H.
  destruct (process_record_inr basename time accel_g row H)
    as (arias & details & d & t5 & t95 & wd
        & [[[[d1 a1] b1] c1] i1] & [[[[d2 a2] b2] c2] i2]
        & [[[[d3 a3] b3] c3] i3] & [[[[d4 a4] b4] c4] i4]
        & [[[[d5 a5] b5] c5] i5] & [[[[d6 a6] b6] c6] i6]
        & _ & _ & _ & _ & _ & _ & _ & _ & ->).
  assert (E : forall l : list (string * cell),
             map fst l = result_columns ->
                        map fst l = result_columns /\ NoDup (map fst l)).
  { intros l El. split; [exact El|]. rewrite El.
    exact result_columns_distinct. }
  apply E. reflexivity.
Qed.

(** X18.  In every row returned for a record whose time array increases
    strictly from 0, the period-independent entries describe a window
    that is not empty: [0 <= t5 < t95 <= total_duration_s], the duration
    entry is [t95 - t5], the total duration is the last time, and the
    total Arias intensity is positive. *)
Theorem row_unfiltered_window (basename : string) (time accel_g : list Q)
        (row : list (string * cell)) :
  strictly_increasing time -> nth 0 time 0 == 0 ->
  process_record sos sections sosfiltfilt basename time accel_g = inr row ->
  exists d t5 t95 span total,
    dict_get "duration_5_95_unfiltered_s" row = Some (Number d) /\
    dict_get "t5_unfiltered_s" row = Some (Number t5) /\
    dict_get "t95_unfiltered_s" row = Some (Number t95) /\
    dict_get "total_duration_s" row = Some (Number span) /\
    dict_get "arias_total_ms" row = Some (Number total) /\
    span == last_sample time /\
    0 <= t5 /\ t5 < t95 /\ t95 <= span /\ d == t95 - t5 /\ 0 < total.
Proof.
  intros Hinc Ht0 H.
  destruct (process_record_inr basename time accel_g row H)
    as (arias & details & d & t5 & t95 & wd
        & r1 & r2 & r3 & r4 & r5 & r6
        & Hcalc & Hfind & _ & _ & _ & _ & _ & _ & ->).
  destruct (window_of_valid_curve _ _ _ _ _ _ _ _ Hinc Ht0 Hcalc Hfind)
    as (H1 & H2 & H3 & H4 & H5 & Hzero & Hpos).
  destruct (total_arias_intensity_last _ _ _ _ Hcalc) as [_ Htotal].
  destruct (details_fields _ _ _ _ Hcalc) as (Hdur & _ & _).
  assert (Hz : ~ last_sample arias == 0).
  { intro Hz. destruct (Hzero Hz) as [Hnone _]. discriminate. }
  destruct (Hpos Hz) as [_ Hlt].
  exists d, t5, t95, (duration details), (total_arias_intensity details).
  repeat (split; [reflexivity|]).
  rewrite Hdur, Htotal.
  repeat split; try assumption; lra.
Qed.

(** X19.  In every row returned for a record whose time array increases
    strictly from 0, the four entries of each period hold what the
    pipeline returned for that period, and they describe a window in the
    record: [0 <= t5 <= t95 <= time[-1]], a duration [t95 - t5] and a
    filtered total that is not negative. *)
Theorem row_period_windows (basename : string) (time accel_g : list Q)
        (row : list (string * cell)) :
  strictly_increasing time -> nth 0 time 0 == 0 ->
  process_record sos sections sosfiltfilt basename time accel_g = inr row ->
  Forall
    (fun T =>
       exists d t5 t95 total,
         dict_get ("duration_5_95_T" ++ format_1f T ++ "s") row
         = Some (Number d) /\
         dict_get ("t5_T" ++ format_1f T ++ "s") row = Some (Number t5) /\
         dict_get ("t95_T" ++ format_1f T ++ "s") row = Some (Number t95) /\
         dict_get ("arias_filtered_T" ++ format_1f T) row
         = Some (Number total) /\
         (exists info,
             calculate_period_dependent_duration sos sections sosfiltfilt
                                                 time accel_g T
             = inr (d, t5, t95, total, info)) /\
         0 <= t5 /\ t5 <= t95 /\ t95 <= last_sample time /\
         d == t95 - t5 /\ 0 <= total)
    periods.
Proof.
  intros Hinc Ht0 H.
  destruct (process_record_inr basename time accel_g row H)
    as (arias & details & d & t5 & t95 & wd
        & [[[[d1 a1] b1] c1] i1] & [[[[d2 a2] b2] c2] i2]
        & [[[[d3 a3] b3] c3] i3] & [[[[d4 a4] b4] c4] i4]
        & [[[[d5 a5] b5] c5] i5] & [[[[d6 a6] b6] c6] i6]
        & _ & _ & P1 & P2 & P3 & P4 & P5 & P6 & ->).
  unfold periods.
  repeat apply Forall_cons; try apply Forall_nil;
    (do 4 eexists;
     split; [reflexivity|]; split; [reflexivity|];
     split; [reflexivity|]; split; [reflexivity|];
     split; [eexists; eassumption|];
     match goal with
     | P : calculate_period_dependent_duration _ _ _ _ _ ?T
           = inr (?d, ?a, ?b, ?c, _) |- 0 <= ?a /\ _ =>
       destruct (pipeline_window_facts sos sections sosfiltfilt
                   _ _ _ _ _ _ _ _ Hinc Ht0 P)
         as (W1 & W2 & W3 & W4 & W5 & _);
       repeat split; assumption
     end).
Qed.

Lemma period_loop_returns (time accel_g : list Q) (todo : list Q) :
  (forall T, In T todo ->
     exists r, calculate_period_dependent_duration sos sections sosfiltfilt
                                                   time accel_g T = inr r) ->
  forall results,
  exists row,
    period_loop sos sections sosfiltfilt time accel_g todo results = inr row.
Proof.
  induction todo as [|T rest IH]; intros Hall results.
  - eexists. reflexivity.
  - destruct (Hall T (or_introl eq_refl)) as ([[[[d a] b] c] i] & HT).
    cbn [period_loop]. rewrite HT. cbv beta iota delta [obind].
    apply IH. intros T' HT'. apply Hall. right. exact HT'.
Qed.

Lemma process_record_returns_iff (basename : string) (nt : nat)
        (accel_g : list Q) :
  (2 <= nt)%nat -> length accel_g = nt ->
  (forall s, exists filtered,
        sosfiltfilt s accel_g = inr filtered /\ length filtered = nt) ->
  (exists row,
      process_record sos sections sosfiltfilt basename
                     (sampled_times nt) accel_g = inr row) <->
  ~ Forall (fun a => a == 0) accel_g.
Proof.
  intros Hn Hlen Hfilter.
  assert (Htlen : length (sampled_times nt) = length accel_g)
    by (rewrite length_sampled_times; congruence).
  split.
  - intros [row Hrow] Hsilent.
    rewrite (process_record_no_energy sos sections sosfiltfilt basename
               (sampled_times nt) accel_g Htlen
               ltac:(rewrite length_sampled_times; lia)
               (or_intror Hsilent)) in Hrow.
    discriminate.
  - intro Hloud.
    destruct (silent_iff_no_energy (sampled_times nt) accel_g Htlen
                ltac:(rewrite length_sampled_times; lia)
                (sampled_times_increasing nt))
      as (arias & details & Hcalc & Hiff).
    destruct (total_arias_intensity_last _ _ _ _ Hcalc) as [Hne Htotal].
    destruct (calculate_inr_lengths _ _ _ Hcalc) as [_ Hpos].
    destruct (integrator_curve (sampled_times nt) accel_g Htlen Hpos
                               (sampled_times_increasing nt))
      as (a1 & d1 & Hc1 & Halen & _).
    rewrite Hcalc in Hc1. injection Hc1 as <- <-.
    assert (Hz : ~ last_sample arias == 0).
    { intro Hz. apply Hloud. apply Hiff. rewrite Htotal. exact Hz. }
    destruct (find_5_95_interpolates (sampled_times nt) arias
                                     (eq_sym Halen) Hz)
      as (t5 & t95 & wd & Hfind & _).
    assert (Htime : sampled_times nt <> []).
    { intro Hnil. rewrite Hnil in Hpos. simpl in Hpos. lia. }
    assert (Haccel : map Qabs accel_g <> []).
    { destruct accel_g; [simpl in *; lia|discriminate]. }
    destruct (np_max_returns _ Haccel) as [m Hm].
    unfold process_record.
    rewrite (index_last_sample _ Htime), Hm, Hcalc.
    cbv beta iota delta [stage obind].
    rewrite Hfind. cbv beta iota delta [stage obind].
    apply period_loop_returns.
    intros T HT.
    assert (Hrange : 0.012 <= 0.475 * T /\ T <= 80).
    { unfold periods in HT. simpl in HT.
      destruct HT as [<-|[<-|[<-|[<-|[<-|[<-|[]]]]]]];
        split; unfold Qle; simpl; lia. }
    destruct Hrange as [Hshort Hlong].
    destruct (pipeline_returns_at_100hz sos sections sosfiltfilt
                nt accel_g T Hn Hlen Hshort Hlong Hfilter)
      as (d & u5 & u95 & total & info & HT' & _).
    eexists. exact HT'.
Qed.

(** X20.  Given a filter that returns an array of the record's length, a
    record of at least two samples on the decoder's time base, with samples
    in the working range of single precision, yields a row exactly when it
    is not silent.  For such records the six filter designs never fail. *)
Theorem record_yields_row_iff (basename : string) (nt : nat)
        (accel_g : list Q) :
  (2 <= nt)%nat -> length accel_g = nt ->
  Forall ordinary_sample accel_g ->
  (forall s, exists filtered,
        sosfiltfilt s accel_g = inr filtered /\ length filtered = nt) ->
  (exists row,
      process_record sos sections sosfiltfilt basename
                     (sampled_times nt) accel_g = inr row) <->
  ~ Forall (fun a => a == 0) accel_g.
Proof.
  intros Hn Hlen _.
  exact (process_record_returns_iff basename nt accel_g Hn Hlen).
Qed.

(** X21.  From the bytes of a file to its row.  Take a file whose header
    declares at least two samples, whose payload holds them, and whose
    first component decodes to finite samples in the working range of
    single precision, and a filter that returns an array of the record's
    length.  If every decoded sample is zero, [process_grm_file] raises
    [KeyError]; otherwise it returns a row. *)
Theorem file_yields_row_iff (basename : string) (header payload : list byte)
        (nt : nat) (accel_g : list Q) :
  length header = 56%nat ->
  struct.unpack_i (slice 40 44 header) = inr (Z.of_nat nt) ->
  (2 <= nt)%nat -> (8 * nt <= length payload)%nat ->
  finite_samples
    (map (fun v => float32_div v 981)
         (np.float32_items (firstn (4 * nt) payload)))
  = Some accel_g ->
  Forall ordinary_sample accel_g ->
  (forall s, exists filtered,
        sosfiltfilt s accel_g = inr filtered /\ length filtered = nt) ->
  (Forall (fun a => a == 0) accel_g ->
   process_grm_file sos sections sosfiltfilt basename (header ++ payload)
   = Some (inl (KeyError "percent_in_duration"))) /\
  (~ Forall (fun a => a == 0) accel_g ->
   exists row,
     process_grm_file sos sections sosfiltfilt basename (header ++ payload)
     = Some (inr (Some row))).
Proof.
  intros Hlen Hnt Hn Hpayload Hfinite _ Hfilter.
  assert (Halen : length accel_g = nt).
  { assert (Hgen : forall (l : list float32) (q : list Q),
               finite_samples l = Some q -> length q = length l).
    { induction l as [|v l IH]; intros q Hq.
      - injection Hq as <-. reflexivity.
      - destruct v as [x| |]; try discriminate.
        simpl in Hq. destruct (finite_samples l) as [q'|]; [|discriminate].
        injection Hq as <-. simpl. rewrite (IH q' eq_refl). reflexivity. }
    rewrite (Hgen _ _ Hfinite), length_map.
    apply length_float32_items. rewrite length_firstn. lia. }
  unfold process_grm_file.
  rewrite (decoder_reads_prefix header payload nt Hlen Hnt Hpayload).
  cbn [returned]. rewrite Hfinite.
  split.
  - intro Hsilent.
    rewrite (process_record_no_energy sos sections sosfiltfilt basename
               (sampled_times nt) accel_g).
    + reflexivity.
    + rewrite length_sampled_times. congruence.
    + rewrite length_sampled_times. lia.
    + right. exact Hsilent.
  - intro Hloud.
    destruct (proj2 (process_record_returns_iff basename nt accel_g
                       Hn Halen Hfilter) Hloud) as [row Hrow].
    exists row. rewrite Hrow. reflexivity.
Qed.

End ResultRows.

(** The theorem at a four-sample record, with the identity standing for
    the filter. *)
Lemma record_yields_row_iff_witness :
  (exists row,
      process_record (Q * Q) (fun _ w0 w1 => (w0, w1)) (fun _ x => inr x)
                     "record.grm" (sampled_times 4) [0; 1; 0.5; 0]
      = inr row) <->
  ~ Forall (fun a => a == 0) [0; 1; 0.5; 0].
Proof.
  apply (record_yields_row_iff
           (Q * Q) (fun _ w0 w1 => (w0, w1)) (fun _ x => inr x)
           "record.grm" 4%nat [0; 1; 0.5; 0]).
  - lia.
  - reflexivity.
  - apply ordinary_record_example.
  - intro s. exists [0; 1; 0.5; 0]. split; reflexivity.
Defined.

(** The theorem at a file of two samples, 1.0 and 2.0 in the first
    component, with the identity standing for the filter. *)
Lemma file_yields_row_iff_witness :
  (Forall (fun a => a == 0) [8756304 # 8589934592; 8756304 # 4294967296] ->
   process_grm_file (Q * Q) (fun _ w0 w1 => (w0, w1)) (fun _ x => inr x)
                    "record.grm"
                    (example_header Byte.x02 Byte.x00 Byte.x00 Byte.x00
                     ++ [Byte.x00; Byte.x00; Byte.x80; Byte.x3f;
                         Byte.x00; Byte.x00; Byte.x00; Byte.x40;
                         Byte.x00; Byte.x00; Byte.x00; Byte.x00;
                         Byte.x00; Byte.x00; Byte.x00; Byte.x00])
   = Some (inl (KeyError "percent_in_duration"))) /\
  (~ Forall (fun a => a == 0) [8756304 # 8589934592; 8756304 # 4294967296] ->
   exists row,
     process_grm_file (Q * Q) (fun _ w0 w1 => (w0, w1)) (fun _ x => inr x)
                      "record.grm"
                      (example_header Byte.x02 Byte.x00 Byte.x00 Byte.x00
                       ++ [Byte.x00; Byte.x00; Byte.x80; Byte.x3f;
                           Byte.x00; Byte.x00; Byte.x00; Byte.x40;
                           Byte.x00; Byte.x00; Byte.x00; Byte.x00;
                           Byte.x00; Byte.x00; Byte.x00; Byte.x00])
     = Some (inr (Some row))).
Proof.
  apply (file_yields_row_iff
           (Q * Q) (fun _ w0 w1 => (w0, w1)) (fun _ x => inr x)
           "record.grm"
           (example_header Byte.x02 Byte.x00 Byte.x00 Byte.x00) _ 2%nat).
  - reflexivity.
  - reflexivity.
  - lia.
  - simpl. lia.
  - vm_compute. reflexivity.
  - repeat (apply Forall_cons;
            [right; split; apply Qle_bool_iff; vm_compute; reflexivity|]).
    apply Forall_nil.
  - intro s. eexists. split; reflexivity.
Defined.

(** A four-sample record on the decoder's time base that is not silent,
    and the identity standing for the filter. *)
Lemma example_record_loud : ~ Forall (fun a => a == 0) [0; 1; 0.5; 0].
Proof.
  intro H. apply Forall_inv_tail in H. apply Forall_inv in H.
  discriminate H.
Qed.

Lemma example_filter (s : Q * Q) :
  exists filtered : list Q,
    (fun (_ : Q * Q) (x : list Q) => @inr exn (list Q) x) s [0; 1; 0.5; 0]
    = inr filtered /\ length filtered = 4%nat.
Proof. exists [0; 1; 0.5; 0]. split; reflexivity. Qed.

(** The theorem at that record and a period of 1 s. *)
Lemma pipeline_window_witness :
  exists d t5 t95 total info,
    calculate_period_dependent_duration
      (Q * Q) (fun _ w0 w1 => (w0, w1)) (fun _ x => inr x)
      (sampled_times 4) [0; 1; 0.5; 0] 1
    = inr (d, t5, t95, total, info) /\
    0 <= t5 /\ t5 <= t95 /\ t95 <= last_sample (sampled_times 4) /\
    d == t95 - t5 /\
    0 <= total /\ (d == 0 <-> total == 0) /\
    0.01 <= low_freq_hz info /\ low_freq_hz info < high_freq_hz info.
Proof.
  destruct (pipeline_returns_at_100hz
              (Q * Q) (fun _ w0 w1 => (w0, w1)) (fun _ x => inr x)
              4%nat [0; 1; 0.5; 0] 1)
    as (d & t5 & t95 & total & info & H & _);
    [lia|reflexivity|unfold Qle; simpl; lia|unfold Qle; simpl; lia
    |exact example_filter|].
  exists d, t5, t95, total, info. split; [exact H|].
  apply (pipeline_window (Q * Q) (fun _ w0 w1 => (w0, w1))
                         (fun _ x => inr x)
                         (sampled_times 4) [0; 1; 0.5; 0] 1);
    [reflexivity|reflexivity|exact H].
Defined.

(** The row theorems at that record. *)
Lemma row_columns_witness :
  exists row,
    process_record (Q * Q) (fun _ w0 w1 => (w0, w1)) (fun _ x => inr x)
                   "record.grm" (sampled_times 4) [0; 1; 0.5; 0]
    = inr row /\
    map fst row = result_columns /\ NoDup (map fst row).
Proof.
  destruct (proj2 (process_record_returns_iff
                     (Q * Q) (fun _ w0 w1 => (w0, w1)) (fun _ x => inr x)
                     "record.grm" 4%nat [0; 1; 0.5; 0]
                     ltac:(lia) eq_refl example_filter)
                  example_record_loud) as [row H].
  exists row. split; [exact H|].
  apply (row_columns (Q * Q) (fun _ w0 w1 => (w0, w1)) (fun _ x => inr x)
                     "record.grm" (sampled_times 4) [0; 1; 0.5; 0]).
  exact H.
Defined.

Lemma row_unfiltered_window_witness :
  exists row,
    process_record (Q * Q) (fun _ w0 w1 => (w0, w1)) (fun _ x => inr x)
                   "record.grm" (sampled_times 4) [0; 1; 0.5; 0]
    = inr row /\
    exists d t5 t95 span total,
      dict_get "duration_5_95_unfiltered_s" row = Some (Number d) /\
      dict_get "t5_unfiltered_s" row = Some (Number t5) /\
      dict_get "t95_unfiltered_s" row = Some (Number t95) /\
      dict_get "total_duration_s" row = Some (Number span) /\
      dict_get "arias_total_ms" row = Some (Number total) /\
      span == last_sample (sampled_times 4) /\
      0 <= t5 /\ t5 < t95 /\ t95 <= span /\ d == t95 - t5 /\ 0 < total.
Proof.
  destruct (proj2 (process_record_returns_iff
                     (Q * Q) (fun _ w0 w1 => (w0, w1)) (fun _ x => inr x)
                     "record.grm" 4%nat [0; 1; 0.5; 0]
                     ltac:(lia) eq_refl example_filter)
                  example_record_loud) as [row H].
  exists row. split; [exact H|].
  apply (row_unfiltered_window
           (Q * Q) (fun _ w0 w1 => (w0, w1)) (fun _ x => inr x)
           "record.grm" (sampled_times 4) [0; 1; 0.5; 0]);
    [reflexivity|reflexivity|exact H].
Defined.

Lemma row_period_windows_witness :
  exists row,
    process_record (Q * Q) (fun _ w0 w1 => (w0, w1)) (fun _ x => inr x)
                   "record.grm" (sampled_times 4) [0; 1; 0.5; 0]
    = inr row /\
    Forall
      (fun T =>
         exists d t5 t95 total,
           dict_get ("duration_5_95_T" ++ format_1f T ++ "s") row
           = Some (Number d) /\
           dict_get ("t5_T" ++ format_1f T ++ "s") row = Some (Number t5) /\
           dict_get ("t95_T" ++ format_1f T ++ "s") row
           = Some (Number t95) /\
           dict_get ("arias_filtered_T" ++ format_1f T) row
           = Some (Number total) /\
           (exists info,
               calculate_period_dependent_duration
                 (Q * Q) (fun _ w0 w1 => (w0, w1)) (fun _ x => inr x)
                 (sampled_times 4) [0; 1; 0.5; 0] T
               = inr (d, t5, t95, total, info)) /\
           0 <= t5 /\ t5 <= t95 /\ t95 <= last_sample (sampled_times 4) /\
           d == t95 - t5 /\ 0 <= total)
      periods.
Proof.
  destruct (proj2 (process_record_returns_iff
                     (Q * Q) (fun _ w0 w1 => (w0, w1)) (fun _ x => inr x)
                     "record.grm" 4%nat [0; 1; 0.5; 0]
                     ltac:(lia) eq_refl example_filter)
                  example_record_loud) as [row H].
  exists row. split; [exact H|].
  apply (row_period_windows
           (Q * Q) (fun _ w0 w1 => (w0, w1)) (fun _ x => inr x)
           "record.grm" (sampled_times 4) [0; 1; 0.5; 0]);
    [reflexivity|reflexivity|exact H].
Defined.

(** ** The reported peak *)

Lemma fold_max (t : list Q) (x : Q) :
  let r := fold_left (fun m y => if Qlt_le_dec m y then y else m) t x in
  (r = x \/ In r t) /\ x <= r /\ forall y, In y t -> y <= r.
Proof.
  revert x. induction t as [|z t IH]; intro x; simpl.
  - split; [left; reflexivity|]. split; [apply Qle_refl|]. intros y [].
  - destruct (Qlt_le_dec x z) as [Hlt|Hle].
    + destruct (IH z) as (Hin & Hge & Hall).
      split; [right; destruct Hin as [->|Hin]; [left; reflexivity|right; exact Hin]|].
      split; [lra|].
      intros y [<-|Hy]; [exact Hge|apply Hall; exact Hy].
    + destruct (IH x) as (Hin & Hge & Hall).
      split; [destruct Hin as [->|Hin]; [left; reflexivity|right; right; exact Hin]|].
      split; [exact Hge|].
      intros y [<-|Hy]; [lra|apply Hall; exact Hy].
Qed.

Lemma np_max_spec (a : list Q) (m : Q) :
  np.max a = inr m -> In m a /\ forall x, In x a -> x <= m.
Proof.
  destruct a as [|x t]; [discriminate|].
  unfold np.max, ret. intro H. injection H as <-.
  destruct (fold_max t x) as (Hin & Hge & Hall).
  split.
  - destruct Hin as [->|Hin]; [left; reflexivity|right; exact Hin].
  - intros y [<-|Hy]; [exact Hge|apply Hall; exact Hy].
Qed.

Lemma details_peaks (time accel_g arias : list Q) (details : arias_details) :
  calculate_arias_intensity_detailed time accel_g = inr (arias, details) ->
  np.max (map Qabs accel_g) = inr (max_acceleration_g details) /\
  np.max (map Qabs (map (fun a => a * 9.81) accel_g))
  = inr (max_acceleration_ms2 details).
Proof.
  unfold calculate_arias_intensity_detailed. intro H.
  apply bind_inr in H. destruct H as (c & _ & H).
  apply bind_inr in H. destruct H as (max_g & Hg & H).
  apply bind_inr in H. destruct H as (max_ms2 & Hms2 & H).
  apply bind_inr in H. destruct H as (total & _ & H).
  apply bind_inr in H. destruct H as (t_last & _ & H).
  apply bind_inr in H. destruct H as (t_first & _ & H).
  injection H as <- <-. simpl. split; assumption.
Qed.

(** X22.  The peak the integrator reports is the largest absolute value
    among the acceleration samples: no sample exceeds it and one sample
    attains it; the peak in m/s^2 is the peak in g times 9.81. *)
Theorem reported_peak (time accel_g : list Q) :
  length time = length accel_g -> (0 < length time)%nat ->
  exists arias details,
    calculate_arias_intensity_detailed time accel_g = inr (arias, details) /\
    (forall i, (i < length accel_g)%nat ->
               Qabs (nth i accel_g 0) <= max_acceleration_g details) /\
    (exists j, (j < length accel_g)%nat /\
               max_acceleration_g details = Qabs (nth j accel_g 0)) /\
    max_acceleration_ms2 details == max_acceleration_g details * 9.81.
Proof.
  intros Hlen Hpos.
  destruct (calculate_arias_intensity_returns time accel_g Hlen Hpos)
    as (c & details & _ & Hcalc).
  eexists. exists details. split; [exact Hcalc|].
  destruct (details_peaks _ _ _ _ Hcalc) as [Hg Hms2].
  destruct (np_max_spec _ _ Hg) as [Hin Hall].
  destruct (np_max_spec _ _ Hms2) as [Hin' Hall'].
  assert (Habs : forall a, Qabs (a * 9.81) == Qabs a * 9.81).
  { intro a. rewrite Qabs_Qmult. reflexivity. }
  split; [|split].
  - intros i Hi. apply Hall. apply in_map. apply nth_In. exact Hi.
  - apply in_map_iff in Hin. destruct Hin as (a & <- & Ha).
    destruct (In_nth _ _ 0 Ha) as (j & Hj & <-).
    exists j. split; [exact Hj|reflexivity].
  - apply Qle_antisym.
    + apply in_map_iff in Hin'. destruct Hin' as (b & <- & Hb).
      apply in_map_iff in Hb. destruct Hb as (a & <- & Ha).
      rewrite Habs.
      assert (Hle : Qabs a <= max_acceleration_g details)
        by (apply Hall; apply in_map; exact Ha).
      nra.
    + apply in_map_iff in Hin. destruct Hin as (a & Hm & Ha).
      rewrite <- Hm, <- Habs. apply Hall'.
      apply in_map. apply (in_map (fun a => a * 9.81)). exact Ha.
Qed.

(** The theorem at a three-sample record. *)
Lemma reported_peak_witness :
  exists arias details,
    calculate_arias_intensity_detailed [0; 0.01; 0.02] [0.3; -1; 0.5]
    = inr (arias, details) /\
    (forall i, (i < 3)%nat ->
               Qabs (nth i [0.3; -1; 0.5] 0) <= max_acceleration_g details) /\
    (exists j, (j < 3)%nat /\
               max_acceleration_g details = Qabs (nth j [0.3; -1; 0.5] 0)) /\
    max_acceleration_ms2 details == max_acceleration_g details * 9.81.
Proof.
  apply (reported_peak [0; 0.01; 0.02] [0.3; -1; 0.5]).
  - reflexivity.
  - simpl. lia.
Defined.
